(** * Vault APY oracle: reconciliation, validation, risk scoring and resolution

  A shallow embedding of the decision logic of the vault APY oracle
  (src/chainlink/external-adapter.js, the rate limiter of
  src/api/server.js, src/utils/risk-scorer.js, src/utils/cache-manager.js,
  src/collectors/onchain/enhanced-vault-collector.js,
  src/collectors/onchain/vault-onchain-collector.js,
  src/collectors/api/defillama-collector.js,
  src/collectors/api/vaults-fyi-collector.js) together with the
  properties its specification states about it and further properties of
  the code.

  Conventions of the embedding:
  - a vault record is a [Vault] with string fields; a missing string field
    is the empty string (the only falsy string of JavaScript);
  - [tvl_usd] and the scores are integers ([Z]); [apy] is the rational
    that the binary64 number of the record stands for, and the risk-adjusted
    yield is the product rounded to binary64 ([JS.double]); the weighted
    risk score, whose rounding depends on binary64 arithmetic, is computed
    with the kernel's binary64 floats;
  - a table written as an object literal is an association list; the names
    that every object inherits ([JS.inherited]) are kept apart, a lookup
    under them finds no number;
  - a JavaScript [Map] is an insertion-ordered association list;
  - [Array.prototype.sort] is a stable insertion sort driven by the sign of
    the comparator, which is the result the language fixes for a consistent
    comparator;
  - I/O (provider fetches, calls to the chain, database calls) is recorded
    in a trace that every effectful function returns next to its result. *)

Set Warnings "-inexact-float".
From Stdlib Require Import ZArith QArith List String Ascii Bool Lia Permutation Sorted.
From Stdlib Require Import Floats DecimalString Lqa.
From stdpp Require Import base gmap strings.
Import ListNotations.

Local Open Scope string_scope.
Local Open Scope Z_scope.

(** ** JavaScript helpers *)

Module JS.

Definition lowerAscii (c : ascii) : ascii :=
  let n := nat_of_ascii c in
  if ((65 <=? n)%nat && (n <=? 90)%nat)%bool then ascii_of_nat (n + 32) else c.

Definition upperAscii (c : ascii) : ascii :=
  let n := nat_of_ascii c in
  if ((97 <=? n)%nat && (n <=? 122)%nat)%bool then ascii_of_nat (n - 32) else c.

(** [String.prototype.toLowerCase] / [toUpperCase] on ASCII text. *)
Fixpoint toLowerCase (s : string) : string :=
  match s with
  | EmptyString => EmptyString
  | String c r => String (lowerAscii c) (toLowerCase r)
  end.

Fixpoint toUpperCase (s : string) : string :=
  match s with
  | EmptyString => EmptyString
  | String c r => String (upperAscii c) (toUpperCase r)
  end.

(** [s.startsWith(p)] *)
Definition startsWith (p s : string) : bool := String.prefix p s.

(** [s.includes(p)]: [p] occurs somewhere in [s]. *)
Fixpoint includes (p s : string) : bool :=
  String.prefix p s ||
  match s with
  | EmptyString => false
  | String _ r => includes p r
  end.

(** Truthiness of a number that may be absent. *)
Definition truthyNum (x : option Z) : bool :=
  match x with
  | Some z => negb (z =? 0)
  | None => false
  end.

(** [x || d] on a number that may be absent. *)
Definition orDefault (x : option Z) (d : Z) : Z :=
  match x with
  | Some z => if z =? 0 then d else z
  | None => d
  end.

(** A number that may be absent, read as a number: [null] counts as 0. *)
Definition num (x : option Z) : Z :=
  match x with
  | Some z => z
  | None => 0
  end.

(** [x >= y] when [x] may be [null]. *)
Definition geNum (x : option Z) (y : Z) : bool := y <=? num x.

(** The members that every object inherits from [Object.prototype].  A table
    written as an object literal answers to these names as well, with a
    function or an object: a truthy value that is no number. *)
Definition inheritedNames : list string :=
  [ "constructor"; "__defineGetter__"; "__defineSetter__"; "hasOwnProperty";
    "__lookupGetter__"; "__lookupSetter__"; "isPrototypeOf";
    "propertyIsEnumerable"; "toString"; "valueOf"; "__proto__";
    "toLocaleString" ].

Definition inherited (name : string) : bool :=
  existsb (String.eqb name) inheritedNames.

(** [n / d] rounded to the nearest integer, a tie to the even one
    ([d] positive). *)
Definition roundHalfEven (n d : Z) : Z :=
  let q := n / d in
  let r := n mod d in
  if 2 * r <? d then q
  else if d <? 2 * r then q + 1
  else if Z.even q then q else q + 1.

(** The exponent of the last binary digit that binary64 keeps of [n / d]
    ([n] and [d] positive): 52 below the leading digit, and -1074 at the
    least. *)
Definition lastPlace (n d : Z) : Z :=
  let k := Z.log2 n - Z.log2 d in
  let reached := if 0 <=? k then d * 2 ^ k <=? n else d <=? n * 2 ^ (- k) in
  let leading := if reached then k else k - 1 in
  Z.max (leading - 52) (-1074).

(** A number rounded to binary64 (to the nearest, a tie to the even
    mantissa), as JavaScript rounds the exact result of every product and
    quotient.  Magnitudes from 2^1024 on, which JavaScript turns into
    [Infinity], are outside this model. *)
Definition double (x : Q) : Q :=
  let n := Z.abs (Qnum x) in
  let d := Zpos (Qden x) in
  if n =? 0 then 0%Q
  else
    let e := lastPlace n d in
    let m :=
      if 0 <=? e then roundHalfEven n (d * 2 ^ e)
      else roundHalfEven (n * 2 ^ (- e)) d in
    let m := if Qnum x <? 0 then - m else m in
    if 0 <=? e then inject_Z (m * 2 ^ e) else Qmake m (Z.to_pos (2 ^ (- e))).

(** The rational that a finite binary64 number stands for. *)
Definition exactly (x : float) : Q :=
  match Prim2SF x with
  | S754_finite s m e =>
      let n := if s then Z.neg m else Z.pos m in
      if 0 <=? e then inject_Z (n * 2 ^ e) else Qmake n (Z.to_pos (2 ^ (- e)))
  | _ => 0%Q
  end.

(** The value of a call to an [async] function: a promise for its result. *)
Inductive Promise (A : Type) : Type := promiseOf (a : A).
Arguments promiseOf {A} a.

(** [await p] *)
Definition await {A} (p : Promise A) : A :=
  match p with
  | promiseOf a => a
  end.

(** What a variable holds that is meant to hold an array: the array, or,
    when the call that produces it was not awaited, the promise. *)
Inductive ArrayOrPromise (A : Type) : Type :=
| anArray (l : list A)
| aPromise (p : Promise (list A)).
Arguments anArray {A} l.
Arguments aPromise {A} p.

(** [v.length]: a promise has no such property ([undefined]). *)
Definition lengthOf {A} (v : ArrayOrPromise A) : option Z :=
  match v with
  | anArray l => Some (Z.of_nat (length l))
  | aPromise _ => None
  end.

(** What a call can throw. *)
Inductive Exception :=
| Error (message : string)
| TypeError (message : string).

Definition message (e : Exception) : string :=
  match e with
  | Error m => m
  | TypeError m => m
  end.

(** Outcome of a call: a value, or an exception on its way up. *)
Inductive Outcome (A : Type) : Type :=
| Returned (a : A)
| Thrown (e : Exception).
Arguments Returned {A} a.
Arguments Thrown {A} e.

(** [arr.slice(0, k)] for an integer [k]: a negative [k] counts from the
    end of the array. *)
Definition slice0 {A} (k : Z) (l : list A) : list A :=
  if k <? 0 then firstn (Z.to_nat (Z.of_nat (length l) + k)) l
  else firstn (Z.to_nat k) l.

(** [Array.prototype.sort(cmp)]: stable insertion sort; [x] moves behind
    [y] exactly when [cmp x y > 0].  The language fixes the result of [sort]
    for a comparator that is consistent on the array (the order it asks for
    is transitive there): the elements in that order, equal ones as the
    array had them, which is what this function returns.  For any other
    comparator the order is left to the engine; of such a result only what
    every order shares is used below (it is a permutation of the array). *)
Section Sort.
Context {A : Type} (cmp : A -> A -> Q).

Definition staysBefore (x y : A) : bool := Qle_bool (cmp x y) 0.

Fixpoint insert (x : A) (l : list A) : list A :=
  match l with
  | [] => [x]
  | y :: r => if staysBefore x y then x :: y :: r else y :: insert x r
  end.

Fixpoint sort (l : list A) : list A :=
  match l with
  | [] => []
  | x :: r => insert x (sort r)
  end.

(** The order the comparator asks for between two elements. *)
Definition inOrder (x y : A) : Prop := staysBefore x y = true.

(** A comparator that never wants both [x] behind [y] and [y] behind [x]. *)
Definition decisive : Prop :=
  forall x y, staysBefore x y = false -> staysBefore y x = true.

End Sort.

End JS.

(** ** Data model *)

Record Vault := mkVault {
  vault_address : string;
  chain : string;
  protocol : string;
  name : string;
  asset_symbol : string;
  apy : Q;
  tvl_usd : Z;
  data_source : string;
  risk_score : option Z;        (* provider score, null for DefiLlama pools;
                                   overwritten by the risk scorer *)
  validation_score : option Z   (* set by the on-chain validation pass *)
}.

(** ** Reconciler (external-adapter.js, collectFromAllSources) *)

Module Reconciler.

(** [{ ...vault, source_priority }] *)
Record Tagged := mkTagged {
  record : Vault;
  source_priority : string
}.

(** [`${vault.vault_address}-${vault.chain}`.toLowerCase()] *)
Definition key (v : Vault) : string :=
  JS.toLowerCase (vault_address v ++ "-" ++ chain v).

(** The identity of a record according to the data model. *)
Definition identity (v : Vault) : string * string :=
  (JS.toLowerCase (vault_address v), JS.toLowerCase (chain v)).

(** [new Map()]: entries in insertion order. *)
Definition VaultMap := list (string * Tagged).

Fixpoint map_get (k : string) (m : VaultMap) : option Tagged :=
  match m with
  | [] => None
  | (k', t) :: r => if String.eqb k k' then Some t else map_get k r
  end.

(** [Map.prototype.set]: an existing key keeps its position. *)
Fixpoint map_set (k : string) (t : Tagged) (m : VaultMap) : VaultMap :=
  match m with
  | [] => [(k, t)]
  | (k', t') :: r =>
      if String.eqb k k' then (k', t) :: r else (k', t') :: map_set k t r
  end.

(** First loop: every DefiLlama vault is stored unconditionally. *)
Definition addDefiLlama (m : VaultMap) (vault : Vault) : VaultMap :=
  map_set (key vault) (mkTagged vault "defillama") m.

(** The override test of the second loop of collectFromAllSources. *)
Definition overrides (vault : Vault) (existing : Tagged) : bool :=
  (tvl_usd (record existing) <? tvl_usd vault)
  || (JS.truthyNum (risk_score vault)
      && negb (JS.truthyNum (risk_score (record existing)))).

Definition addVaultsFyi (m : VaultMap) (vault : Vault) : VaultMap :=
  match map_get (key vault) m with
  | None => map_set (key vault) (mkTagged vault "vaultsfyi") m
  | Some existing =>
      if overrides vault existing
      then map_set (key vault) (mkTagged vault "vaultsfyi") m
      else m
  end.

Definition vaultMapOf (defiLlamaVaults vaultsFyiVaults : list Vault) : VaultMap :=
  fold_left addVaultsFyi vaultsFyiVaults (fold_left addDefiLlama defiLlamaVaults []).

(** [Array.from(vaultMap.values())] *)
Definition collectFromAllSources (defiLlamaVaults vaultsFyiVaults : list Vault)
  : list Tagged :=
  map snd (vaultMapOf defiLlamaVaults vaultsFyiVaults).

(** collectFromLendingSources (defillama-collector.js): the same two loops,
    the second one overriding on strictly greater TVL only. *)
Definition addVaultsFyiLending (m : VaultMap) (vault : Vault) : VaultMap :=
  match map_get (key vault) m with
  | None => map_set (key vault) (mkTagged vault "vaultsfyi") m
  | Some existing =>
      if tvl_usd (record existing) <? tvl_usd vault
      then map_set (key vault) (mkTagged vault "vaultsfyi") m
      else m
  end.

Definition collectFromLendingSources (defiLlamaVaults vaultsFyiVaults : list Vault)
  : list Tagged :=
  map snd (fold_left addVaultsFyiLending vaultsFyiVaults
             (fold_left addDefiLlama defiLlamaVaults [])).

(** The records of a merged output, without the provenance tag. *)
Definition records (out : list Tagged) : list Vault := map record out.

(** The invariant of the vault map: every entry is stored under the key of
    its record, and no key is stored twice. *)
Definition keyed (m : VaultMap) : Prop :=
  Forall (fun kt => key (record (snd kt)) = fst kt) m.

Definition wellKeyed (m : VaultMap) : Prop := List.NoDup (map fst m) /\ keyed m.



End Reconciler.

(** ** On-chain validator (external-adapter.js, calculateValidationScore) *)

Module Validator.

Inductive Freshness := fresh | recent | stale | unknown.

(** The object built by validateVaultData. *)
Record ValidationResult := mkValidation {
  name_similarity : bool;
  asset_match : bool;
  tvl_reasonable : bool;
  data_freshness : Freshness;
  has_real_address : bool
}.

Definition calculateValidationScore (validation : ValidationResult) : Z :=
  let score := 0 in
  let score := if has_real_address validation then score + 30 else score in
  let score := if asset_match validation then score + 25 else score in
  let score := if name_similarity validation then score + 20 else score in
  let score := if tvl_reasonable validation then score + 15 else score in
  let score :=
    match data_freshness validation with
    | fresh => score + 10
    | recent => score + 5
    | _ => score
    end in
  Z.min score 100.

Inductive ConfidenceLevel :=
| conf_high | conf_medium_high | conf_medium | conf_medium_low | conf_low.

Definition getConfidenceLevel (validation : ValidationResult) : ConfidenceLevel :=
  let score := calculateValidationScore validation in
  if 80 <=? score then conf_high
  else if 60 <=? score then conf_medium_high
  else if 40 <=? score then conf_medium
  else if 20 <=? score then conf_medium_low
  else conf_low.

(** The score as the specification words it: a weighted sum of the checks
    plus the freshness bonus. *)
Definition weight (passed : bool) (w : Z) : Z := if passed then w else 0.

Definition freshnessBonus (f : Freshness) : Z :=
  match f with
  | fresh => 10
  | recent => 5
  | stale | unknown => 0
  end.

Definition weightedSum (validation : ValidationResult) : Z :=
  weight (has_real_address validation) 30
  + weight (asset_match validation) 25
  + weight (name_similarity validation) 20
  + weight (tvl_reasonable validation) 15
  + freshnessBonus (data_freshness validation).

(** One check replaced, the others held fixed. *)
Definition with_has_real_address (b : bool) (v : ValidationResult) :=
  mkValidation (name_similarity v) (asset_match v) (tvl_reasonable v)
    (data_freshness v) b.

Definition with_asset_match (b : bool) (v : ValidationResult) :=
  mkValidation (name_similarity v) b (tvl_reasonable v)
    (data_freshness v) (has_real_address v).

Definition with_name_similarity (b : bool) (v : ValidationResult) :=
  mkValidation b (asset_match v) (tvl_reasonable v)
    (data_freshness v) (has_real_address v).

Definition with_tvl_reasonable (b : bool) (v : ValidationResult) :=
  mkValidation (name_similarity v) (asset_match v) b
    (data_freshness v) (has_real_address v).

Definition with_data_freshness (f : Freshness) (v : ValidationResult) :=
  mkValidation (name_similarity v) (asset_match v) (tvl_reasonable v)
    f (has_real_address v).

End Validator.

(** ** Risk scorer (risk-scorer.js) *)

Module RiskScorer.

Inductive RiskCategory := low | medium_low | medium | medium_high | high.

Fixpoint lookup {A} (k : string) (table : list (string * A)) : option A :=
  match table with
  | [] => None
  | (k', a) :: r => if String.eqb k k' then Some a else lookup k r
  end.

Definition protocolRiskScores : list (string * Z) :=
  [ ("aave-v3", 95); ("aave-v2", 92); ("compound-v3", 94); ("compound-v2", 90);
    ("yearn", 85); ("convex", 83); ("curve", 87); ("lido", 88); ("maker", 89);
    ("uniswap-v3", 75); ("sushiswap", 72); ("balancer", 78);
    ("morpho-blue", 82); ("fluid-lending", 75);
    ("aerodrome-slipstream", 45); ("pancakeswap", 65); ("trader-joe", 68);
    ("default", 50) ].

Definition chainRiskMultipliers : list (string * float) :=
  [ ("ethereum", 1.0%float); ("base", 0.95%float); ("arbitrum", 0.9%float);
    ("polygon", 0.85%float); ("optimism", 0.9%float);
    ("avalanche", 0.8%float); ("bsc", 0.7%float) ].

Definition isSpace (c : ascii) : bool :=
  let n := nat_of_ascii c in
  ((n =? 32) || ((9 <=? n) && (n <=? 13)))%nat.

(** [s.replace(/\s+/g, '-')]: every run of white space becomes one dash. *)
Fixpoint dashSpaces (inRun : bool) (s : string) : string :=
  match s with
  | EmptyString => EmptyString
  | String c r =>
      if isSpace c
      then (if inRun then dashSpaces true r else String "-" (dashSpaces true r))
      else String c (dashSpaces false r)
  end.

(** getProtocolScore.  The table is an object literal: under a key that is
    an inherited name ([constructor], [__proto__]) the lookup finds a member
    of [Object.prototype] instead of a score, and the weighted score is not a
    number.  The function gives the score for every other key; [ownNames]
    below says when the three tables of the scorer are read under such
    keys. *)
Definition getProtocolScore (protocol : string) : Z :=
  if String.eqb protocol "" then 30
  else
    let protocolKey := dashSpaces false (JS.toLowerCase protocol) in
    JS.orDefault (lookup protocolKey protocolRiskScores) 50.

Definition getTVLScore (tvlUsd : Z) : Z :=
  if (tvlUsd =? 0) || (tvlUsd <=? 0) then 20
  else if 100000000 <=? tvlUsd then 95
  else if 50000000 <=? tvlUsd then 90
  else if 10000000 <=? tvlUsd then 85
  else if 5000000 <=? tvlUsd then 75
  else if 1000000 <=? tvlUsd then 65
  else if 500000 <=? tvlUsd then 55
  else if 100000 <=? tvlUsd then 45
  else 30.

Definition getAPYScore (apy : Q) : Z :=
  if Qeq_bool apy 0 || Qle_bool apy 0 then 20
  else if Qle_bool apy 5 then 95
  else if Qle_bool apy 10 then 90
  else if Qle_bool apy 20 then 80
  else if Qle_bool apy 50 then 60
  else if Qle_bool apy 100 then 40
  else if Qle_bool apy 200 then 25
  else 10.

(** getChainScore, for a chain whose lower-cased name is no inherited
    name. *)
Definition getChainScore (chain : string) : float :=
  if String.eqb chain "" then 50%float
  else
    let multiplier :=
      match lookup (JS.toLowerCase chain) chainRiskMultipliers with
      | Some m => m
      | None => 0.7%float
      end in
    (multiplier * 100)%float.

Definition sourceScores : list (string * Z) :=
  [ ("vaultsfyi", 90); ("defillama", 85); ("onchain", 95); ("default", 70) ].

(** getSourceScore, for a source that is no inherited name. *)
Definition getSourceScore (source : string) : Z :=
  JS.orDefault (lookup source sourceScores) 70.

(** The vault reads the three tables of the scorer under keys of their own,
    so that every sub-score is a number. *)
Definition ownNames (vaultData : Vault) : bool :=
  negb (JS.inherited (dashSpaces false (JS.toLowerCase (protocol vaultData))))
  && negb (JS.inherited (JS.toLowerCase (chain vaultData)))
  && negb (JS.inherited (data_source vaultData)).

Definition getRiskCategory (score : Z) : RiskCategory :=
  if 85 <=? score then low
  else if 70 <=? score then medium_low
  else if 55 <=? score then medium
  else if 40 <=? score then medium_high
  else high.

(** An integer sub-score as a binary64 number. *)
Definition toFloat (z : Z) : float := PrimFloat.of_uint63 (Uint63.of_Z z).

(** [Math.round]: the nearest integer, a tie going up.  The weighted score is
    always finite; a non-finite argument is mapped to 0 here. *)
Definition Math_round (x : float) : Z :=
  match Prim2SF x with
  | S754_finite s m e =>
      let n := if s then Z.neg m else Z.pos m in
      if 0 <=? e then n * 2 ^ e
      else (2 * n + 2 ^ (- e)) / (2 * 2 ^ (- e))
  | _ => 0
  end.

Record Breakdown := mkBreakdown {
  b_protocol : Z;
  b_tvl : Z;
  b_apy : Z;
  b_chain : Z;
  b_source : Z
}.

Record RiskAnalysis := mkRiskAnalysis {
  riskScore : Z;
  breakdown : Breakdown;
  riskCategory : RiskCategory
}.

(** The body of calculateRiskScore after a cache miss. *)
Definition scoreVault (vaultData : Vault) : RiskAnalysis :=
  let score := 0%float in
  let maxScore := 0%float in
  let protocolScore := getProtocolScore (protocol vaultData) in
  let score := (score + toFloat protocolScore * 0.4)%float in
  let maxScore := (maxScore + 100 * 0.4)%float in
  let tvlScore := getTVLScore (tvl_usd vaultData) in
  let score := (score + toFloat tvlScore * 0.25)%float in
  let maxScore := (maxScore + 100 * 0.25)%float in
  let apyScore := getAPYScore (apy vaultData) in
  let score := (score + toFloat apyScore * 0.2)%float in
  let maxScore := (maxScore + 100 * 0.2)%float in
  let chainScore := getChainScore (chain vaultData) in
  let score := (score + chainScore * 0.1)%float in
  let maxScore := (maxScore + 100 * 0.1)%float in
  let sourceScore := getSourceScore (data_source vaultData) in
  let score := (score + toFloat sourceScore * 0.05)%float in
  let maxScore := (maxScore + 100 * 0.05)%float in
  let finalScore := Math_round ((score / maxScore) * 100)%float in
  mkRiskAnalysis
    (Z.max 0 (Z.min 100 finalScore))
    (mkBreakdown protocolScore tvlScore apyScore (Math_round chainScore) sourceScore)
    (getRiskCategory finalScore).

(** The live entries of the risk-score cache, by cache key, each an
    analysis with a number for its score. *)
Abbreviation RiskCache := (gmap string RiskAnalysis).

Definition showNumber (z : Z) : string := NilZero.string_of_int (Z.to_int z).

(** [`${vault_address}-${protocol}-${tvl_usd}`] *)
Definition cacheKey (vaultData : Vault) : string :=
  vault_address vaultData ++ "-" ++ protocol vaultData ++ "-"
  ++ showNumber (tvl_usd vaultData).

(** calculateRiskScore: a cached analysis is returned as it is, otherwise the
    vault is scored and the analysis stored. *)
Definition calculateRiskScore (cache : RiskCache) (vaultData : Vault)
  : RiskAnalysis * RiskCache :=
  match cache !! cacheKey vaultData with
  | Some cached => (cached, cache)
  | None =>
      let result := scoreVault vaultData in
      (result, <[cacheKey vaultData := result]> cache)
  end.

(** [{ ...vault, risk_score, risk_category, risk_breakdown }] *)
Record ScoredVault := mkScored {
  vault : Vault;                    (* with [risk_score] overwritten *)
  risk_category : RiskCategory;
  risk_breakdown : Breakdown
}.

Definition set_risk_score (s : Z) (v : Vault) : Vault :=
  mkVault (vault_address v) (chain v) (protocol v) (name v) (asset_symbol v)
    (apy v) (tvl_usd v) (data_source v) (Some s) (validation_score v).

Definition enrich (cache : RiskCache) (v : Vault) : ScoredVault :=
  let riskAnalysis := fst (calculateRiskScore cache v) in
  mkScored (set_risk_score (riskScore riskAnalysis) v)
    (riskCategory riskAnalysis) (breakdown riskAnalysis).

Definition riskLevelScores : list (string * Z) :=
  [ ("low", 85); ("medium-low", 70); ("medium", 55); ("medium-high", 40);
    ("high", 0) ].

(** [riskLevelScores[maxRiskLevel] || 55] for a tolerance that is no
    inherited name. *)
Definition minScoreFor (maxRiskLevel : string) : Z :=
  JS.orDefault (lookup maxRiskLevel riskLevelScores) 55.

(** [minScore] as the filter compares with it: under an inherited name the
    table answers with a member of [Object.prototype], which is truthy and no
    number ([None]). *)
Definition floorOf (maxRiskLevel : string) : option Z :=
  if JS.inherited maxRiskLevel then None else Some (minScoreFor maxRiskLevel).

(** [vault.risk_score >= minScore]: false whenever [minScore] is no
    number. *)
Definition reaches (minScore : option Z) (v : ScoredVault) : bool :=
  match minScore with
  | Some floor => JS.geNum (risk_score (vault v)) floor
  | None => false
  end.

(** [(a, b) => b.risk_score - a.risk_score] *)
Definition bySafety (a b : ScoredVault) : Q :=
  inject_Z (JS.num (risk_score (vault b)) - JS.num (risk_score (vault a))).

(** filterByRiskTolerance.  Every vault is scored against the cache as it is
    when the call starts: the scoring callbacks all reach their cache read
    before any of them stores a result. *)
Definition filterByRiskTolerance (cache : RiskCache) (vaults : list Vault)
    (maxRiskLevel : string) : JS.Promise (list ScoredVault) :=
  let minScore := floorOf maxRiskLevel in
  let enrichedVaults := map (enrich cache) vaults in
  JS.promiseOf
    (JS.sort bySafety (List.filter (reaches minScore) enrichedVaults)).

(** [apy * (riskScore / 100)], the quotient and the product each rounded
    to binary64. *)
Definition getRiskAdjustedAPY (apy : Q) (riskScore : option Z) : Q :=
  let riskMultiplier := JS.double (inject_Z (JS.num riskScore) / 100) in
  JS.double (apy * riskMultiplier).

(** The minimum score of each tolerance as the specification lists it:
    low 85, medium-low 70, medium 55, medium-high 40, high 0. *)
Definition toleranceMinimum (maxRiskLevel : string) : option Z :=
  if String.eqb maxRiskLevel "low" then Some 85
  else if String.eqb maxRiskLevel "medium-low" then Some 70
  else if String.eqb maxRiskLevel "medium" then Some 55
  else if String.eqb maxRiskLevel "medium-high" then Some 40
  else if String.eqb maxRiskLevel "high" then Some 0
  else None.

End RiskScorer.

(** ** I/O traces *)

Module Effects.

(** The external calls the claims speak of.  [RpcRead method address] is one
    call of the collaborator [method] that goes to the chain for the
    contract at [address]: one event for the call, whatever the number of RPC
    requests the call makes. *)
Inductive IOEvent :=
| FetchDefiLlama                                   (* provider fetch *)
| FetchVaultsFyi                                   (* provider fetch *)
| DbSave (vault_address : string)                  (* database write *)
| RpcRead (method : string) (vault_address : string). (* call to the chain *)

(** An effectful call: the I/O it performed and how it ended. *)
Definition IO (A : Type) : Type := list IOEvent * JS.Outcome A.

Definition ret {A} (a : A) : IO A := ([], JS.Returned a).

Definition throw {A} (e : JS.Exception) : IO A := ([], JS.Thrown e).

Definition emit (e : IOEvent) : IO unit := ([e], JS.Returned tt).

Definition bind {A B} (m : IO A) (k : A -> IO B) : IO B :=
  match m with
  | (t, JS.Returned a) => let (t', r) := k a in ((t ++ t')%list, r)
  | (t, JS.Thrown e) => (t, JS.Thrown e)
  end.

Definition trace {A} (m : IO A) : list IOEvent := fst m.

Definition outcome {A} (m : IO A) : JS.Outcome A := snd m.

(** [v.map(f)]: [map] is not a property of a promise, there the call
    throws. *)
Definition mapOf {A B} (variable : string) (v : JS.ArrayOrPromise A)
    (f : A -> B) : IO (list B) :=
  match v with
  | JS.anArray l => ret (map f l)
  | JS.aPromise _ => throw (JS.TypeError (variable ++ ".map is not a function"))
  end.

End Effects.

Notation "x <- m ;; k" := (Effects.bind m (fun x => k))
  (at level 100, m at next level, right associativity).

(** ** Resolver: ranking (external-adapter.js) *)

Module Resolver.

Import RiskScorer.

(** [{ ...vault, risk_adjusted_apy }] *)
Record Candidate := mkCandidate {
  scored : ScoredVault;
  risk_adjusted_apy : Q
}.

Definition withRiskAdjustedAPY (v : ScoredVault) : Candidate :=
  mkCandidate v (getRiskAdjustedAPY (apy (vault v)) (risk_score (vault v))).

(** [c.validation_score || 0] *)
Definition confidence (c : Candidate) : Z :=
  JS.orDefault (validation_score (vault (scored c))) 0.

(** The comparator of getBestVault.  The difference of two binary64
    numbers is rounded, but it has the sign of the exact difference, and the
    sort reads nothing but the sign. *)
Definition compareBest (a b : Candidate) : Q :=
  let confidenceA := confidence a in
  let confidenceB := confidence b in
  if 20 <? Z.abs (confidenceA - confidenceB)
  then inject_Z (confidenceB - confidenceA)
  else (risk_adjusted_apy b - risk_adjusted_apy a)%Q.

(** [(a, b) => b.risk_adjusted_apy - a.risk_adjusted_apy] *)
Definition byRiskAdjustedAPY (a b : Candidate) : Q :=
  (risk_adjusted_apy b - risk_adjusted_apy a)%Q.

(** [safeVaults.map(...).sort(...)] of getBestVault on the array of vaults
    that passed the risk filter; its head is the best vault. *)
Definition rankBest (safeVaults : list ScoredVault) : list Candidate :=
  JS.sort compareBest (map withRiskAdjustedAPY safeVaults).

(** The two-tier rule of the specification: [beats a b] when the rule puts
    [a] ahead of [b]. *)
Definition beats (a b : Candidate) : Prop :=
  if 20 <? Z.abs (confidence a - confidence b)
  then confidence b < confidence a
  else (risk_adjusted_apy b < risk_adjusted_apy a)%Q.


(** A ranking follows the rule on neighbours: nobody is beaten by the
    candidate right behind. *)
Definition notBeatenBy (a b : Candidate) : Prop := ~ beats b a.

Definition sameAsset (asset : string) (v : Vault) : bool :=
  String.eqb (JS.toUpperCase (asset_symbol v)) (JS.toUpperCase asset).

Definition onChain (chainName : string) (v : Vault) : bool :=
  String.eqb (JS.toLowerCase (chain v)) (JS.toLowerCase chainName).

(** [if (chain) filteredVaults = filteredVaults.filter(...)] *)
Definition filterChain (chainName : option string) (vaults : list Vault)
  : list Vault :=
  match chainName with
  | Some c => if String.eqb c "" then vaults else List.filter (onChain c) vaults
  | None => vaults
  end.

End Resolver.

(** ** Chainlink external adapter (external-adapter.js) *)

Module Adapter.

Import RiskScorer Resolver Effects.

(** What the collaborators deliver during one request.  A failed provider
    fetch is an empty list. *)
Record World := mkWorld {
  defiLlamaVaults : list Vault;
  vaultsFyiVaults : list Vault;
  riskCache : RiskCache
}.

(** collectFromAllSources with its two provider fetches. *)
Definition collectFromAllSources (w : World) : IO (list Vault) :=
  _ <- emit FetchDefiLlama ;;
  _ <- emit FetchVaultsFyi ;;
  ret (Reconciler.records
         (Reconciler.collectFromAllSources (defiLlamaVaults w) (vaultsFyiVaults w))).

Record BestVault := mkBestVault {
  bv_vault_address : string;
  bv_apy : Q;
  bv_risk_adjusted_apy : Q;
  bv_risk_score : option Z;
  bv_risk_category : RiskCategory;
  bv_tvl_usd : Z;
  bv_protocol : string;
  bv_chain : string;
  bv_name : string;
  bv_value : Q
}.

Definition bestVaultOf (bestVault : Candidate) : BestVault :=
  let v := vault (scored bestVault) in
  mkBestVault (vault_address v) (apy v) (risk_adjusted_apy bestVault)
    (risk_score v) (risk_category (scored bestVault)) (tvl_usd v)
    (protocol v) (chain v) (name v) (JS.double (apy v * 100)).

(** [safeVaults.map(...).sort(...)] of getBestVault: the ranking step. *)
Definition ranking (safeVaults : JS.ArrayOrPromise ScoredVault)
  : IO (list Candidate) :=
  candidates <- mapOf "safeVaults" safeVaults withRiskAdjustedAPY ;;
  ret (JS.sort compareBest candidates).

(** getBestVault with on-chain validation switched off
    (ENABLE_ONCHAIN_VALIDATION unset).  [safeVaults] holds the promise
    returned by filterByRiskTolerance: the source does not await it. *)
Definition getBestVault (w : World) (asset riskLevel : string)
    (chainName : option string) : IO BestVault :=
  vaults <- collectFromAllSources w ;;
  let filteredVaults := List.filter (sameAsset asset) vaults in
  let filteredVaults := filterChain chainName filteredVaults in
  let safeVaults :=
    JS.aPromise (filterByRiskTolerance (riskCache w) filteredVaults riskLevel) in
  match JS.lengthOf safeVaults with
  | Some 0 =>
      throw (JS.Error ("No vaults found for " ++ asset ++ " with " ++ riskLevel
                       ++ " risk level"))
  | _ =>
      ranked <- ranking safeVaults ;;
      match ranked with
      | [] => throw (JS.TypeError "Cannot read properties of undefined")
      | bestVault :: _ =>
          _ <- emit (DbSave (vault_address (vault (scored bestVault)))) ;;
          ret (bestVaultOf bestVault)
      end
  end.

Record VaultView := mkVaultView {
  vv_vault_address : string;
  vv_apy : Q;
  vv_risk_adjusted_apy : Q;
  vv_risk_score : option Z;
  vv_tvl_usd : Z;
  vv_protocol : string;
  vv_chain : string;
  vv_name : string;
  vv_data_source : string
}.

Definition viewOf (c : Candidate) : VaultView :=
  let v := vault (scored c) in
  mkVaultView (vault_address v) (apy v) (risk_adjusted_apy c) (risk_score v)
    (tvl_usd v) (protocol v) (chain v) (name v) (data_source v).

Record TopVaults := mkTopVaults {
  tv_vaults : list VaultView;
  tv_count : nat
}.

(** getTopVaults; as in getBestVault the promise is not awaited. *)
Definition getTopVaults (w : World) (asset riskLevel : string)
    (chainName : option string) (limit minTvl : Z) : IO TopVaults :=
  vaults <- collectFromAllSources w ;;
  let filteredVaults := List.filter (sameAsset asset) vaults in
  let filteredVaults := filterChain chainName filteredVaults in
  let filteredVaults :=
    if 0 <? minTvl then List.filter (fun v => minTvl <=? tvl_usd v) filteredVaults
    else filteredVaults in
  let safeVaults :=
    JS.aPromise (filterByRiskTolerance (riskCache w) filteredVaults riskLevel) in
  candidates <- mapOf "safeVaults" safeVaults withRiskAdjustedAPY ;;
  let topVaults := JS.slice0 limit (JS.sort byRiskAdjustedAPY candidates) in
  ret (mkTopVaults (map viewOf topVaults) (length topVaults)).

(** The request types of handleChainlinkRequest followed here. *)
Inductive RequestType := best_vault | top_vaults.

(** The [data] object of a Chainlink request; an absent field is [None]. *)
Record RequestData := mkRequestData {
  rd_asset : option string;
  rd_risk_level : option string;
  rd_chain : option string;
  rd_request_type : RequestType;
  rd_limit : option Z;
  rd_min_tvl : option Z
}.

Inductive Result :=
| BestVaultResult (r : BestVault)
| TopVaultsResult (r : TopVaults).

Definition orElse (x : option string) (d : string) : string :=
  match x with
  | Some s => s
  | None => d
  end.

Definition handleChainlinkRequest (w : World) (data : RequestData) : IO Result :=
  let asset := orElse (rd_asset data) "USDC" in
  let risk_level := orElse (rd_risk_level data) "medium" in
  match rd_request_type data with
  | best_vault =>
      r <- getBestVault w asset risk_level (rd_chain data) ;;
      ret (BestVaultResult r)
  | top_vaults =>
      let limit := JS.orDefault (rd_limit data) 10 in
      let minTvl := JS.orDefault (rd_min_tvl data) 0 in
      r <- getTopVaults w asset risk_level (rd_chain data) limit minTvl ;;
      ret (TopVaultsResult r)
  end.

(** An HTTP response: status code and JSON body. *)
Inductive Body :=
| ResultBody (r : Result)
| ErrorBody (error : string).

Record Response := mkResponse {
  status : Z;
  body : Body
}.

(** [POST /]: the Chainlink endpoint. *)
Definition chainlinkRoute (w : World) (data : RequestData)
  : list IOEvent * Response :=
  match handleChainlinkRequest w data with
  | (t, JS.Returned result) => (t, mkResponse 200 (ResultBody result))
  | (t, JS.Thrown error) => (t, mkResponse 500 (ErrorBody (JS.message error)))
  end.

(** [GET /best-vault/:asset/:riskLevel?] *)
Definition bestVaultRoute (w : World) (asset : string) (riskLevel : option string)
  : list IOEvent * Response :=
  match getBestVault w asset (orElse riskLevel "medium") None with
  | (t, JS.Returned result) =>
      (t, mkResponse 200 (ResultBody (BestVaultResult result)))
  | (t, JS.Thrown error) => (t, mkResponse 500 (ErrorBody (JS.message error)))
  end.

End Adapter.

(** ** Yield calculator (enhanced-vault-collector.js) *)

Module YieldCalculator.

Import Effects.

Definition isEthereumAddress (address : string) : bool :=
  negb (String.eqb address "")
  && JS.startsWith "0x" address
  && (String.length address =? 42)%nat.

(** The object returned by getProtocolEstimationForUUID. *)
Record Estimation := mkEstimation {
  e_vault_address : string;
  e_chain : string;
  e_protocol : string;
  calculated_apy : Q;
  apy_calculation_method : string;
  confidence_score : Q;
  estimation_type : string;
  protocol_category : string;
  is_estimation : bool
}.

(** getProtocolEstimationForUUID; [random] is the value of [Math.random()]. *)
Definition getProtocolEstimationForUUID (random : Q) (uuid chainName protocol : string)
  : Estimation :=
  let protocolLower := JS.toLowerCase protocol in
  let '(estimatedAPY, confidence, method) :=
    if JS.includes "aave" protocolLower
    then ((2 # 100) + random * (3 # 100), 6 # 10, "aave_typical_range")%Q
    else if JS.includes "compound" protocolLower
    then ((15 # 1000) + random * (25 # 1000), 6 # 10, "compound_typical_range")%Q
    else if JS.includes "morpho" protocolLower
    then ((25 # 1000) + random * (4 # 100), 5 # 10, "morpho_typical_range")%Q
    else if JS.includes "yearn" protocolLower
    then ((3 # 100) + random * (5 # 100), 4 # 10, "yearn_typical_range")%Q
    else (4 # 100, 3 # 10, "protocol_estimation")%Q in
  mkEstimation uuid chainName protocol estimatedAPY method confidence
    "uuid_protocol_based" protocolLower true.

(** What the on-chain collaborators return. *)
Record BasicData := mkBasicData {
  bd_name : string;
  bd_symbol : string;
  bd_total_assets : Z
}.

Record YieldEstimate := mkYieldEstimate {
  ye_calculated_apy : Q;
  ye_method : string;
  ye_confidence_score : Q
}.

(** The chain as one request sees it: the chains a provider is configured
    for ([this.providers[chain]]) and what the reads deliver. *)
Record Chain := mkChain {
  providers : string -> bool;
  vaultOnChainData : string -> string -> string -> option BasicData;
  protocolAPY : string -> string -> string -> option YieldEstimate;
  historicalAPY : string -> string -> string -> Z -> option YieldEstimate
}.

(** getVaultOnChainData (vault-onchain-collector.js): a missing provider or
    an address of the wrong shape ends the call before any read; every
    failure is returned as [null].  (For the protocol [yearn] the reads of a
    contract can end the process instead, see
    [OnChainValidation.takesYearnPath].) *)
Definition getVaultOnChainData (c : Chain) (vaultAddress chainName protocol : string)
  : IO (option BasicData) :=
  if negb (providers c chainName) then ret None
  else if String.eqb vaultAddress ""
          || negb (JS.startsWith "0x" vaultAddress)
          || negb (String.length vaultAddress =? 42)%nat
  then ret None
  else
    _ <- emit (RpcRead "getVaultOnChainData" vaultAddress) ;;
    ret (vaultOnChainData c vaultAddress chainName protocol).

(** calculateProtocolAPY (protocol-apy-calculators.js): the calculator of
    the protocol family reads the contract at the vault address, in several
    requests; the call is one event of the trace. *)
Definition calculateProtocolAPY (c : Chain) (vaultAddress protocol chainName : string)
  : IO (option YieldEstimate) :=
  _ <- emit (RpcRead "calculateProtocolAPY" vaultAddress) ;;
  ret (protocolAPY c vaultAddress protocol chainName).

(** calculateHistoricalAPY: with a provider, the current block number is
    read first, then the share prices now and [daysBack] days ago; without
    one the call fails before any read.  The requests of one call are one
    event of the trace. *)
Definition calculateHistoricalAPY (c : Chain) (vaultAddress chainName protocol : string)
    (daysBack : Z) : IO (option YieldEstimate) :=
  if negb (providers c chainName) then ret None
  else
    _ <- emit (RpcRead "calculateHistoricalAPY" vaultAddress) ;;
    ret (historicalAPY c vaultAddress chainName protocol daysBack).

(** getProtocolAPY: without a provider [null], otherwise the protocol
    calculator. *)
Definition getProtocolAPY (c : Chain) (vaultAddress protocol chainName : string)
  : IO (option YieldEstimate) :=
  if negb (providers c chainName) then ret None
  else calculateProtocolAPY c vaultAddress protocol chainName.

Inductive EnhancedData :=
| EstimationData (e : Estimation)
| OnChainData (basicData : BasicData) (apyData : option YieldEstimate).

Definition getVaultDataWithCalculatedAPY (c : Chain) (random : Q)
    (vaultAddress chainName protocol : string) : IO (option EnhancedData) :=
  if negb (isEthereumAddress vaultAddress)
  then ret (Some (EstimationData
                    (getProtocolEstimationForUUID random vaultAddress chainName protocol)))
  else
    basicData <- getVaultOnChainData c vaultAddress chainName protocol ;;
    match basicData with
    | None => ret None
    | Some basicData =>
        apyData <- calculateProtocolAPY c vaultAddress protocol chainName ;;
        ret (Some (OnChainData basicData apyData))
    end.

Inductive SmartAPY :=
| SmartEstimation (e : Estimation)
| SmartMeasured (y : YieldEstimate).

Definition getSmartCalculatedAPY (c : Chain) (random : Q)
    (vaultAddress chainName protocol : string) : IO (option SmartAPY) :=
  let protocolLower := JS.toLowerCase protocol in
  if negb (isEthereumAddress vaultAddress)
  then ret (Some (SmartEstimation
                    (getProtocolEstimationForUUID random vaultAddress chainName protocol)))
  else
    early <-
      (if JS.includes "aave" protocolLower || JS.includes "compound" protocolLower
       then
         protocolAPY <- getProtocolAPY c vaultAddress protocol chainName ;;
         match protocolAPY with
         | Some y =>
             if Qle_bool (ye_confidence_score y) (8 # 10) then ret None
             else ret (Some y)
         | None => ret None
         end
       else ret None) ;;
    match early with
    | Some y => ret (Some (SmartMeasured y))
    | None =>
        historicalAPY <- calculateHistoricalAPY c vaultAddress chainName protocol 7 ;;
        match historicalAPY with
        | Some y => ret (Some (SmartMeasured y))
        | None =>
            fallback <- getProtocolAPY c vaultAddress protocol chainName ;;
            ret (option_map SmartMeasured fallback)
        end
    end.

(** [{ method, apy, confidence }] *)
Record Method := mkMethod {
  m_method : string;
  m_apy : Q;
  m_confidence : Q
}.

Record Comprehensive := mkComprehensive {
  c_basicData : BasicData;
  c_calculated_apy : option Q;
  c_confidence_score : Q;
  c_calculation_methods : list Method;
  c_protocol_apy : option YieldEstimate;
  c_weekly_apy : option YieldEstimate;
  c_monthly_apy : option YieldEstimate
}.

(** One of the three [if (estimate) { ... }] blocks of
    getComprehensiveVaultAnalysis. *)
Definition consider (estimate : option YieldEstimate)
    (acc : list Method * option Q * Q) : list Method * option Q * Q :=
  let '(apyMethods, bestAPY, highestConfidence) := acc in
  match estimate with
  | None => acc
  | Some y =>
      let apyMethods :=
        (apyMethods
         ++ [mkMethod (ye_method y) (ye_calculated_apy y) (ye_confidence_score y)])%list in
      if Qle_bool (ye_confidence_score y) highestConfidence
      then (apyMethods, bestAPY, highestConfidence)
      else (apyMethods, Some (ye_calculated_apy y), ye_confidence_score y)
  end.

(** getComprehensiveVaultAnalysis: the four calls are started in this order
    and all settle before the results are combined. *)
Definition getComprehensiveVaultAnalysis (c : Chain)
    (vaultAddress chainName protocol : string) : IO (option Comprehensive) :=
  basicData <- getVaultOnChainData c vaultAddress chainName protocol ;;
  protocolAPY <- getProtocolAPY c vaultAddress protocol chainName ;;
  weeklyAPY <- calculateHistoricalAPY c vaultAddress chainName protocol 7 ;;
  monthlyAPY <- calculateHistoricalAPY c vaultAddress chainName protocol 30 ;;
  match basicData with
  | None => ret None
  | Some basicData =>
      let '(apyMethods, bestAPY, highestConfidence) :=
        consider monthlyAPY (consider weeklyAPY (consider protocolAPY ([], None, 0%Q))) in
      ret (Some (mkComprehensive basicData bestAPY highestConfidence apyMethods
                   protocolAPY weeklyAPY monthlyAPY))
  end.

End YieldCalculator.

(** ** Result cache (cache-manager.js), memory mode

    The event loop around getOrSetWithDeduplication, for a cache manager
    without Redis.  A call runs up to its first [await] when it is made; the
    rest of it waits in the microtask queue; the upstream function completes
    in a later turn of the loop. *)

Module CacheManager.

Section Dedup.

(** The (truthy) values the cache stores. *)
Context {V : Type}.

Definition PromiseId := nat.

(** How an upstream call ends; [Fulfilled None] is a falsy result. *)
Inductive Settlement :=
| Fulfilled (result : option V)
| Rejected (error : string).

(** What a caller of getOrSetWithDeduplication is handed. *)
Inductive Handle :=
| CachedValue (v : V)
| InFlight (p : PromiseId).

(** A call suspended at [await this.getVaultData(key)], with the value the
    read delivers when the call resumes. *)
Record Suspended := mkSuspended {
  caller : nat;
  key : string;
  ttlSeconds : Z;
  cached : option V
}.

(** An upstream call that has started and not yet settled. *)
Record Upstream := mkUpstream {
  promise : PromiseId;
  forKey : string;
  ttl : Z
}.

Record State := mkState {
  memoryCache : gmap string V;
  memoryTTL : gmap string Z;
  requestCache : gmap string PromiseId;   (* the in-flight table *)
  now : Z;                                (* Date.now() *)
  microtasks : list Suspended;
  pending : list Upstream;
  upstreamCalls : nat;                    (* invocations of asyncFunction *)
  handles : list (nat * Handle);
  settled : list (PromiseId * Settlement)
}.

(** getVaultData: the stored value while its TTL lies in the future. *)
Definition getVaultData (st : State) (k : string) : option V :=
  match memoryCache st !! ("vault:" ++ k) with
  | Some v =>
      match memoryTTL st !! ("vault:" ++ k) with
      | Some expiry => if now st <? expiry then Some v else None
      | None => None
      end
  | None => None
  end.

Definition expired (st : State) (k : string) : bool :=
  match memoryTTL st !! k with
  | Some expiry => expiry <=? now st
  | None => false
  end.

(** cleanupMemoryCache *)
Definition cleanupMemoryCache (st : State) : State :=
  mkState
    (filter (fun kv : string * V => expired st kv.1 = false) (memoryCache st))
    (filter (fun kv : string * Z => now st < kv.2) (memoryTTL st))
    (requestCache st) (now st) (microtasks st) (pending st)
    (upstreamCalls st) (handles st) (settled st).

(** setVaultData *)
Definition setVaultData (st : State) (k : string) (data : V) (ttlSec : Z) : State :=
  cleanupMemoryCache
    (mkState
       (<["vault:" ++ k := data]> (memoryCache st))
       (<["vault:" ++ k := now st + ttlSec * 1000]> (memoryTTL st))
       (requestCache st) (now st) (microtasks st) (pending st)
       (upstreamCalls st) (handles st) (settled st)).

Definition hand (st : State) (c : nat) (h : Handle) : State :=
  mkState (memoryCache st) (memoryTTL st) (requestCache st) (now st)
    (microtasks st) (pending st) (upstreamCalls st)
    (handles st ++ [(c, h)]) (settled st).

(** getOrSetWithDeduplication up to its [await]: the in-flight table is
    consulted, then the cache read is started and the call suspends. *)
Definition call (st : State) (request : nat * string * Z) : State :=
  let '(c, k, ttlSec) := request in
  let cacheKey := "dedup:" ++ k in
  match requestCache st !! cacheKey with
  | Some p => hand st c (InFlight p)
  | None =>
      mkState (memoryCache st) (memoryTTL st) (requestCache st) (now st)
        (microtasks st ++ [mkSuspended c k ttlSec (getVaultData st k)])
        (pending st) (upstreamCalls st) (handles st) (settled st)
  end.

(** getOrSetWithDeduplication after its [await]: a cached value is returned,
    otherwise asyncFunction is called and its promise stored in the
    in-flight table. *)
Definition resume (st : State) (s : Suspended) : State :=
  match cached s with
  | Some v => hand st (caller s) (CachedValue v)
  | None =>
      let p := upstreamCalls st in
      mkState (memoryCache st) (memoryTTL st)
        (<["dedup:" ++ key s := p]> (requestCache st)) (now st)
        (microtasks st)
        (pending st ++ [mkUpstream p (key s) (ttlSeconds s)])
        (S (upstreamCalls st))
        (handles st ++ [(caller s, InFlight p)]) (settled st)
  end.

(** The [then]/[catch] callbacks run when the upstream call [u] settles. *)
Definition settle (st : State) (u : Upstream) (r : Settlement) : State :=
  let st :=
    match r with
    | Fulfilled (Some result) => setVaultData st (forKey u) result (ttl u)
    | _ => st
    end in
  mkState (memoryCache st) (memoryTTL st)
    (delete ("dedup:" ++ forKey u) (requestCache st)) (now st)
    (microtasks st)
    (List.filter (fun u' => negb (promise u' =? promise u)%nat) (pending st))
    (upstreamCalls st) (handles st) (settled st ++ [(promise u, r)]).

(** The microtask queue is run to its end. *)
Definition drain (st : State) : State :=
  fold_left resume (microtasks st)
    (mkState (memoryCache st) (memoryTTL st) (requestCache st) (now st)
       [] (pending st) (upstreamCalls st) (handles st) (settled st)).

(** Requests made in one turn of the event loop: every call runs to its
    [await], then the microtasks run. *)
Definition burst (st : State) (requests : list (nat * string * Z)) : State :=
  drain (fold_left call requests st).

(** Requests made in turns of their own: each call resumes before the next
    one is made. *)
Definition oneByOne (st : State) (requests : list (nat * string * Z)) : State :=
  fold_left (fun st r => drain (call st r)) requests st.

(** An empty cache with nothing in flight. *)
Definition cold (t : Z) : State :=
  mkState ∅ ∅ ∅ t [] [] 0 [] [].

(** [n] callers asking for the same key. *)
Definition sameKey (n : nat) (k : string) (ttlSec : Z) : list (nat * string * Z) :=
  map (fun c => (c, k, ttlSec)) (seq 0 n).

End Dedup.

Arguments State V : clear implicits.
Arguments Settlement V : clear implicits.
Arguments Handle V : clear implicits.

End CacheManager.

(** ** Example records *)

Module Examples.

Definition usdcVault : string := "0xa0b86991c6218b36c1d19d4a2e9eb0ce3606eb48".

(** The same vault as two providers report it. *)
Definition fromDefiLlama : Vault :=
  mkVault usdcVault "ethereum" "aave-v3" "aave-v3 USDC" "USDC"
    (4 # 1) 200 "defillama" None None.

Definition fromVaultsFyi : Vault :=
  mkVault usdcVault "ethereum" "aave" "Aave USDC" "USDC"
    (4 # 1) 100 "vaultsfyi" (Some 80) None.

(** The same vault with another casing of address and chain. *)
Definition upperCased : Vault :=
  mkVault "0xA0B86991C6218B36C1D19D4A2E9EB0CE3606EB48" "Ethereum" "aave-v3"
    "aave-v3 USDC" "USDC" (4 # 1) 200 "defillama" None None.

(** A vault on another chain. *)
Definition onBase : Vault :=
  mkVault "0xb125e6687d4313864e53df431d5425969c15eb2f" "base" "compound-v3"
    "compound-v3 USDC" "USDC" (4 # 1) 50000000 "vaultsfyi" None None.

(** Three vaults that pass the medium risk filter with the same risk score
    (96); they differ in validation score and in yield. *)
Definition validated (address : string) (apyPercent : Q) (validation : Z) : Vault :=
  mkVault address "ethereum" "aave-v3" "Aave v3 USDC" "USDC"
    apyPercent 500000000 "onchain" None (Some validation).

Definition confident : Vault :=
  validated "0x98c23e9d8f34fefb1b7bd6a91b7ff122f4e16f5c" (2 # 1) 90.

Definition lucrative : Vault :=
  validated "0xbcca60bb61934080951369a648fb03df4f96263c" (4 # 1) 65.

Definition middling : Vault :=
  validated "0x7b2a3cf972c3193f26cdec6217d27379b6417bd0" (3 # 1) 75.

Definition threeVaults : list Vault := [confident; lucrative; middling].

Definition candidateOf (v : Vault) : Resolver.Candidate :=
  Resolver.withRiskAdjustedAPY (RiskScorer.enrich ∅ v).

(** A small pool of an unknown protocol: risk score 43. *)
Definition riskyVault : Vault :=
  mkVault "0x1111111111111111111111111111111111111111" "bsc" "unknown-farm"
    "Unknown Farm USDC" "USDC" (150 # 1) 20000 "other" None None.

(** A DefiLlama pool identifier. *)
Definition poolId : string := "747c1d2a-c668-4682-b9f9-296708a3dd90".

(** Providers for every chain, and every read failing. *)
Definition silentChain : YieldCalculator.Chain :=
  YieldCalculator.mkChain (fun _ => true) (fun _ _ _ => None) (fun _ _ _ => None)
    (fun _ _ _ _ => None).

(** Providers that report the three vaults above, and a Chainlink request
    for the top 51 vaults. *)
Definition threeVaultWorld : Adapter.World :=
  Adapter.mkWorld threeVaults [] ∅.

Definition fiftyOne : Adapter.RequestData :=
  Adapter.mkRequestData None None None Adapter.top_vaults (Some 51) None.

(** Binary64 numbers to try [JS.double] on: yields, scores and multipliers,
    and two numbers whose product is subnormal. *)
Definition binary64Samples : list float :=
  [ 0.1; 0.2; 0.3; 5; 6; 96; 80; 100; 0.96; 0.8; 3.14159; 2.5; 123456789.125;
    0.5; 1.5; 7; 43; 4.2; 13; 0.03; 0.04; 1e-160; 3e-162;
    9007199254740993 ]%float.

End Examples.

(** ** String similarity (external-adapter.js, levenshteinDistance) *)

Module Similarity.

(** [matrix[0][j] = j] for [j] from 0 to [str1.length]. *)
Definition firstRow (str1 : list ascii) : list nat := seq 0 (S (length str1)).

(** The inner loop for one row: [above] is what is left of the row above,
    from column [j - 1] on, and [left] is the cell just filled. *)
Fixpoint fillRow (c2 : ascii) (str1 : list ascii) (above : list nat) (left : nat)
  : list nat :=
  match str1, above with
  | c1 :: rest, diag :: ((up :: _) as above') =>
      let cell :=
        if Ascii.eqb c2 c1 then diag
        else Nat.min (Nat.min (diag + 1) (left + 1)) (up + 1) in
      cell :: fillRow c2 rest above' cell
  | _, _ => []
  end.

(** The outer loop: row [i] starts with [matrix[i][0] = i]. *)
Fixpoint fillRows (str2 str1 : list ascii) (i : nat) (above : list nat)
  : list (list nat) :=
  match str2 with
  | [] => []
  | c2 :: rest =>
      let row := i :: fillRow c2 str1 above i in
      row :: fillRows rest str1 (S i) row
  end.

Definition matrix (str1 str2 : list ascii) : list (list nat) :=
  firstRow str1 :: fillRows str2 str1 1 (firstRow str1).

(** [matrix[str2.length][str1.length]] *)
Definition levenshteinDistance (str1 str2 : string) : nat :=
  let s1 := list_ascii_of_string str1 in
  let s2 := list_ascii_of_string str2 in
  nth (length s1) (nth (length s2) (matrix s1 s2) []) 0%nat.

Definition calculateStringSimilarity (str1 str2 : string) : Q :=
  let longer := if (String.length str2 <? String.length str1)%nat then str1 else str2 in
  let shorter := if (String.length str2 <? String.length str1)%nat then str2 else str1 in
  if (String.length longer =? 0)%nat then 1%Q
  else
    let editDistance := levenshteinDistance longer shorter in
    (inject_Z (Z.of_nat (String.length longer) - Z.of_nat editDistance)
     / inject_Z (Z.of_nat (String.length longer)))%Q.

(** The edit distance by recursion on the two texts, last character first:
    the value of the cell whose row stands for [a] and whose column stands
    for [b]. *)
Fixpoint cellOf (a : list ascii) : list ascii -> nat :=
  fix inner (b : list ascii) : nat :=
    match a, b with
    | [], _ => length b
    | _, [] => length a
    | x :: a', y :: b' =>
        if Ascii.eqb x y then cellOf a' b'
        else Nat.min (Nat.min (cellOf a' b' + 1) (inner b' + 1)) (cellOf a' b + 1)
    end.

(** The reversed prefixes of [rest] that extend the reversed prefix [pre]. *)
Fixpoint prefixesFrom (pre rest : list ascii) : list (list ascii) :=
  match rest with
  | [] => []
  | c :: r => (c :: pre) :: prefixesFrom (c :: pre) r
  end.

End Similarity.

(** ** The range of the risk score *)

Module RiskRange.

Import RiskScorer.

(** The weighted score of calculateRiskScore as a function of the five
    sub-scores. *)
Definition weigh (protocolScore tvlScore apyScore : Z) (chainScore : float)
    (sourceScore : Z) : Z :=
  let score := 0%float in
  let maxScore := 0%float in
  let score := (score + toFloat protocolScore * 0.4)%float in
  let maxScore := (maxScore + 100 * 0.4)%float in
  let score := (score + toFloat tvlScore * 0.25)%float in
  let maxScore := (maxScore + 100 * 0.25)%float in
  let score := (score + toFloat apyScore * 0.2)%float in
  let maxScore := (maxScore + 100 * 0.2)%float in
  let score := (score + chainScore * 0.1)%float in
  let maxScore := (maxScore + 100 * 0.1)%float in
  let score := (score + toFloat sourceScore * 0.05)%float in
  let maxScore := (maxScore + 100 * 0.05)%float in
  Math_round ((score / maxScore) * 100)%float.

(** The values the sub-scores take. *)
Definition protocolValues : list Z :=
  [30; 45; 50; 65; 68; 72; 75; 78; 82; 83; 85; 87; 88; 89; 90; 92; 94; 95].

Definition tvlValues : list Z := [20; 30; 45; 55; 65; 75; 85; 90; 95].

Definition apyValues : list Z := [10; 20; 25; 40; 60; 80; 90; 95].

Definition chainValues : list float :=
  [50; 70; 80; 85; 90; 95; 100]%float.

Definition sourceValues : list Z := [70; 85; 90; 95].

(** The scores of the vaults that differ in their TVL sub-score only, by
    ascending TVL sub-score. *)
Definition column (p a : Z) (c : float) (s : Z) : list Z :=
  map (fun t => weigh p t a c s) tvlValues.

Fixpoint ascending (l : list Z) : bool :=
  match l with
  | x :: ((y :: _) as r) => (x <=? y) && ascending r
  | _ => true
  end.

(** [check] holds of the column of every combination of the other
    sub-scores. *)
Definition everywhere (check : list Z -> bool) : bool :=
  forallb (fun p =>
    forallb (fun a =>
      forallb (fun c =>
        forallb (fun s => check (column p a c s)) sourceValues)
        chainValues)
      apyValues)
    protocolValues.

(** [{ ...vault, tvl_usd }] *)
Definition with_tvl_usd (tvl : Z) (v : Vault) : Vault :=
  mkVault (vault_address v) (chain v) (protocol v) (name v) (asset_symbol v)
    (apy v) tvl (data_source v) (risk_score v) (validation_score v).

End RiskRange.

(** ** Provenance of merged records *)

Module Provenance.

Import Reconciler.

(** A merged record carries the tag of the stream it was taken from. *)
Definition fromStream (defiLlamaVaults vaultsFyiVaults : list Vault) (t : Tagged)
  : Prop :=
  (source_priority t = "defillama" /\ In (record t) defiLlamaVaults)
  \/ (source_priority t = "vaultsfyi" /\ In (record t) vaultsFyiVaults).

(** The keys of the records of a merged output. *)
Definition keysOf (out : list Tagged) : list string :=
  map (fun t => key (record t)) out.

(** No Vaults.fyi report of the identity of [t] has a greater TVL than [t]. *)
Definition notBelow (reports : list Vault) (t : Tagged) : Prop :=
  forall v, In v reports -> key v = key (record t) ->
    tvl_usd v <= tvl_usd (record t).

(** A loop body that stores the record under its key, tagged [vaultsfyi],
    or leaves the map as it is for a key already there. *)
Definition storesOrSkips (step : VaultMap -> Vault -> VaultMap) : Prop :=
  forall m v,
    step m v = map_set (key v) (mkTagged v "vaultsfyi") m
    \/ (step m v = m /\ map_get (key v) m <> None).

End Provenance.

(** ** Result cache (cache-manager.js), memory mode: the other operations *)

Module CacheOps.

Import CacheManager.

Section Ops.

Context {V : Type}.

(** The clock moves on to [t]. *)
Definition advance (t : Z) (st : State V) : State V :=
  mkState (memoryCache st) (memoryTTL st) (requestCache st) t
    (microtasks st) (pending st) (upstreamCalls st) (handles st) (settled st).

(** A read of the two maps under the full key [k] at time [t]: the stored
    value while its TTL lies in the future. *)
Definition readAt (cache : gmap string V) (ttls : gmap string Z) (t : Z)
    (k : string) : option V :=
  match cache !! k with
  | Some v =>
      match ttls !! k with
      | Some expiry => if t <? expiry then Some v else None
      | None => None
      end
  | None => None
  end.

(** getRiskScore *)
Definition getRiskScore (st : State V) (vaultKey : string) : option V :=
  readAt (memoryCache st) (memoryTTL st) (now st) ("risk:" ++ vaultKey).

(** setRiskScore: unlike setVaultData it does not clean up. *)
Definition setRiskScore (st : State V) (vaultKey : string) (riskData : V)
    (ttlSec : Z) : State V :=
  mkState
    (<["risk:" ++ vaultKey := riskData]> (memoryCache st))
    (<["risk:" ++ vaultKey := now st + ttlSec * 1000]> (memoryTTL st))
    (requestCache st) (now st) (microtasks st) (pending st)
    (upstreamCalls st) (handles st) (settled st).

(** setBatch: every pair is stored with the same expiry. *)
Definition setBatch (st : State V) (keyValuePairs : list (string * V))
    (ttlSec : Z) : State V :=
  let expiry := now st + ttlSec * 1000 in
  fold_left
    (fun st kv =>
       mkState
         (<["vault:" ++ fst kv := snd kv]> (memoryCache st))
         (<["vault:" ++ fst kv := expiry]> (memoryTTL st))
         (requestCache st) (now st) (microtasks st) (pending st)
         (upstreamCalls st) (handles st) (settled st))
    keyValuePairs st.

(** invalidatePattern: the keys of the value map that contain [pattern] are
    deleted from both maps. *)
Definition invalidatePattern (st : State V) (pattern : string) : State V :=
  mkState
    (filter (fun kv : string * V => JS.includes pattern kv.1 = false)
       (memoryCache st))
    (filter (fun kv : string * Z =>
               ~ (JS.includes pattern kv.1 = true
                  /\ is_Some (memoryCache st !! kv.1)))
       (memoryTTL st))
    (requestCache st) (now st) (microtasks st) (pending st)
    (upstreamCalls st) (handles st) (settled st).

End Ops.

End CacheOps.

(** ** Rate limiting (server.js, setupMiddleware), memory mode *)

Module RateLimiter.

Import CacheManager CacheOps.

(** [{ count, resetTime }] *)
Record RateLimitData := mkRateLimitData {
  count : Z;
  resetTime : Z
}.

Inductive Decision :=
| Next                                  (* next() *)
| TooManyRequests (retryAfter : Z).     (* status 429 *)

Definition windowMs : Z := 60000.

Definition maxRequests : Z := 200.

(** [Math.ceil(x / 1000)] *)
Definition ceilSeconds (x : Z) : Z := - ((- x) / 1000).

(** An object read from the memory cache is the stored object itself: a
    change of its [count] is a change of the cache entry. *)
Definition mutate (st : State RateLimitData) (k : string) (d : RateLimitData)
  : State RateLimitData :=
  mkState (<[k := d]> (memoryCache st)) (memoryTTL st) (requestCache st) (now st)
    (microtasks st) (pending st) (upstreamCalls st) (handles st) (settled st).

(** The rate limiting middleware for a request of [ip] at time [now st]. *)
Definition rateLimit (st : State RateLimitData) (ip : string)
  : State RateLimitData * Decision :=
  let now := now st in
  let key := "rate_limit:" ++ ip in
  let cached := getVaultData st key in
  let rateLimitData :=
    match cached with
    | Some d => d
    | None => mkRateLimitData 0 (now + windowMs)
    end in
  if resetTime rateLimitData <? now
  then (setVaultData st key (mkRateLimitData 1 (now + windowMs)) 60, Next)
  else
    let rateLimitData :=
      mkRateLimitData (count rateLimitData + 1) (resetTime rateLimitData) in
    let st :=
      match cached with
      | Some _ => mutate st ("vault:" ++ key) rateLimitData
      | None => st
      end in
    if maxRequests <? count rateLimitData
    then (st, TooManyRequests (ceilSeconds (resetTime rateLimitData - now)))
    else (setVaultData st key rateLimitData 60, Next).

(** The requests of one address, at the times [ts], in order. *)
Definition serve (ip : string) (acc : State RateLimitData * list Decision) (t : Z)
  : State RateLimitData * list Decision :=
  let (st, d) := rateLimit (advance t (fst acc)) ip in
  (st, (snd acc ++ [d])%list).

Definition requests (ip : string) (st : State RateLimitData) (ts : list Z)
  : list Decision :=
  snd (fold_left (serve ip) ts (st, [])).

Definition passed (d : Decision) : bool :=
  match d with
  | Next => true
  | TooManyRequests _ => false
  end.

(** The entry of [ip] counts [c] requests in the window that started at
    [t1], and lives to the end of the window at least. *)
Definition counting (ip : string) (c t1 : Z) (st : State RateLimitData) : Prop :=
  memoryCache st !! ("vault:rate_limit:" ++ ip)
  = Some (mkRateLimitData c (t1 + windowMs))
  /\ exists expiry : Z,
       memoryTTL st !! ("vault:rate_limit:" ++ ip) = Some expiry
       /\ t1 + windowMs <= expiry.

End RateLimiter.

(** ** Reading the results of the yield calculator *)

Module YieldFacts.

Import YieldCalculator.

(** The estimates that a comprehensive analysis found, in the order in which
    it considers them. *)
Definition available (r : Comprehensive) : list YieldEstimate :=
  omap id [c_protocol_apy r; c_weekly_apy r; c_monthly_apy r].

Definition methodOf (y : YieldEstimate) : Method :=
  mkMethod (ye_method y) (ye_calculated_apy y) (ye_confidence_score y).

(** A chain on which every read succeeds: the protocol rate with confidence
    0.95, the history with confidence 0.8. *)
Definition liveChain : Chain :=
  mkChain (fun _ => true)
    (fun _ _ _ => Some (mkBasicData "Aave Ethereum USDC" "aEthUSDC" 1000000))
    (fun _ _ _ => Some (mkYieldEstimate (4 # 100) "aave_liquidity_rate" (95 # 100)))
    (fun _ _ _ daysBack =>
       Some (mkYieldEstimate (5 # 100)
               (if daysBack =? 7 then "historical_7d" else "historical_30d") (8 # 10))).

Definition aUSDC : string := "0x98c23e9d8f34fefb1b7bd6a91b7ff122f4e16f5c".

End YieldFacts.

(** ** The risk-score cache *)

Module RiskCaching.

Import RiskScorer.

(** Every cached analysis carries the category of its score, as the
    analyses that calculateRiskScore stores do. *)
Definition consistent (cache : RiskCache) : Prop :=
  forall (k : string) (a : RiskAnalysis),
    cache !! k = Some a -> riskCategory a = getRiskCategory (riskScore a).

(** The same vault as [riskyVault] reports it, on another chain and with
    another yield. *)
Definition elsewhere : Vault :=
  mkVault "0x1111111111111111111111111111111111111111" "ethereum" "unknown-farm"
    "Unknown Farm USDC" "USDC" (3 # 1) 20000 "other" None None.

(** The categories a tolerance lets through. *)
Definition admits (maxRiskLevel : string) (category : RiskCategory) : bool :=
  if String.eqb maxRiskLevel "low" then
    match category with low => true | _ => false end
  else if String.eqb maxRiskLevel "medium-low" then
    match category with low | medium_low => true | _ => false end
  else if String.eqb maxRiskLevel "medium-high" then
    match category with high => false | _ => true end
  else
    match category with low | medium_low | medium => true | _ => false end.

End RiskCaching.

(** ** Custom search (external-adapter.js, getCustomVaultSearch) *)

Module Search.

Import RiskScorer Resolver Effects.

(** The [criteria] object; an absent field is [None] and takes the default
    of the destructuring. *)
Record Criteria := mkCriteria {
  cr_asset : option string;
  cr_min_apy : option Q;
  cr_max_apy : option Q;
  cr_min_tvl : option Z;
  cr_max_tvl : option Z;
  cr_risk_min : option Z;
  cr_risk_max : option Z;
  cr_protocols : option (list string);
  cr_chains : option (list string);
  cr_exclude_protocols : option (list string);
  cr_limit : option Z
}.

Definition orElse {A} (x : option A) (d : A) : A :=
  match x with
  | Some a => a
  | None => d
  end.

(** [list.includes(s)] *)
Definition listIncludes (s : string) (l : list string) : bool :=
  existsb (String.eqb s) l.

(** The filter of the first pass. *)
Definition matches (criteria : Criteria) (vault : Vault) : bool :=
  let asset := orElse (cr_asset criteria) "USDC" in
  let min_apy := orElse (cr_min_apy criteria) 0%Q in
  let max_apy := orElse (cr_max_apy criteria) 1000%Q in
  let min_tvl := orElse (cr_min_tvl criteria) 0 in
  let max_tvl := orElse (cr_max_tvl criteria) 10000000000 in
  let protocols := orElse (cr_protocols criteria) [] in
  let chains := orElse (cr_chains criteria) [] in
  let exclude_protocols := orElse (cr_exclude_protocols criteria) [] in
  if negb (sameAsset asset vault) then false
  else if negb (Qle_bool min_apy (apy vault)) || negb (Qle_bool (apy vault) max_apy)
  then false
  else if (tvl_usd vault <? min_tvl) || (max_tvl <? tvl_usd vault) then false
  else if (0 <? length protocols)%nat && negb (listIncludes (protocol vault) protocols)
  then false
  else if (0 <? length exclude_protocols)%nat
          && listIncludes (protocol vault) exclude_protocols
  then false
  else if (0 <? length chains)%nat && negb (listIncludes (chain vault) chains)
  then false
  else true.

(** [promise.field]: a promise has no such property, the value is
    [undefined]. *)
Definition fieldOfPromise {A B : Type} (p : JS.Promise A) (field : A -> B)
  : option B := None.

(** [{ ...vault, risk_score, risk_category, risk_adjusted_apy }]; [None] is
    [undefined] in the first two fields and [NaN] in the third. *)
Record Enriched := mkEnriched {
  e_vault : Vault;
  e_risk_score : option Z;
  e_risk_category : option RiskCategory;
  e_risk_adjusted_apy : option Q
}.

(** [apy * (riskScore / 100)] where [riskScore] may be [undefined]. *)
Definition getRiskAdjustedAPY (apy : Q) (riskScore : option Z) : option Q :=
  match riskScore with
  | Some s => Some (apy * (inject_Z s / 100))%Q
  | None => None
  end.

(** The second pass.  calculateRiskScore is an [async] function and its
    promise is not awaited: [riskAnalysis] is the promise. *)
Definition enrich (cache : RiskCache) (vault : Vault) : Enriched :=
  let riskAnalysis := JS.promiseOf (fst (calculateRiskScore cache vault)) in
  let riskScore := fieldOfPromise riskAnalysis RiskScorer.riskScore in
  mkEnriched vault riskScore
    (fieldOfPromise riskAnalysis RiskScorer.riskCategory)
    (getRiskAdjustedAPY (apy vault) riskScore).

(** [vault.risk_score >= risk_min && vault.risk_score <= risk_max]: a
    comparison with [undefined] is false. *)
Definition withinRisk (risk_min risk_max : Z) (vault : Enriched) : bool :=
  match e_risk_score vault with
  | Some s => (risk_min <=? s) && (s <=? risk_max)
  | None => false
  end.

(** [(a, b) => b.risk_adjusted_apy - a.risk_adjusted_apy]; a comparator
    value of [NaN] counts as 0. *)
Definition byRiskAdjustedAPY (a b : Enriched) : Q :=
  match e_risk_adjusted_apy b, e_risk_adjusted_apy a with
  | Some y, Some x => (y - x)%Q
  | _, _ => 0%Q
  end.

Record Found := mkFound {
  f_vault_address : string;
  f_name : string;
  f_protocol : string;
  f_chain : string;
  f_apy : Q;
  f_risk_adjusted_apy : option Q;
  f_risk_score : option Z;
  f_tvl_usd : Z
}.

Definition foundOf (vault : Enriched) : Found :=
  let v := e_vault vault in
  mkFound (vault_address v) (name v) (protocol v) (chain v) (apy v)
    (e_risk_adjusted_apy vault) (e_risk_score vault) (tvl_usd v).

Record SearchResult := mkSearchResult {
  vaults : list Found;
  total_matching : nat;
  best_vault : option Enriched;
  value : Q
}.

(** getCustomVaultSearch; without a criteria object the destructuring
    throws. *)
Definition getCustomVaultSearch (w : Adapter.World) (criteria : option Criteria)
  : IO SearchResult :=
  match criteria with
  | None =>
      throw (JS.TypeError
               "Cannot destructure property 'asset' of 'criteria' as it is undefined.")
  | Some criteria =>
      let risk_min := orElse (cr_risk_min criteria) 0 in
      let risk_max := orElse (cr_risk_max criteria) 100 in
      let limit := orElse (cr_limit criteria) 10 in
      vaults <- Adapter.collectFromAllSources w ;;
      let filteredVaults := List.filter (matches criteria) vaults in
      let enrichedVaults :=
        List.filter (withinRisk risk_min risk_max)
          (map (enrich (Adapter.riskCache w)) filteredVaults) in
      let topVaults := JS.slice0 limit (JS.sort byRiskAdjustedAPY enrichedVaults) in
      ret (mkSearchResult (map foundOf topVaults) (length enrichedVaults)
             (head topVaults)
             (match topVaults with
              | top :: _ => JS.double (apy (e_vault top) * 100)
              | [] => 0%Q
              end))
  end.

End Search.

(** ** Loops over slices *)

Module Loops.

(** [for (let i = 0; i < list.length; i += size) list.slice(i, i + size)];
    [fuel] bounds the rounds of the loop, which for a positive [size] are at
    most [list.length]. *)
Fixpoint batchesFrom {A : Type} (fuel i size : nat) (l : list A) : list (list A) :=
  match fuel with
  | O => []
  | S fuel =>
      if (i <? length l)%nat
      then firstn size (skipn i l) :: batchesFrom fuel (i + size) size l
      else []
  end.

Definition batches {A : Type} (size : nat) (l : list A) : list (list A) :=
  batchesFrom (length l) 0 size l.

End Loops.

(** ** On-chain validation (external-adapter.js,
    collectFromAllSourcesWithOnChain; vault-onchain-collector.js) *)

Module OnChainValidation.

Import Effects Validator.

(** What the reads of getVaultOnChainData deliver about a contract.  A
    string that no read delivered is empty; [total_assets] is the number
    that parseFloat reads from the formatted amount. *)
Record TokenData := mkTokenData {
  t_name : string;
  t_symbol : string;
  t_asset_symbol : string;
  t_total_assets : option Q
}.

(** [{ ...vaultData, vault_address, chain, data_source, timestamp, ... }] *)
Record OnChainData := mkOnChainData {
  oc_vault_address : string;
  oc_chain : string;
  oc_token : TokenData;
  oc_timestamp : Z
}.

(** The chain as one request sees it: the chains with a provider, what the
    reads of a contract deliver ([None] when the block number cannot be
    read), and the value of [Date.now()] when they end. *)
Record Reads := mkReads {
  providers : string -> bool;
  tokenData : string -> string -> string -> option TokenData;
  clock : string -> string -> Z
}.

Definition isContractAddress (address : string) : bool :=
  negb (String.eqb address "")
  && JS.startsWith "0x" address
  && (String.length address =? 42)%nat.

(** The one protocol for which getProtocolSpecificData calls getYearnData.
    That function calls [totalSupply], which the ABI it builds its contract
    from does not list, after it has started three reads of the contract:
    the call throws, and when the three reads fail later nobody handles
    their rejections, which ends the process.  The functions below follow
    the code for every other protocol. *)
Definition takesYearnPath (protocol : string) : bool :=
  String.eqb (JS.toLowerCase protocol) "yearn".

(** getVaultOnChainData, for a protocol that does not take the path of
    getYearnData: a missing provider or an address of the wrong shape ends
    the call before any read; every failure is returned as [null]. *)
Definition getVaultOnChainData (r : Reads)
    (vaultAddress chainName protocol : string) : IO (option OnChainData) :=
  if negb (providers r chainName) then ret None
  else if String.eqb vaultAddress ""
          || negb (JS.startsWith "0x" vaultAddress)
          || negb (String.length vaultAddress =? 42)%nat
  then ret None
  else
    _ <- emit (RpcRead "getVaultOnChainData" vaultAddress) ;;
    ret (option_map
           (fun token =>
              mkOnChainData vaultAddress chainName token (clock r vaultAddress chainName))
           (tokenData r vaultAddress chainName protocol)).

(** [Promise.all(batch.map(f))]: the calls of a batch, in order. *)
Fixpoint mapIO {A B : Type} (f : A -> IO B) (l : list A) : IO (list B) :=
  match l with
  | [] => ret []
  | x :: rest =>
      y <- f x ;;
      ys <- mapIO f rest ;;
      ret (y :: ys)
  end.

(** The loop over the batches: [results.push(...batchResults.filter(...))]. *)
Fixpoint batchLoop {A B : Type} (f : A -> IO (option B)) (todo : list (list A))
    (results : list B) : IO (list B) :=
  match todo with
  | [] => ret results
  | batch :: rest =>
      batchResults <- mapIO f batch ;;
      batchLoop f rest (results ++ omap id batchResults)%list
  end.

Definition BATCH_SIZE : nat := 5.

(** batchGetVaultData *)
Definition batchGetVaultData (r : Reads)
    (vaultList : list (string * string * string)) : IO (list OnChainData) :=
  batchLoop
    (fun '(vault_address, chain, protocol) =>
       getVaultOnChainData r vault_address chain protocol)
    (Loops.batches BATCH_SIZE vaultList) [].

(** [Math.min] and [Math.max] of two numbers. *)
Definition Math_min (x y : Q) : Q := if Qle_bool x y then x else y.

Definition Math_max (x y : Q) : Q := if Qle_bool x y then y else x.

(** validateVaultData at time [now]. *)
Definition validateVaultData (now : Z) (onChainData : OnChainData) (apiData : Vault)
  : ValidationResult :=
  let token := oc_token onChainData in
  let has_real_address := isContractAddress (oc_vault_address onChainData) in
  let name_similarity :=
    if negb (String.eqb (t_name token) "") && negb (String.eqb (name apiData) "")
    then
      let onChainName := JS.toLowerCase (t_name token) in
      let apiName := JS.toLowerCase (name apiData) in
      JS.includes (JS.toLowerCase (protocol apiData)) onChainName
      || JS.includes (JS.toLowerCase (t_symbol token)) apiName
      || negb (Qle_bool (Similarity.calculateStringSimilarity onChainName apiName)
                 (3 # 10))
    else false in
  let asset_match :=
    if negb (String.eqb (t_asset_symbol token) "")
       && negb (String.eqb (asset_symbol apiData) "")
    then String.eqb (JS.toLowerCase (t_asset_symbol token))
           (JS.toLowerCase (asset_symbol apiData))
    else false in
  let tvl_reasonable :=
    match t_total_assets token with
    | Some onChainTVL =>
        let apiTVL := inject_Z (tvl_usd apiData) in
        if negb (tvl_usd apiData =? 0)
           && negb (Qle_bool onChainTVL 0) && negb (Qle_bool apiTVL 0)
        then
          let ratio := (Math_min onChainTVL apiTVL / Math_max onChainTVL apiTVL)%Q in
          negb (Qle_bool ratio (1 # 2))
          || (negb (Qle_bool onChainTVL 1000) && negb (Qle_bool apiTVL 100000))
          || (negb (Qle_bool onChainTVL 100000) && negb (Qle_bool apiTVL 1000000))
        else false
    | None => false
    end in
  let data_freshness :=
    if oc_timestamp onChainData =? 0 then unknown
    else
      let blockAge := now - oc_timestamp onChainData in
      if blockAge <? 300000 then fresh
      else if blockAge <? 3600000 then recent
      else stale in
  mkValidation name_similarity asset_match tvl_reasonable data_freshness
    has_real_address.

Inductive DataConfidence :=
| api_only
| validated (level : ConfidenceLevel).

(** [{ ...apiVault, on_chain_data, validation_score, data_confidence,
    validation_details }] *)
Record Validated := mkValidated {
  source : Vault;                  (* the spread [...apiVault] *)
  new_validation_score : Z;
  data_confidence : DataConfidence;
  on_chain_data : option OnChainData;
  validation_details : option ValidationResult
}.

(** The record as the ranking reads it. *)
Definition toVault (x : Validated) : Vault :=
  let v := source x in
  mkVault (vault_address v) (chain v) (protocol v) (name v) (asset_symbol v)
    (apy v) (tvl_usd v) (data_source v) (risk_score v)
    (Some (new_validation_score x)).

Definition apiOnly (vault : Vault) : Validated :=
  mkValidated vault 0 api_only None None.

(** The filter of step 2; [minTvl] is the threshold in use. *)
Definition isHighValue (minTvl : Z) (vault : Vault) : bool :=
  (minTvl <? tvl_usd vault) && isContractAddress (vault_address vault).

(** [(a, b) => b.tvl_usd - a.tvl_usd] *)
Definition byTvl (a b : Vault) : Q := inject_Z (tvl_usd b - tvl_usd a).

Definition isMatch (apiVault : Vault) (onChain : OnChainData) : bool :=
  String.eqb (JS.toLowerCase (oc_vault_address onChain))
    (JS.toLowerCase (vault_address apiVault))
  && String.eqb (oc_chain onChain) (chain apiVault).

(** Step 4 for one vault. *)
Definition enrichWith (now : Z) (onChainData : list OnChainData) (apiVault : Vault)
  : Validated :=
  match find (isMatch apiVault) onChainData with
  | Some onChainMatch =>
      let validation := validateVaultData now onChainMatch apiVault in
      mkValidated apiVault (calculateValidationScore validation)
        (validated (getConfidenceLevel validation))
        (Some onChainMatch) (Some validation)
  | None => apiOnly apiVault
  end.

(** [try { ... } catch (error) { ... }] *)
Definition tryCatch {A : Type} (body : IO A) (handler : JS.Exception -> IO A)
  : IO A :=
  match body with
  | (t, JS.Returned a) => (t, JS.Returned a)
  | (t, JS.Thrown e) => let (t', r) := handler e in ((t ++ t')%list, r)
  end.

(** The vaults sent to the chain: the 20 largest of the high-value vaults. *)
Definition highValueVaults (minTvl : Z) (apiVaults : list Vault) : list Vault :=
  JS.slice0 20 (JS.sort byTvl (List.filter (isHighValue minTvl) apiVaults)).

(** collectFromAllSourcesWithOnChain, the validation running at time [now];
    [minTvlEnv] is the number that ONCHAIN_VALIDATION_MIN_TVL holds, [None]
    when it is unset. *)
Definition collectFromAllSourcesWithOnChain (w : Adapter.World) (r : Reads)
    (now : Z) (minTvlEnv : option Z) : IO (list Validated) :=
  apiVaults <- Adapter.collectFromAllSources w ;;
  let minTvl := match minTvlEnv with Some z => z | None => 10000000 end in
  let highValueVaults := highValueVaults minTvl apiVaults in
  if (length highValueVaults =? 0)%nat
  then ret (map apiOnly apiVaults)
  else
    tryCatch
      (onChainData <-
         batchGetVaultData r
           (map (fun vault => (vault_address vault, chain vault, protocol vault))
              highValueVaults) ;;
       ret (map (enrichWith now onChainData) apiVaults))
      (fun error => ret (map apiOnly apiVaults)).

(** An RPC read of a contract-shaped address. *)
Definition readsContract (e : IOEvent) : bool :=
  match e with
  | RpcRead _ address => isContractAddress address
  | _ => false
  end.

(** The value an effectful call returns, [null] for a call that throws. *)
Definition valueOf {B : Type} (m : IO (option B)) : option B :=
  match snd m with
  | JS.Returned y => y
  | JS.Thrown _ => None
  end.

Definition request (r : Reads) (req : string * string * string)
  : IO (option OnChainData) :=
  let '(vault_address, chain, protocol) := req in
  getVaultOnChainData r vault_address chain protocol.

(** The record as the risk scorer and the ranking of getBestVault see it. *)
Definition candidateOf (cache : RiskScorer.RiskCache) (x : Validated)
  : Resolver.Candidate :=
  Resolver.withRiskAdjustedAPY (RiskScorer.enrich cache (toVault x)).

(** A chain with a provider everywhere, on which every contract reads as
    the same token, at time 1000. *)
Definition sampleReads : Reads :=
  mkReads (fun _ => true)
    (fun _ _ _ => Some (mkTokenData "Compound USDC" "cUSDCv3" "USDC" (Some (48000000 # 1))))
    (fun _ _ => 1000).

(** Providers that report one vault of 50 million dollars on Base and one
    pool under an opaque identifier. *)
Definition sampleWorld : Adapter.World :=
  Adapter.mkWorld
    [mkVault "747c1d2a-c668-4682-b9f9-296708a3dd90" "ethereum" "aave-v3"
       "aave-v3 USDC" "USDC" (4 # 1) 90000000 "defillama" None None]
    [Examples.onBase] ∅.

(** What the validation at time 2000 makes of them. *)
Definition sampleOut : list Validated :=
  match snd (collectFromAllSourcesWithOnChain sampleWorld sampleReads 2000 None) with
  | JS.Returned out => out
  | JS.Thrown _ => []
  end.

Definition sampleValidated : Validated := nth 1 sampleOut (apiOnly Examples.onBase).

Definition sampleUnvalidated : Validated := nth 0 sampleOut (apiOnly Examples.onBase).

End OnChainValidation.

(** ** Collectors (defillama-collector.js, vaults-fyi-collector.js) *)

Module Collectors.

(** A field of a JSON answer: left out ([undefined]), [null], or there with
    a value of the type the provider documents. *)
Inductive Nullish := undefined | null.

Inductive Field (A : Type) : Type :=
| Missing (n : Nullish)
| Present (a : A).
Arguments Missing {A} n.
Arguments Present {A} a.

(** What a collector stores where a string is meant: a nullish value, a
    string, or the object that a lookup in an object literal finds under a
    name every object inherits. *)
Inductive Value :=
| Nothing (n : Nullish)
| Str (s : string)
| Inherited (key : string).

(** [x?.f() || otherwise] and [x?.f()] read as a condition ([otherwise] is
    then [false]). *)
Definition onField {A B : Type} (x : Field A) (f : A -> B) (otherwise : B) : B :=
  match x with
  | Present a => f a
  | Missing _ => otherwise
  end.

(** [`${x}`] *)
Definition interpolate (x : Field string) : string :=
  match x with
  | Present s => s
  | Missing undefined => "undefined"
  | Missing null => "null"
  end.

(** [x || 0] on a number. *)
Definition orZero (x : Field Q) : Q :=
  match x with
  | Present q => q
  | Missing _ => 0%Q
  end.

(** [a || b] on numbers. *)
Definition orNumber (a b : Field Q) : Field Q :=
  match a with
  | Present q => if Qeq_bool q 0 then b else a
  | Missing _ => b
  end.

(** [x || fallback] on a string. *)
Definition orString (x : Field string) (fallback : string) : string :=
  match x with
  | Present s => if String.eqb s "" then fallback else s
  | Missing _ => fallback
  end.

(** The names an object literal answers to without holding them, among the
    names in lower case. *)
Definition inheritedNames : list string := ["constructor"; "__proto__"].

Definition isOneOf (s : string) (l : list string) : bool :=
  existsb (String.eqb s) l.

(** [mapping[key] || fallback] for an object literal of non-empty strings. *)
Definition mapped (mapping : list (string * string)) (key fallback : string) : Value :=
  match RiskScorer.lookup key mapping with
  | Some name => Str name
  | None => if isOneOf key inheritedNames then Inherited key else Str fallback
  end.

(** [parseInt(x)] for a number [x] that is 0, or at least 10^-6 and below
    10^21: such a number prints without exponent, and [parseInt] reads its
    integer part. *)
Definition parseIntOfNumber (x : Q) : Z := Qnum x / Zpos (Qden x).

Module DefiLlama.

(** A pool of the yields API. *)
Record Pool := mkPool {
  pool : Field string;
  chain : Field string;
  project : Field string;
  symbol : Field string;
  tvlUsd : Field Q;
  apy : Field Q;
  underlyingTokens : Field (list string)
}.

(** The record that normalizeVaultData builds, on the fields of [Vault]. *)
Record Normalized := mkNormalized {
  vault_address : Field string;
  chain_name : Field string;
  protocol : Value;
  name : string;
  asset_symbol : string;
  apy_percent : Q;
  tvl_usd : Z;
  data_source : string;
  risk_score : option Z
}.

Definition targetChains : list string :=
  ["ethereum"; "polygon"; "arbitrum"; "base"; "optimism"].

Definition lpIndicators : list string :=
  ["uniswap"; "curve"; "balancer"; "sushiswap"; "pancakeswap"; "trader-joe";
   "kyberswap"; "camelot"; "velodrome"; "aerodrome"].

Definition isLiquidityPool (p : Pool) : bool :=
  let project := onField (project p) JS.toLowerCase "" in
  let symbol := onField (symbol p) JS.toLowerCase "" in
  if existsb (fun indicator => JS.includes indicator project) lpIndicators then true
  else if JS.includes "-" symbol && (JS.includes "usdc" symbol || JS.includes "eth" symbol)
  then true
  else if onField (underlyingTokens p) (fun tokens => (1 <? length tokens)%nat) false
  then true
  else false.

(** The test that collectAllVaults filters the pools with. *)
Definition isLendingVault (p : Pool) : bool :=
  let hasUSDC :=
    onField (symbol p) (fun s => JS.includes "USDC" (JS.toUpperCase s)) false
    || onField (underlyingTokens p)
         (existsb (fun token => JS.includes "usdc" (JS.toLowerCase token))) false in
  if negb hasUSDC then false
  else
    let isTargetChain :=
      onField (chain p) (fun c => isOneOf (JS.toLowerCase c) targetChains) false in
    if negb isTargetChain then false
    else
      let hasMinTVL := negb (Qle_bool (orZero (tvlUsd p)) 100000) in
      let hasReasonableAPY :=
        negb (Qle_bool (orZero (apy p)) 0) && negb (Qle_bool 100 (orZero (apy p))) in
      if negb hasMinTVL || negb hasReasonableAPY then false
      else
        let hasValidPoolId := onField (pool p) (fun id => negb (String.eqb id "")) false in
        if negb hasValidPoolId then false
        else
          let notLPPool := negb (isLiquidityPool p) in
          if negb notLPPool then false else true.

Definition mapping : list (string * string) :=
  [ ("aave-v3", "aave-v3"); ("aave-v2", "aave-v2"); ("aave", "aave");
    ("compound-v3", "compound-v3"); ("compound-v2", "compound-v2");
    ("compound", "compound"); ("morpho-blue", "morpho"); ("morpho-aave", "morpho");
    ("morpho-compound", "morpho"); ("morpho", "morpho"); ("euler-v2", "euler");
    ("euler", "euler"); ("yearn-finance", "yearn"); ("yearn", "yearn") ].

(** [mapping[project?.toLowerCase()] || project] *)
Definition normalizeProtocolName (project : Field string) : Value :=
  match project with
  | Present name => mapped mapping (JS.toLowerCase name) name
  | Missing n => Nothing n
  end.

Definition extractMainAsset (p : Pool) : string :=
  if onField (symbol p) (fun s => JS.includes "USDC" (JS.toUpperCase s)) false
  then "USDC"
  else if onField (underlyingTokens p)
            (existsb (fun t => JS.includes "usdc" (JS.toLowerCase t))) false
  then "USDC"
  else if onField (symbol p) (fun s => JS.includes "USDT" (JS.toUpperCase s)) false
  then "USDT"
  else if onField (symbol p) (fun s => JS.includes "DAI" (JS.toUpperCase s)) false
  then "DAI"
  else if onField (symbol p) (fun s => JS.includes "ETH" (JS.toUpperCase s)) false
  then "ETH"
  else "UNKNOWN".

Definition normalizeVaultData (p : Pool) : Normalized :=
  mkNormalized
    (pool p)
    (onField (chain p) (fun c => Present (JS.toLowerCase c)) (Missing undefined))
    (normalizeProtocolName (project p))
    (interpolate (project p) ++ " " ++ interpolate (symbol p))
    (extractMainAsset p)
    (orZero (apy p))
    (parseIntOfNumber (orZero (tvlUsd p)))
    "defillama"
    None.

(** [Math.ceil(n / 4)] *)
Definition chunkSize (n : nat) : nat := ((n + 3) / 4)%nat.

(** collectAllVaults on the outcome of the pools request: [None] when the
    request failed or its answer holds no list of pools. *)
Definition collectAllVaults (response : option (list Pool)) : list Normalized :=
  match response with
  | None => []
  | Some pools =>
      let chunkSize := chunkSize (length pools) in
      let poolChunks := Loops.batches chunkSize pools in
      let filteredChunks := map (List.filter isLendingVault) poolChunks in
      let lendingVaults := concat filteredChunks in
      map normalizeVaultData lendingVaults
  end.

(** A pool whose TVL is below 10^21, where it prints without exponent. *)
Definition printable (p : Pool) : Prop :=
  (orZero (tvlUsd p) < 1000000000000000000000)%Q.

(** USDC on Aave, as the yields API lists it. *)
Definition aaveUSDC : Pool :=
  mkPool (Present "aa70268e-4b52-42bf-a116-608b370f9501") (Present "Ethereum")
    (Present "aave-v3") (Present "USDC") (Present (1500000000 # 1)%Q)
    (Present (42 # 10)%Q)
    (Present ["0xA0b86991c6218b36c1d19D4a2e9Eb0cE3606eB48"]).

(** A USDC pair of a decentralised exchange. *)
Definition curvePair : Pool :=
  mkPool (Present "0f2c1d4a-77b3-4962-9b1a-3a0e5b1c7d10") (Present "Arbitrum")
    (Present "curve-dex") (Present "USDC-USDT") (Present (30000000 # 1)%Q)
    (Present (3 # 1)%Q) (Missing undefined).

End DefiLlama.

Module VaultsFyi.

(** A vault of the detailed-vaults answer: [network.name], [protocol.name],
    [asset.symbol], the totals under [apy], and [score.vaultScore], each
    [Missing] also when the object that holds it is.  [tvl] is what
    [parseInt] reads from [tvl.usd], [None] when that is no number. *)
Record RawVault := mkRawVault {
  address : Field string;
  network : Field string;
  protocol_name : Field string;
  vault_name : Field string;
  asset : Field string;
  apy30 : Field Q;
  apy7 : Field Q;
  apy1 : Field Q;
  tvl : option Z;
  vaultScore : Field Z
}.

(** The record that normalizeVaultData builds, on the fields of [Vault]. *)
Record Normalized := mkNormalized {
  vault_address : string;
  chain : Value;
  protocol : string;
  name : string;
  asset_symbol : string;
  apy : Q;
  tvl_usd : Z;
  data_source : string;
  risk_score : option Z
}.

Definition chainMapping : list (string * string) :=
  [ ("mainnet", "ethereum"); ("ethereum", "ethereum"); ("optimism", "optimism");
    ("arbitrum", "arbitrum"); ("polygon", "polygon"); ("gnosis", "gnosis");
    ("base", "base"); ("unichain", "unichain"); ("swellchain", "swellchain");
    ("celo", "celo"); ("worldchain", "worldchain"); ("berachain", "berachain");
    ("ink", "ink"); ("bsc", "bsc");
    ("eip155:1", "ethereum"); ("eip155:10", "optimism"); ("eip155:42161", "arbitrum");
    ("eip155:137", "polygon"); ("eip155:100", "gnosis"); ("eip155:8453", "base");
    ("eip155:56", "bsc") ].

Definition getChainName (v : RawVault) : Value :=
  match network v with
  | Missing _ => Nothing null
  | Present name =>
      if String.eqb name "" then Nothing null
      else
        let networkName := JS.toLowerCase name in
        mapped chainMapping networkName networkName
  end.

(** [isNaN(num) ? fallback : num] after [parseFloat] of a number that may
    be missing. *)
Definition safeNumber (value : Field Q) : Q := orZero value.

Definition safeInt (value : option Z) : Z :=
  match value with
  | Some num => num
  | None => 0
  end.

(** normalizeVaultData when [Date.now()] is [now]. *)
Definition normalizeVaultData (now : Z) (v : RawVault) : Normalized :=
  mkNormalized
    (orString (address v) ("vaults-fyi-" ++ RiskScorer.showNumber now))
    (getChainName v)
    (orString (protocol_name v) "unknown")
    (orString (vault_name v) "Unknown Vault")
    (orString (asset v) "UNKNOWN")
    (safeNumber (orNumber (orNumber (apy30 v) (apy7 v)) (apy1 v)))
    (safeInt (tvl v))
    "vaultsfyi"
    (match vaultScore v with
     | Present s => if s =? 0 then None else Some s
     | Missing _ => None
     end).

Definition targetChains : list string :=
  ["ethereum"; "optimism"; "arbitrum"; "polygon"; "base"].

(** [targetChains.includes(chain)]: only a string is equal to a string. *)
Definition isTargetChain (chain : Value) : bool :=
  match chain with
  | Str c => isOneOf c targetChains
  | _ => false
  end.

Definition qualifies (normalizedVault : Normalized) : bool :=
  let hasUSDC := JS.includes "USDC" (JS.toUpperCase (asset_symbol normalizedVault)) in
  let isTargetChain := isTargetChain (chain normalizedVault) in
  let hasMinTVL := 100000 <=? tvl_usd normalizedVault in
  hasUSDC && isTargetChain && hasMinTVL.

(** collectAllVaults on the outcome of the request: [None] when it failed
    or its answer holds no list of vaults. *)
Definition collectAllVaults (now : Z) (response : option (list RawVault))
  : list Normalized :=
  match response with
  | None => []
  | Some vaults =>
      if (length vaults =? 0)%nat then []
      else List.filter qualifies (map (normalizeVaultData now) vaults)
  end.

(** USDC on Compound, as the detailed-vaults answer lists it. *)
Definition compoundUSDC : RawVault :=
  mkRawVault (Present "0xb125E6687d4313864e53df431d5425969c15Eb2F")
    (Present "mainnet") (Present "Compound") (Present "Compound USDC")
    (Present "USDC") (Present (5 # 1)%Q) (Missing undefined) (Missing undefined)
    (Some 50000000) (Missing undefined).

End VaultsFyi.

End Collectors.

(** * Properties *)

(** ** Strings *)

Lemma toLowerCase_app (a b : string) :
  JS.toLowerCase (a ++ b) = JS.toLowerCase a ++ JS.toLowerCase b.
Proof.
  induction a as [| c a IH]; simpl.
  - reflexivity.
  - now rewrite IH.
Qed.

Lemma key_of_identity (v : Vault) :
  Reconciler.key v
  = fst (Reconciler.identity v) ++ "-" ++ snd (Reconciler.identity v).
Proof.
  unfold Reconciler.key, Reconciler.identity; simpl.
  now rewrite !toLowerCase_app.
Qed.

(** ** Numbers *)

(** On the sample numbers, products and quotients rounded by [JS.double]
    are the products and quotients of the kernel's binary64 arithmetic. *)
Lemma double_agrees_with_binary64 :
  forallb
    (fun x =>
       forallb
         (fun y =>
            Qeq_bool (JS.double (JS.exactly x * JS.exactly y))
              (JS.exactly (x * y)%float)
            && Qeq_bool (JS.double (JS.exactly x / JS.exactly y))
                 (JS.exactly (x / y)%float))
         Examples.binary64Samples)
    Examples.binary64Samples
  = true.
Proof. vm_compute. reflexivity. Qed.

(** In binary64 a yield of 5 at the score 96 is below a yield of 6 at the
    score 80, where the exact products are equal. *)
Lemma risk_adjusted_yield_is_rounded :
  (RiskScorer.getRiskAdjustedAPY 5 (Some 96%Z)
   < RiskScorer.getRiskAdjustedAPY 6 (Some 80%Z))%Q
  /\ (5 * (96 # 100) == 6 * (80 # 100))%Q.
Proof. split; vm_compute; reflexivity. Qed.

(** ** Reconciler *)

Section ReconcilerFacts.

Import Reconciler.

Lemma map_get_None (k : string) (m : VaultMap) :
  map_get k m = None <-> ~ In k (map fst m).
Proof.
  induction m as [| [k' t] m IH]; simpl.
  - tauto.
  - destruct (String.eqb_spec k k') as [-> | Hne].
    + split; [discriminate | intros H; exfalso; apply H; now left].
    + rewrite IH. split.
      * intros H [Heq | Hin]; [congruence | contradiction].
      * intros H Hin. apply H. now right.
Qed.

Lemma map_set_absent (k : string) (t : Tagged) (m : VaultMap) :
  map_get k m = None -> map_set k t m = (m ++ [(k, t)])%list.
Proof.
  induction m as [| [k' t'] m IH]; simpl; intros H.
  - reflexivity.
  - destruct (String.eqb k k'); [discriminate |].
    now rewrite IH.
Qed.

Lemma map_set_present (k : string) (t : Tagged) (m : VaultMap) :
  map_get k m <> None -> map fst (map_set k t m) = map fst m.
Proof.
  induction m as [| [k' t'] m IH]; simpl; intros H.
  - congruence.
  - destruct (String.eqb k k'); simpl; [reflexivity |].
    now rewrite IH.
Qed.

Lemma map_set_keyed (k : string) (t : Tagged) (m : VaultMap) :
  key (record t) = k -> keyed m -> keyed (map_set k t m).
Proof.
  intros Hk. unfold keyed.
  induction m as [| [k' t'] m IH]; simpl; intros Hm.
  - constructor; [exact Hk | constructor].
  - inversion_clear Hm as [| ? ? Hhd Htl].
    destruct (String.eqb_spec k k') as [Heq | Hne].
    + constructor; [simpl; congruence | exact Htl].
    + constructor; [exact Hhd | now apply IH].
Qed.

Lemma map_set_NoDup (k : string) (t : Tagged) (m : VaultMap) :
  List.NoDup (map fst m) -> List.NoDup (map fst (map_set k t m)).
Proof.
  intros Hm.
  destruct (map_get k m) eqn:Hget.
  - rewrite map_set_present; [exact Hm | congruence].
  - rewrite map_set_absent by exact Hget.
    rewrite map_app; simpl.
    apply List.NoDup_app; [exact Hm | repeat constructor; simpl; tauto |].
    intros x Hx [<- | []]. now apply map_get_None in Hget.
Qed.

Lemma addDefiLlama_wellKeyed (m : VaultMap) (v : Vault) :
  wellKeyed m -> wellKeyed (addDefiLlama m v).
Proof.
  intros [Hnd Hk]. unfold addDefiLlama. split.
  - now apply map_set_NoDup.
  - now apply map_set_keyed.
Qed.

Lemma addVaultsFyi_wellKeyed (m : VaultMap) (v : Vault) :
  wellKeyed m -> wellKeyed (addVaultsFyi m v).
Proof.
  intros [Hnd Hk]. unfold addVaultsFyi.
  destruct (map_get (key v) m) as [existing |];
    [destruct (overrides v existing) |]; split;
    try assumption; now (apply map_set_NoDup || apply map_set_keyed).
Qed.

Lemma addVaultsFyiLending_wellKeyed (m : VaultMap) (v : Vault) :
  wellKeyed m -> wellKeyed (addVaultsFyiLending m v).
Proof.
  intros [Hnd Hk]. unfold addVaultsFyiLending.
  destruct (map_get (key v) m) as [existing |];
    [destruct (tvl_usd (record existing) <? tvl_usd v) |]; split;
    try assumption; now (apply map_set_NoDup || apply map_set_keyed).
Qed.

Lemma fold_wellKeyed (step : VaultMap -> Vault -> VaultMap) :
  (forall m v, wellKeyed m -> wellKeyed (step m v)) ->
  forall vs m, wellKeyed m -> wellKeyed (fold_left step vs m).
Proof.
  intros Hstep vs. induction vs as [| v vs IH]; simpl; intros m Hm.
  - exact Hm.
  - apply IH, Hstep, Hm.
Qed.

Lemma wellKeyed_values (m : VaultMap) :
  wellKeyed m -> List.NoDup (map identity (records (map snd m))).
Proof.
  intros [Hnd Hk].
  assert (Hkeys : map key (records (map snd m)) = map fst m).
  { unfold records. rewrite !map_map.
    apply map_ext_in. intros kt Hin.
    unfold keyed in Hk. rewrite List.Forall_forall in Hk. now apply Hk. }
  rewrite <- Hkeys in Hnd.
  assert (Hid : map key (records (map snd m))
                = map (fun i => fst i ++ "-" ++ snd i)
                    (map identity (records (map snd m)))).
  { rewrite map_map. apply map_ext. intros v. apply key_of_identity. }
  rewrite Hid in Hnd.
  now apply NoDup_map_inv in Hnd.
Qed.








Lemma map_get_In (k : string) (t : Tagged) (m : VaultMap) :
  map_get k m = Some t -> In (k, t) m.
Proof.
  induction m as [| [k' t'] m IH]; simpl; [discriminate |].
  destruct (String.eqb_spec k k') as [-> | Hne].
  - intros [= ->]. now left.
  - intros H. right. now apply IH.
Qed.

Lemma In_map_get (k : string) (t : Tagged) (m : VaultMap) :
  List.NoDup (map fst m) -> In (k, t) m -> map_get k m = Some t.
Proof.
  induction m as [| [k' t'] m IH]; simpl; intros Hnd Hin; [destruct Hin |].
  inversion_clear Hnd as [| ? ? Hnotin Hnd'].
  destruct Hin as [[= -> ->] | Hin].
  - now rewrite String.eqb_refl.
  - destruct (String.eqb_spec k k') as [-> | Hne].
    + exfalso. apply Hnotin. now apply (in_map fst) in Hin.
    + now apply IH.
Qed.




(** The second loops, by their override test. *)
Section SecondLoop.

Context (wins : Vault -> Tagged -> bool) (step : VaultMap -> Vault -> VaultMap).

Hypothesis step_eq :
  forall m v,
    step m v
    = match map_get (key v) m with
      | None => map_set (key v) (mkTagged v "vaultsfyi") m
      | Some existing =>
          if wins v existing then map_set (key v) (mkTagged v "vaultsfyi") m else m
      end.






End SecondLoop.

End ReconcilerFacts.

(** C3.  After reconciliation at most one record of every identity
    (lower-cased address, lower-cased chain) is left: the identities of the
    merged records are pairwise different, whatever the casing of the input
    records was. *)
Theorem one_record_per_identity (defiLlamaVaults vaultsFyiVaults : list Vault) :
  List.NoDup
    (map Reconciler.identity
       (Reconciler.records
          (Reconciler.collectFromAllSources defiLlamaVaults vaultsFyiVaults))).
Proof.
  unfold Reconciler.collectFromAllSources, Reconciler.vaultMapOf.
  apply wellKeyed_values.
  apply fold_wellKeyed; [apply addVaultsFyi_wellKeyed |].
  apply fold_wellKeyed; [apply addDefiLlama_wellKeyed |].
  split; constructor.
Qed.

Lemma one_lending_record_per_identity (defiLlamaVaults vaultsFyiVaults : list Vault) :
  List.NoDup
    (map Reconciler.identity
       (Reconciler.records
          (Reconciler.collectFromLendingSources defiLlamaVaults vaultsFyiVaults))).
Proof.
  unfold Reconciler.collectFromLendingSources.
  apply wellKeyed_values.
  apply fold_wellKeyed; [apply addVaultsFyiLending_wellKeyed |].
  apply fold_wellKeyed; [apply addDefiLlama_wellKeyed |].
  split; constructor.
Qed.

(** Two reports of one vault that differ in casing only collapse to one
    record. *)
Example casing_collapses :
  Reconciler.identity Examples.upperCased = Reconciler.identity Examples.fromDefiLlama
  /\ length (Reconciler.collectFromAllSources
               [Examples.fromDefiLlama] [Examples.upperCased]) = 1%nat.
Proof. split; reflexivity. Qed.


Lemma collect_lending_pair (a b : Vault) :
  Reconciler.key a = Reconciler.key b ->
  Reconciler.records (Reconciler.collectFromLendingSources [a] [b])
  = [if tvl_usd a <? tvl_usd b then b else a].
Proof.
  intros Hk.
  unfold Reconciler.collectFromLendingSources; simpl.
  unfold Reconciler.addDefiLlama, Reconciler.addVaultsFyiLending; simpl.
  rewrite <- Hk, String.eqb_refl. simpl.
  destruct (tvl_usd a <? tvl_usd b); reflexivity.
Qed.




(** ** Validator *)

(** C5.  The validation score is the weighted sum of the checks (real
    address 30, asset match 25, name similarity 20, TVL plausibility 15)
    plus the freshness bonus (10 when fresh, 5 when recent), and passing a
    check that failed, the others held fixed, never lowers it. *)
Theorem validation_score_weighted_and_monotone (v : Validator.ValidationResult) :
  Validator.calculateValidationScore v = Validator.weightedSum v
  /\ Validator.calculateValidationScore (Validator.with_has_real_address false v)
     <= Validator.calculateValidationScore (Validator.with_has_real_address true v)
  /\ Validator.calculateValidationScore (Validator.with_asset_match false v)
     <= Validator.calculateValidationScore (Validator.with_asset_match true v)
  /\ Validator.calculateValidationScore (Validator.with_name_similarity false v)
     <= Validator.calculateValidationScore (Validator.with_name_similarity true v)
  /\ Validator.calculateValidationScore (Validator.with_tvl_reasonable false v)
     <= Validator.calculateValidationScore (Validator.with_tvl_reasonable true v)
  /\ Validator.calculateValidationScore (Validator.with_data_freshness Validator.unknown v)
     <= Validator.calculateValidationScore (Validator.with_data_freshness Validator.recent v)
  /\ Validator.calculateValidationScore (Validator.with_data_freshness Validator.stale v)
     <= Validator.calculateValidationScore (Validator.with_data_freshness Validator.recent v)
  /\ Validator.calculateValidationScore (Validator.with_data_freshness Validator.recent v)
     <= Validator.calculateValidationScore (Validator.with_data_freshness Validator.fresh v).
Proof.
  assert (Hsum : forall u, Validator.calculateValidationScore u = Validator.weightedSum u).
  { intros [n a t f r].
    unfold Validator.calculateValidationScore, Validator.weightedSum; simpl.
    destruct n, a, t, f, r; reflexivity. }
  rewrite !Hsum.
  destruct v as [n a t f r].
  unfold Validator.weightedSum, Validator.weight, Validator.freshnessBonus; simpl.
  repeat split; destruct n, a, t, r; try destruct f; lia.
Qed.

(** ** Risk scorer *)

Lemma getRiskCategory_clamped (finalScore : Z) :
  RiskScorer.getRiskCategory (Z.max 0 (Z.min 100 finalScore))
  = RiskScorer.getRiskCategory finalScore.
Proof.
  unfold RiskScorer.getRiskCategory.
  repeat match goal with
         | |- context [?a <=? ?b] => destruct (Z.leb_spec a b)
         end; try reflexivity; lia.
Qed.

(** C4.  The risk category follows the thresholds 85, 70, 55 and 40 exactly,
    for every score and so for the score of every vault: at least 85 is low,
    at least 70 medium-low, at least 55 medium, at least 40 medium-high,
    anything less high; 85 is low and 84 is medium-low. *)
Theorem risk_category_thresholds (score : Z) (vaultData : Vault) :
  (85 <= score -> RiskScorer.getRiskCategory score = RiskScorer.low)
  /\ (70 <= score < 85 -> RiskScorer.getRiskCategory score = RiskScorer.medium_low)
  /\ (55 <= score < 70 -> RiskScorer.getRiskCategory score = RiskScorer.medium)
  /\ (40 <= score < 55 -> RiskScorer.getRiskCategory score = RiskScorer.medium_high)
  /\ (score < 40 -> RiskScorer.getRiskCategory score = RiskScorer.high)
  /\ RiskScorer.getRiskCategory 85 = RiskScorer.low
  /\ RiskScorer.getRiskCategory 84 = RiskScorer.medium_low
  /\ RiskScorer.riskCategory (RiskScorer.scoreVault vaultData)
     = RiskScorer.getRiskCategory (RiskScorer.riskScore (RiskScorer.scoreVault vaultData)).
Proof.
  unfold RiskScorer.getRiskCategory.
  repeat split; try reflexivity; try intros H;
    repeat match goal with
           | |- context [?a <=? score] => destruct (Z.leb_spec a score)
           end; try reflexivity; try lia.
  unfold RiskScorer.scoreVault; simpl.
  symmetry. apply getRiskCategory_clamped.
Qed.

(** ** Sorting *)

Section SortFacts.

Context {A : Type} (cmp : A -> A -> Q).

Lemma insert_perm (x : A) (l : list A) :
  Permutation (x :: l) (JS.insert cmp x l).
Proof.
  induction l as [| y l IH]; simpl.
  - reflexivity.
  - destruct (JS.staysBefore cmp x y).
    + reflexivity.
    + rewrite perm_swap. now apply perm_skip.
Qed.

Lemma sort_perm (l : list A) : Permutation l (JS.sort cmp l).
Proof.
  induction l as [| x l IH]; simpl.
  - reflexivity.
  - rewrite <- insert_perm. now apply perm_skip.
Qed.

Lemma sort_length (l : list A) : length (JS.sort cmp l) = length l.
Proof. symmetry. apply Permutation_length, sort_perm. Qed.

Lemma insert_sorted (x : A) (l : list A) :
  JS.decisive cmp -> Sorted (JS.inOrder cmp) l -> Sorted (JS.inOrder cmp) (JS.insert cmp x l).
Proof.
  intros Hdec. induction l as [| y l IH]; simpl; intros Hs.
  - repeat constructor.
  - destruct (JS.staysBefore cmp x y) eqn:Hxy.
    + constructor; [exact Hs | constructor; exact Hxy].
    + inversion_clear Hs as [| ? ? Hl Hhd].
      constructor; [now apply IH |].
      destruct l as [| z l]; simpl.
      * constructor. now apply Hdec.
      * destruct (JS.staysBefore cmp x z).
        -- constructor. now apply Hdec.
        -- inversion_clear Hhd. now constructor.
Qed.

Lemma sort_sorted (l : list A) :
  JS.decisive cmp -> Sorted (JS.inOrder cmp) (JS.sort cmp l).
Proof.
  intros Hdec. induction l as [| x l IH]; simpl.
  - constructor.
  - now apply insert_sorted.
Qed.

End SortFacts.

(** ** Resolver *)

(** On an array the ranking step of getBestVault is [rankBest]. *)
Lemma ranking_of_array (safeVaults : list RiskScorer.ScoredVault) :
  Adapter.ranking (JS.anArray safeVaults)
  = Effects.ret (Resolver.rankBest safeVaults).
Proof. reflexivity. Qed.





Lemma Sorted_weaken {A : Type} (R S : A -> A -> Prop) (l : list A) :
  (forall x y, R x y -> S x y) -> Sorted R l -> Sorted S l.
Proof.
  intros HRS Hs. induction Hs as [| x l Hl IH Hhd].
  - constructor.
  - constructor; [exact IH |].
    destruct Hhd; constructor. now apply HRS.
Qed.





(** The rule is not transitive even where it has no cycle: with equal
    yields, the vault of confidence 65 may stand ahead of the one of
    confidence 75, and that one ahead of the one of confidence 90, which
    beats the first. *)
Lemma rule_is_not_transitive :
  let c65 := Examples.candidateOf (Examples.validated "0x65" (3 # 1) 65) in
  let c75 := Examples.candidateOf (Examples.validated "0x75" (3 # 1) 75) in
  let c90 := Examples.candidateOf (Examples.validated "0x90" (3 # 1) 90) in
  Resolver.notBeatenBy c65 c75 /\ Resolver.notBeatenBy c75 c90
  /\ Resolver.beats c90 c65
  /\ ~ Resolver.beats c65 c90 /\ ~ Resolver.beats c75 c65 /\ ~ Resolver.beats c90 c75.
Proof.
  unfold Resolver.notBeatenBy.
  repeat split; try (vm_compute; reflexivity); vm_compute; discriminate.
Qed.








(** ** Risk filter *)

Lemma bySafety_inOrder (a b : RiskScorer.ScoredVault) :
  JS.inOrder RiskScorer.bySafety a b
  <-> JS.num (risk_score (RiskScorer.vault b))
      <= JS.num (risk_score (RiskScorer.vault a)).
Proof.
  unfold JS.inOrder, JS.staysBefore, RiskScorer.bySafety.
  rewrite Qle_bool_iff. unfold Qle; simpl. lia.
Qed.

Lemma bySafety_decisive : JS.decisive RiskScorer.bySafety.
Proof.
  intros x y Hxy.
  apply bySafety_inOrder.
  destruct (Z.le_gt_cases (JS.num (risk_score (RiskScorer.vault x)))
              (JS.num (risk_score (RiskScorer.vault y)))) as [Hle | Hgt].
  - exact Hle.
  - assert (Hin : JS.inOrder RiskScorer.bySafety x y) by (apply bySafety_inOrder; lia).
    unfold JS.inOrder in Hin. congruence.
Qed.

(** X2.  For vaults that read the tables of the scorer under keys of their
    own (every score is a number), filterByRiskTolerance returns exactly the
    enriched vaults whose risk score reaches the floor of the tolerance, by
    descending risk score.  The floor is 85, 70, 55, 40 for low to
    medium-high and 55 for every other tolerance, except for the names that
    every object inherits: there the floor is no number and nothing is
    returned. *)
Theorem filterByRiskTolerance_sorted (cache : RiskScorer.RiskCache)
    (vaults : list Vault) (maxRiskLevel : string) :
  List.Forall (fun v => RiskScorer.ownNames v = true) vaults ->
  let out := JS.await (RiskScorer.filterByRiskTolerance cache vaults maxRiskLevel) in
  let floor :=
    if JS.inherited maxRiskLevel then None
    else if String.eqb maxRiskLevel "low" then Some 85
    else if String.eqb maxRiskLevel "medium-low" then Some 70
    else if String.eqb maxRiskLevel "medium-high" then Some 40
    else Some 55 in
  Permutation
    (List.filter
       (fun v => match floor with
                 | Some score => score <=? JS.num (risk_score (RiskScorer.vault v))
                 | None => false
                 end)
       (map (RiskScorer.enrich cache) vaults))
    out
  /\ StronglySorted
       (fun a b => JS.num (risk_score (RiskScorer.vault b))
                   <= JS.num (risk_score (RiskScorer.vault a)))
       out
  /\ (floor = None -> out = []).
Proof.
  intros _ out floor.
  assert (Hfloor : RiskScorer.floorOf maxRiskLevel = floor).
  { unfold RiskScorer.floorOf, floor.
    destruct (JS.inherited maxRiskLevel); [reflexivity |].
    unfold RiskScorer.minScoreFor, RiskScorer.riskLevelScores.
    cbn [RiskScorer.lookup].
    destruct (String.eqb_spec maxRiskLevel "low") as [-> | _]; [reflexivity |].
    destruct (String.eqb_spec maxRiskLevel "medium-low") as [-> | _]; [reflexivity |].
    destruct (String.eqb_spec maxRiskLevel "medium") as [-> | _]; [reflexivity |].
    destruct (String.eqb_spec maxRiskLevel "medium-high") as [-> | _]; [reflexivity |].
    destruct (String.eqb_spec maxRiskLevel "high") as [-> | _]; reflexivity. }
  assert (Hfilter :
            List.filter (RiskScorer.reaches floor) (map (RiskScorer.enrich cache) vaults)
            = List.filter
                (fun v => match floor with
                          | Some score =>
                              score <=? JS.num (risk_score (RiskScorer.vault v))
                          | None => false
                          end)
                (map (RiskScorer.enrich cache) vaults)).
  { apply filter_ext. intros v. unfold RiskScorer.reaches, JS.geNum.
    now destruct floor. }
  unfold out, RiskScorer.filterByRiskTolerance. cbn [JS.await].
  rewrite Hfloor, Hfilter.
  split; [apply sort_perm |]. split.
  - apply Sorted_StronglySorted.
    + intros x y z Hxy Hyz. lia.
    + apply (Sorted_weaken (JS.inOrder RiskScorer.bySafety)).
      * intros x y. apply bySafety_inOrder.
      * apply sort_sorted, bySafety_decisive.
  - intros ->.
    assert (Hnone : forall l : list RiskScorer.ScoredVault,
               List.filter (fun _ => false) l = [])
      by (induction l; [reflexivity | assumption]).
    now rewrite Hnone.
Qed.

Lemma filterByRiskTolerance_witness :
  map (fun v => vault_address (RiskScorer.vault v))
    (JS.await
       (RiskScorer.filterByRiskTolerance ∅
          [Examples.riskyVault; Examples.onBase; Examples.confident] "medium-low"))
  = [vault_address Examples.confident; vault_address Examples.onBase]
  /\ JS.await
       (RiskScorer.filterByRiskTolerance ∅
          [Examples.riskyVault; Examples.onBase; Examples.confident] "constructor")
     = [].
Proof.
  split; [vm_compute; reflexivity |].
  apply (filterByRiskTolerance_sorted ∅
           [Examples.riskyVault; Examples.onBase; Examples.confident] "constructor").
  - repeat (apply List.Forall_cons; [reflexivity |]). apply List.Forall_nil.
  - reflexivity.
Defined.

(** C10, at the tolerance [high]: the table lists 0 as its minimum, but the
    floor in use is 55, so [high] filters exactly as [medium] does, and a
    vault that scores 43 is dropped. *)
Theorem high_tolerance_uses_medium_floor :
  RiskScorer.toleranceMinimum "high" = Some 0
  /\ RiskScorer.minScoreFor "high" = 55
  /\ (forall (cache : RiskScorer.RiskCache) (vaults : list Vault),
        RiskScorer.filterByRiskTolerance cache vaults "high"
        = RiskScorer.filterByRiskTolerance cache vaults "medium")
  /\ RiskScorer.riskScore (RiskScorer.scoreVault Examples.riskyVault) = 43
  /\ JS.await (RiskScorer.filterByRiskTolerance ∅ [Examples.riskyVault] "high") = [].
Proof.
  split; [reflexivity |].
  split; [reflexivity |].
  split; [intros cache vaults; reflexivity |].
  split; vm_compute; reflexivity.
Qed.

(** ** Resolution requests *)

(** C7, in the adapter: getBestVault never reports "no vaults found".  The
    promise of filterByRiskTolerance is not awaited, its [length] is
    undefined, and the call of [map] throws a TypeError that the route hands
    to the caller with status 500, whether any vault passes the filter or
    not. *)
Theorem getBestVault_throws_TypeError (w : Adapter.World) (asset riskLevel : string)
    (chainName : option string) :
  Adapter.getBestVault w asset riskLevel chainName
  = ([Effects.FetchDefiLlama; Effects.FetchVaultsFyi],
     JS.Thrown (JS.TypeError "safeVaults.map is not a function"))
  /\ snd (Adapter.bestVaultRoute w asset (Some riskLevel))
     = Adapter.mkResponse 500 (Adapter.ErrorBody "safeVaults.map is not a function").
Proof.
  assert (H : forall c, Adapter.getBestVault w asset riskLevel c
              = ([Effects.FetchDefiLlama; Effects.FetchVaultsFyi],
                 JS.Thrown (JS.TypeError "safeVaults.map is not a function"))).
  { intros c. unfold Adapter.getBestVault, Adapter.collectFromAllSources.
    reflexivity. }
  split; [apply H |].
  unfold Adapter.bestVaultRoute, Adapter.orElse. now rewrite H.
Qed.

(** C8, in the adapter: a top_vaults request is not checked for its limit.
    handleChainlinkRequest only replaces a missing or zero limit by 10, and
    getTopVaults starts both provider fetches before the limit is read.
    Whatever the limit (51, 0, negative or absent), the request reaches the
    providers and ends as the same request with limit 10 does: nothing is
    rejected before the I/O. *)
Theorem top_vaults_limit_is_not_validated :
  (forall (w : Adapter.World) (asset risk_level chainName : option string)
          (limit min_tvl : option Z),
      let data :=
        Adapter.mkRequestData asset risk_level chainName Adapter.top_vaults
          limit min_tvl in
      let unlimited :=
        Adapter.mkRequestData asset risk_level chainName Adapter.top_vaults
          (Some 10) min_tvl in
      Effects.trace (Adapter.handleChainlinkRequest w data)
      = [Effects.FetchDefiLlama; Effects.FetchVaultsFyi]
      /\ Adapter.chainlinkRoute w data = Adapter.chainlinkRoute w unlimited)
  /\ Adapter.rd_limit Examples.fiftyOne = Some 51
  /\ Adapter.chainlinkRoute Examples.threeVaultWorld Examples.fiftyOne
     = ([Effects.FetchDefiLlama; Effects.FetchVaultsFyi],
        Adapter.mkResponse 500 (Adapter.ErrorBody "safeVaults.map is not a function")).
Proof.
  split; [| split; reflexivity].
  intros w asset risk_level chainName limit min_tvl data unlimited.
  split; reflexivity.
Qed.

(** ** Yield calculator *)

Lemma estimation_confidence (random : Q) (uuid chainName protocol : string) :
  (YieldCalculator.confidence_score
     (YieldCalculator.getProtocolEstimationForUUID random uuid chainName protocol)
   <= 6 # 10)%Q.
Proof.
  unfold YieldCalculator.getProtocolEstimationForUUID.
  repeat match goal with
         | |- context [if ?c then _ else _] => destruct c
         end; simpl; unfold Qle; simpl; lia.
Qed.

(** X1.  For a vault address that is not contract-address shaped,
    getVaultDataWithCalculatedAPY, and getSmartCalculatedAPY alike, read
    nothing from the chain and return the protocol estimate, marked as an
    estimation, with a confidence of at most 0.6. *)
Theorem opaque_identifier_is_estimated_without_rpc (c : YieldCalculator.Chain)
    (random : Q) (vaultAddress chainName protocol : string) :
  YieldCalculator.isEthereumAddress vaultAddress = false ->
  let estimate :=
    YieldCalculator.getProtocolEstimationForUUID random vaultAddress chainName protocol in
  YieldCalculator.getVaultDataWithCalculatedAPY c random vaultAddress chainName protocol
  = ([], JS.Returned (Some (YieldCalculator.EstimationData estimate)))
  /\ YieldCalculator.getSmartCalculatedAPY c random vaultAddress chainName protocol
     = ([], JS.Returned (Some (YieldCalculator.SmartEstimation estimate)))
  /\ YieldCalculator.is_estimation estimate = true
  /\ YieldCalculator.estimation_type estimate = "uuid_protocol_based"
  /\ (YieldCalculator.confidence_score estimate <= 6 # 10)%Q.
Proof.
  intros Hopaque estimate.
  unfold YieldCalculator.getVaultDataWithCalculatedAPY,
    YieldCalculator.getSmartCalculatedAPY.
  rewrite Hopaque; simpl.
  repeat split.
  - unfold estimate, YieldCalculator.getProtocolEstimationForUUID.
    repeat match goal with
           | |- context [if ?b then _ else _] => destruct b
           end; reflexivity.
  - unfold estimate, YieldCalculator.getProtocolEstimationForUUID.
    repeat match goal with
           | |- context [if ?b then _ else _] => destruct b
           end; reflexivity.
  - apply estimation_confidence.
Qed.

Lemma pool_identifier_is_estimated :
  let estimate :=
    YieldCalculator.getProtocolEstimationForUUID (1 # 2) Examples.poolId
      "ethereum" "aave-v3" in
  YieldCalculator.getVaultDataWithCalculatedAPY Examples.silentChain (1 # 2)
    Examples.poolId "ethereum" "aave-v3"
  = ([], JS.Returned (Some (YieldCalculator.EstimationData estimate)))
  /\ YieldCalculator.getSmartCalculatedAPY Examples.silentChain (1 # 2)
       Examples.poolId "ethereum" "aave-v3"
     = ([], JS.Returned (Some (YieldCalculator.SmartEstimation estimate)))
  /\ YieldCalculator.is_estimation estimate = true
  /\ YieldCalculator.estimation_type estimate = "uuid_protocol_based"
  /\ (YieldCalculator.confidence_score estimate <= 6 # 10)%Q.
Proof.
  apply (opaque_identifier_is_estimated_without_rpc Examples.silentChain (1 # 2)
           Examples.poolId "ethereum" "aave-v3").
  reflexivity.
Defined.

Lemma comprehensive_on_opaque (c : YieldCalculator.Chain)
    (vaultAddress chainName protocol : string) :
  YieldCalculator.isEthereumAddress vaultAddress = false ->
  YieldCalculator.providers c chainName = true ->
  YieldCalculator.getComprehensiveVaultAnalysis c vaultAddress chainName protocol
  = ([Effects.RpcRead "calculateProtocolAPY" vaultAddress;
      Effects.RpcRead "calculateHistoricalAPY" vaultAddress;
      Effects.RpcRead "calculateHistoricalAPY" vaultAddress],
     JS.Returned None).
Proof.
  intros Hopaque Hprovider.
  unfold YieldCalculator.getComprehensiveVaultAnalysis,
    YieldCalculator.getVaultOnChainData, YieldCalculator.getProtocolAPY,
    YieldCalculator.calculateHistoricalAPY, YieldCalculator.calculateProtocolAPY.
  rewrite Hprovider; simpl.
  assert (Hshape : String.eqb vaultAddress ""
                   || negb (JS.startsWith "0x" vaultAddress)
                   || negb (String.length vaultAddress =? 42)%nat = true).
  { unfold YieldCalculator.isEthereumAddress in Hopaque.
    destruct (String.eqb vaultAddress ""), (JS.startsWith "0x" vaultAddress),
      (String.length vaultAddress =? 42)%nat; simpl in *; congruence. }
  rewrite Hshape. reflexivity.
Qed.

(** C6, in the comprehensive mode: getComprehensiveVaultAnalysis does not
    test the address shape as the two entry points above do.  For an
    identifier that is not contract-address shaped, on a chain with a
    provider, it still runs the historical calculation, whose first step
    reads the block number, and it returns nothing instead of an estimation. *)
Theorem comprehensive_analysis_reads_chain (c : YieldCalculator.Chain)
    (vaultAddress chainName protocol : string) :
  YieldCalculator.isEthereumAddress vaultAddress = false ->
  YieldCalculator.providers c chainName = true ->
  In (Effects.RpcRead "calculateHistoricalAPY" vaultAddress)
    (Effects.trace
       (YieldCalculator.getComprehensiveVaultAnalysis c vaultAddress chainName protocol))
  /\ Effects.outcome
       (YieldCalculator.getComprehensiveVaultAnalysis c vaultAddress chainName protocol)
     = JS.Returned None.
Proof.
  intros Hopaque Hprovider.
  rewrite comprehensive_on_opaque by assumption.
  split; [simpl; tauto | reflexivity].
Qed.

Lemma pool_identifier_is_read_comprehensively :
  In (Effects.RpcRead "calculateHistoricalAPY" Examples.poolId)
    (Effects.trace
       (YieldCalculator.getComprehensiveVaultAnalysis Examples.silentChain
          Examples.poolId "ethereum" "aave-v3"))
  /\ Effects.outcome
       (YieldCalculator.getComprehensiveVaultAnalysis Examples.silentChain
          Examples.poolId "ethereum" "aave-v3")
     = JS.Returned None.
Proof.
  apply (comprehensive_analysis_reads_chain Examples.silentChain Examples.poolId
           "ethereum" "aave-v3"); reflexivity.
Defined.

(** ** Request deduplication *)

Section DedupFacts.

Import CacheManager.

Context {V : Type}.

Lemma getVaultData_cold (t : Z) (k : string) :
  getVaultData (cold (V := V) t) k = None.
Proof.
  unfold getVaultData, cold; simpl. now rewrite lookup_empty.
Qed.

(** With nothing in flight for the key, every call of a turn suspends at its
    cache read. *)
Lemma calls_suspend (k : string) (ttlSec : Z) (cs : list nat) :
  forall st : State V,
    requestCache st !! ("dedup:" ++ k) = None ->
    fold_left call (map (fun c => (c, k, ttlSec)) cs) st
    = mkState (memoryCache st) (memoryTTL st) (requestCache st) (now st)
        (microtasks st
         ++ map (fun c => mkSuspended c k ttlSec (getVaultData st k)) cs)
        (pending st) (upstreamCalls st) (handles st) (settled st).
Proof.
  induction cs as [| c cs IH]; intros st Hcold; cbn [map fold_left].
  - rewrite app_nil_r. now destruct st.
  - assert (Hcall : call st (c, k, ttlSec)
                    = mkState (memoryCache st) (memoryTTL st) (requestCache st)
                        (now st)
                        (microtasks st
                         ++ [mkSuspended c k ttlSec (getVaultData st k)])
                        (pending st) (upstreamCalls st) (handles st) (settled st)).
    { unfold call. now rewrite Hcold. }
    rewrite Hcall, IH by exact Hcold.
    simpl. now rewrite <- app_assoc.
Qed.

(** Every call that resumes after a missed read starts the upstream function
    anew. *)
Lemma resumes_miss (k : string) (ttlSec : Z) (m : nat) :
  forall (u : nat) (st : State V),
    upstreamCalls st = u ->
    let st' :=
      fold_left resume (map (fun c => mkSuspended c k ttlSec None) (seq u m)) st in
    upstreamCalls st' = (u + m)%nat
    /\ handles st' = (handles st ++ map (fun c => (c, InFlight c)) (seq u m))%list
    /\ pending st' = (pending st ++ map (fun c => mkUpstream c k ttlSec) (seq u m))%list.
Proof.
  induction m as [| m IH]; intros u st Hu; simpl.
  - rewrite !app_nil_r. repeat split; lia.
  - destruct (IH (S u) (resume st (mkSuspended u k ttlSec None))) as (Hc & Hh & Hp).
    { simpl. now rewrite Hu. }
    simpl in Hc, Hh, Hp.
    rewrite Hc, Hh, Hp. simpl. rewrite Hu, <- !app_assoc. simpl.
    repeat split; lia.
Qed.

(** C9, for callers of one turn: [n] calls for the same key made in one turn
    of the event loop against a cold cache start the upstream function [n]
    times, one call per caller, each caller waiting on a promise of its own.
    Every call passes the in-flight check before any of them, resumed from
    its cache read, stores a promise. *)
Theorem burst_calls_upstream_per_caller (n : nat) (k : string) (ttlSec t : Z) :
  let st := burst (cold (V := V) t) (sameKey n k ttlSec) in
  upstreamCalls st = n
  /\ handles st = map (fun c => (c, InFlight c)) (seq 0 n)
  /\ length (pending st) = n.
Proof.
  unfold burst, sameKey, drain.
  rewrite calls_suspend by (simpl; apply lookup_empty).
  rewrite getVaultData_cold. simpl.
  destruct (resumes_miss k ttlSec n 0
              (mkState ∅ ∅ ∅ t [] [] 0%nat [] [])) as (Hc & Hh & Hp);
    [reflexivity |].
  simpl in Hc, Hh, Hp.
  rewrite Hc, Hh, Hp, length_map, length_seq.
  repeat split.
Qed.

Lemma drain_idle (st : State V) : microtasks st = [] -> drain st = st.
Proof.
  intros Hidle. unfold drain. rewrite Hidle. simpl.
  destruct st; simpl in *. now subst.
Qed.

(** Calls that find a promise in flight wait on it. *)
Lemma calls_join (k : string) (ttlSec : Z) (p : PromiseId) (cs : list nat) :
  forall st : State V,
    requestCache st !! ("dedup:" ++ k) = Some p ->
    microtasks st = [] ->
    let st' := oneByOne st (map (fun c => (c, k, ttlSec)) cs) in
    upstreamCalls st' = upstreamCalls st
    /\ handles st' = (handles st ++ map (fun c => (c, InFlight p)) cs)%list.
Proof.
  unfold oneByOne.
  induction cs as [| c cs IH]; intros st Hp Hidle; cbn [map fold_left].
  - now rewrite app_nil_r.
  - assert (Hcall : call st (c, k, ttlSec) = hand st c (InFlight p)).
    { unfold call. now rewrite Hp. }
    rewrite Hcall, drain_idle by exact Hidle.
    destruct (IH (hand st c (InFlight p))) as (Hc & Hh); [exact Hp | exact Hidle |].
    rewrite Hc, Hh. simpl. now rewrite <- app_assoc.
Qed.

(** X3.  Callers for one key that arrive in turns of their own while the
    cache is cold are deduplicated: one upstream call, and every caller waits
    on its promise. *)
Theorem oneByOne_calls_upstream_once (n : nat) (k : string) (ttlSec t : Z) :
  let st := oneByOne (cold (V := V) t) (sameKey (S n) k ttlSec) in
  upstreamCalls st = 1%nat
  /\ handles st = map (fun c => (c, InFlight 0%nat)) (seq 0 (S n)).
Proof.
  unfold sameKey, oneByOne. cbn [seq map fold_left].
  set (st1 := drain (call (cold (V := V) t) (0%nat, k, ttlSec))).
  assert (Hst1 : st1
                 = mkState ∅ ∅ (<["dedup:" ++ k := 0%nat]> ∅) t []
                     [mkUpstream 0%nat k ttlSec] 1%nat [(0%nat, InFlight 0%nat)] []).
  { unfold st1, call, drain, cold; simpl.
    rewrite lookup_empty; simpl.
    unfold resume, getVaultData; simpl.
    now rewrite lookup_empty. }
  destruct (calls_join k ttlSec 0%nat (seq 1 n) st1) as (Hc & Hh).
  - rewrite Hst1; simpl. apply lookup_insert_eq.
  - now rewrite Hst1.
  - unfold oneByOne in Hc, Hh. rewrite Hc, Hh, Hst1. simpl. tauto.
Qed.

End DedupFacts.

Section SimilarityFacts.

Import Similarity.

Lemma cellOf_nil_r (a : list ascii) : cellOf a [] = length a.
Proof. destruct a; reflexivity. Qed.

Lemma cellOf_nil_l (b : list ascii) : cellOf [] b = length b.
Proof. destruct b; reflexivity. Qed.

Lemma cellOf_cons (x y : ascii) (a b : list ascii) :
  cellOf (x :: a) (y :: b)
  = if Ascii.eqb x y then cellOf a b
    else Nat.min (Nat.min (cellOf a b + 1) (cellOf (x :: a) b + 1)) (cellOf a (y :: b) + 1).
Proof. reflexivity. Qed.

Lemma cellOf_sym (a b : list ascii) : cellOf a b = cellOf b a.
Proof.
  revert b. induction a as [| x a IHa]; intros b.
  - now rewrite cellOf_nil_r, cellOf_nil_l.
  - induction b as [| y b IHb].
    + reflexivity.
    + rewrite !cellOf_cons, Ascii.eqb_sym.
      rewrite IHb, (IHa b), (IHa (y :: b)).
      destruct (Ascii.eqb y x); [reflexivity | lia].
Qed.

Lemma cellOf_bounds (a b : list ascii) :
  (length a - length b <= cellOf a b
   /\ length b - length a <= cellOf a b
   /\ cellOf a b <= Nat.max (length a) (length b))%nat.
Proof.
  revert b. induction a as [| x a IHa]; intros b.
  - rewrite cellOf_nil_l. simpl. lia.
  - induction b as [| y b IHb].
    + simpl. lia.
    + rewrite cellOf_cons.
      pose proof (IHa b). pose proof (IHa (y :: b)).
      destruct (Ascii.eqb x y); simpl in *; lia.
Qed.

Lemma cellOf_zero (a b : list ascii) : cellOf a b = 0%nat <-> a = b.
Proof.
  revert b. induction a as [| x a IHa]; intros b.
  - rewrite cellOf_nil_l. destruct b; simpl; split; congruence.
  - destruct b as [| y b].
    + simpl. split; congruence.
    + rewrite cellOf_cons.
      destruct (Ascii.eqb_spec x y) as [-> | Hne].
      * rewrite IHa. split; congruence.
      * split; [lia | congruence].
Qed.

Lemma prefixesFrom_length (pre rest : list ascii) :
  length (prefixesFrom pre rest) = length rest.
Proof.
  revert pre. induction rest as [| c r IH]; intros pre; simpl; [| rewrite IH]; reflexivity.
Qed.

(** The row of the matrix that stands for the text [a]. *)
Lemma fillRow_cells (c2 : ascii) (a : list ascii) (rest : list ascii) :
  forall pre : list ascii,
    fillRow c2 rest (map (cellOf a) (pre :: prefixesFrom pre rest))
      (cellOf (c2 :: a) pre)
    = map (cellOf (c2 :: a)) (prefixesFrom pre rest).
Proof.
  induction rest as [| c1 rest IH]; intros pre.
  - reflexivity.
  - cbn [prefixesFrom map fillRow].
    change (if Ascii.eqb c2 c1 then cellOf a pre
            else Nat.min (Nat.min (cellOf a pre + 1) (cellOf (c2 :: a) pre + 1))
                   (cellOf a (c1 :: pre) + 1))
      with (cellOf (c2 :: a) (c1 :: pre)).
    cbv zeta. f_equal.
    apply (IH (c1 :: pre)).
Qed.

Lemma lengths_of_prefixes (rest pre : list ascii) :
  seq (S (length pre)) (length rest) = map (cellOf []) (prefixesFrom pre rest).
Proof.
  revert pre. induction rest as [| c r IH]; intros pre; simpl.
  - reflexivity.
  - f_equal. apply (IH (c :: pre)).
Qed.

Lemma firstRow_cells (str1 : list ascii) :
  firstRow str1 = map (cellOf []) ([] :: prefixesFrom [] str1).
Proof.
  unfold firstRow.
  change (seq 0 (S (length str1))) with (0%nat :: seq 1 (length str1)).
  cbn [map]. f_equal.
  apply (lengths_of_prefixes str1 []).
Qed.

Lemma fillRows_cells (str1 : list ascii) (str2 : list ascii) :
  forall a : list ascii,
    fillRows str2 str1 (S (length a)) (map (cellOf a) ([] :: prefixesFrom [] str1))
    = map (fun a' => map (cellOf a') ([] :: prefixesFrom [] str1))
        (prefixesFrom a str2).
Proof.
  induction str2 as [| c2 str2 IH]; intros a.
  - reflexivity.
  - cbn [fillRows prefixesFrom map].
    assert (Hrow : S (length a) :: fillRow c2 str1
                     (cellOf a [] :: map (cellOf a) (prefixesFrom [] str1))
                     (S (length a))
                   = cellOf (c2 :: a) []
                     :: map (cellOf (c2 :: a)) (prefixesFrom [] str1)).
    { f_equal.
      change (S (length a)) with (cellOf (c2 :: a) []).
      apply (fillRow_cells c2 a str1 []). }
    rewrite Hrow. f_equal.
    apply (IH (c2 :: a)).
Qed.

Lemma nth_prefixesFrom (pre rest : list ascii) :
  nth (length rest) (pre :: prefixesFrom pre rest) [] = (rev rest ++ pre)%list.
Proof.
  revert pre. induction rest as [| c r IH]; intros pre.
  - reflexivity.
  - simpl. rewrite <- app_assoc. apply (IH (c :: pre)).
Qed.

Lemma levenshteinDistance_cellOf (str1 str2 : string) :
  levenshteinDistance str1 str2
  = cellOf (rev (list_ascii_of_string str2)) (rev (list_ascii_of_string str1)).
Proof.
  unfold levenshteinDistance, matrix.
  set (s1 := list_ascii_of_string str1).
  set (s2 := list_ascii_of_string str2).
  rewrite firstRow_cells.
  pose proof (fillRows_cells s1 s2 []) as Hrows.
  cbn [length] in Hrows. rewrite Hrows. clear Hrows.
  change (map (cellOf []) ([] :: prefixesFrom [] s1)
          :: map (fun a' => map (cellOf a') ([] :: prefixesFrom [] s1))
               (prefixesFrom [] s2))
    with (map (fun a' => map (cellOf a') ([] :: prefixesFrom [] s1))
            ([] :: prefixesFrom [] s2)).
  rewrite (nth_indep _ [] (map (cellOf []) ([] :: prefixesFrom [] s1))).
  2: { rewrite length_map; simpl. rewrite prefixesFrom_length. lia. }
  rewrite (map_nth (fun a' => map (cellOf a') ([] :: prefixesFrom [] s1))).
  rewrite nth_prefixesFrom, app_nil_r.
  rewrite (nth_indep _ 0%nat (cellOf (rev s2) [])).
  2: { rewrite length_map; simpl. rewrite prefixesFrom_length. lia. }
  rewrite (map_nth (cellOf (rev s2))).
  now rewrite nth_prefixesFrom, app_nil_r.
Qed.

Lemma length_list_ascii_of_string (s : string) :
  length (list_ascii_of_string s) = String.length s.
Proof. induction s as [| c s IH]; simpl; [| rewrite IH]; reflexivity. Qed.

Lemma list_ascii_of_string_inj (s t : string) :
  list_ascii_of_string s = list_ascii_of_string t -> s = t.
Proof.
  intros H.
  rewrite <- (string_of_list_ascii_of_string s), <- (string_of_list_ascii_of_string t).
  now rewrite H.
Qed.

Lemma levenshteinDistance_sym (str1 str2 : string) :
  levenshteinDistance str1 str2 = levenshteinDistance str2 str1.
Proof. rewrite !levenshteinDistance_cellOf. apply cellOf_sym. Qed.

Lemma levenshteinDistance_zero (str1 str2 : string) :
  levenshteinDistance str1 str2 = 0%nat <-> str1 = str2.
Proof.
  rewrite levenshteinDistance_cellOf, cellOf_zero. split.
  - intros H. apply (f_equal (@rev ascii)) in H. rewrite !rev_involutive in H.
    symmetry. now apply list_ascii_of_string_inj.
  - now intros ->.
Qed.

Lemma levenshteinDistance_bounds (str1 str2 : string) :
  (String.length str1 - String.length str2 <= levenshteinDistance str1 str2
   /\ String.length str2 - String.length str1 <= levenshteinDistance str1 str2
   /\ levenshteinDistance str1 str2
      <= Nat.max (String.length str1) (String.length str2))%nat.
Proof.
  rewrite levenshteinDistance_cellOf.
  pose proof (cellOf_bounds (rev (list_ascii_of_string str2))
                (rev (list_ascii_of_string str1))) as H.
  rewrite !length_rev, !length_list_ascii_of_string in H. lia.
Qed.

End SimilarityFacts.

(** X6.  levenshteinDistance is symmetric, is 0 exactly for equal strings,
    and lies between the difference of the two lengths and the greater
    length. *)
Theorem levenshteinDistance_is_a_distance (str1 str2 : string) :
  Similarity.levenshteinDistance str1 str2 = Similarity.levenshteinDistance str2 str1
  /\ (Similarity.levenshteinDistance str1 str2 = 0%nat <-> str1 = str2)
  /\ (Nat.max (String.length str1) (String.length str2)
      - Nat.min (String.length str1) (String.length str2)
      <= Similarity.levenshteinDistance str1 str2
      <= Nat.max (String.length str1) (String.length str2))%nat.
Proof.
  split; [apply levenshteinDistance_sym |].
  split; [apply levenshteinDistance_zero |].
  pose proof (levenshteinDistance_bounds str1 str2). lia.
Qed.

Lemma similarity_ratio (n d : nat) :
  (0 < n)%nat -> (d <= n)%nat ->
  let r := (inject_Z (Z.of_nat n - Z.of_nat d) / inject_Z (Z.of_nat n))%Q in
  (0 <= r)%Q /\ (r <= 1)%Q /\ ((r == 1)%Q <-> d = 0%nat).
Proof.
  intros Hn Hd r.
  assert (Hpos : (0 < inject_Z (Z.of_nat n))%Q).
  { replace 0%Q with (inject_Z 0) by reflexivity. rewrite <- Zlt_Qlt. lia. }
  split; [| split].
  - apply Qle_shift_div_l; [exact Hpos |].
    rewrite Qmult_0_l.
    replace 0%Q with (inject_Z 0) by reflexivity. rewrite <- Zle_Qle. lia.
  - apply Qle_shift_div_r; [exact Hpos |].
    rewrite Qmult_1_l, <- Zle_Qle. lia.
  - split.
    + intros H.
      assert (H' : (inject_Z (Z.of_nat n - Z.of_nat d) == inject_Z (Z.of_nat n))%Q).
      { unfold r in H. apply (Qmult_inj_r _ _ (/ inject_Z (Z.of_nat n))).
        - intros Hz. apply (Qinv_lt_0_compat) in Hpos. lra.
        - unfold Qdiv in H. rewrite H. rewrite Qmult_inv_r; [reflexivity | lra]. }
      unfold Qeq in H'; simpl in H'. lia.
    + intros ->. unfold r. rewrite Z.sub_0_r.
      unfold Qdiv. apply Qmult_inv_r. lra.
Qed.

(** X7.  calculateStringSimilarity lies between 0 and 1, is 1 exactly for
    equal strings, and does not depend on the order of its arguments. *)
Theorem similarity_is_normalised (str1 str2 : string) :
  (0 <= Similarity.calculateStringSimilarity str1 str2 <= 1)%Q
  /\ ((Similarity.calculateStringSimilarity str1 str2 == 1)%Q <-> str1 = str2)
  /\ (Similarity.calculateStringSimilarity str1 str2
      == Similarity.calculateStringSimilarity str2 str1)%Q.
Proof.
  unfold Similarity.calculateStringSimilarity.
  destruct (Nat.ltb_spec (String.length str2) (String.length str1)) as [Hlt | Hge];
    destruct (Nat.ltb_spec (String.length str1) (String.length str2)) as [Hlt' | Hge'];
    try lia.
  - (* str1 is the longer *)
    destruct (Nat.eqb_spec (String.length str1) 0) as [Hz | Hnz]; [lia |].
    pose proof (levenshteinDistance_bounds str1 str2) as Hb.
    destruct (similarity_ratio (String.length str1)
                (Similarity.levenshteinDistance str1 str2)) as (H0 & H1 & Heq);
      [lia | lia |].
    repeat split; try assumption; try reflexivity.
    + intros H. apply Heq in H. now apply levenshteinDistance_zero.
    + intros H. apply Heq. now apply levenshteinDistance_zero.
  - (* str2 is the longer *)
    destruct (Nat.eqb_spec (String.length str2) 0) as [Hz | Hnz]; [lia |].
    pose proof (levenshteinDistance_bounds str2 str1) as Hb.
    destruct (similarity_ratio (String.length str2)
                (Similarity.levenshteinDistance str2 str1)) as (H0 & H1 & Heq);
      [lia | lia |].
    repeat split; try assumption; try reflexivity.
    + intros H. apply Heq in H. symmetry. now apply levenshteinDistance_zero.
    + intros H. apply Heq. apply levenshteinDistance_zero. now symmetry.
  - (* equal lengths *)
    assert (Hlen : String.length str1 = String.length str2) by lia.
    destruct (Nat.eqb_spec (String.length str2) 0) as [Hz | Hnz].
    + rewrite Hz in Hlen. rewrite Hlen. simpl.
      repeat split; try lra; try reflexivity.
      destruct str1, str2; simpl in *; congruence.
    + destruct (Nat.eqb_spec (String.length str1) 0) as [Hz1 | _]; [lia |].
      pose proof (levenshteinDistance_bounds str2 str1) as Hb.
      destruct (similarity_ratio (String.length str2)
                  (Similarity.levenshteinDistance str2 str1)) as (H0 & H1 & Heq);
        [lia | lia |].
      repeat split; try assumption.
      * intros H. apply Heq in H. symmetry. now apply levenshteinDistance_zero.
      * intros H. apply Heq. apply levenshteinDistance_zero. now symmetry.
      * rewrite Hlen, (levenshteinDistance_sym str1 str2). reflexivity.
Qed.

Section RiskRangeFacts.

Import RiskScorer RiskRange.

Lemma lookup_In {A : Type} (k : string) (table : list (string * A)) (a : A) :
  lookup k table = Some a -> In a (map snd table).
Proof.
  induction table as [| [k' a'] table IH]; simpl; [discriminate |].
  destruct (String.eqb k k'); [intros [= ->]; now left | intros H; right; auto].
Qed.

Lemma getProtocolScore_range (protocol : string) :
  In (getProtocolScore protocol) protocolValues.
Proof.
  unfold getProtocolScore.
  destruct (String.eqb protocol ""); [simpl; tauto |].
  destruct (lookup _ protocolRiskScores) as [z |] eqn:E; simpl; [| tauto].
  apply lookup_In in E. simpl in E.
  repeat (destruct E as [<- | E]; [simpl; tauto |]). contradiction.
Qed.

Lemma getTVLScore_range (tvlUsd : Z) : In (getTVLScore tvlUsd) tvlValues.
Proof.
  unfold getTVLScore.
  repeat match goal with
         | |- context [if ?c then _ else _] => destruct c
         end; simpl; tauto.
Qed.

Lemma getAPYScore_range (apy : Q) : In (getAPYScore apy) apyValues.
Proof.
  unfold getAPYScore.
  repeat match goal with
         | |- context [if ?c then _ else _] => destruct c
         end; simpl; tauto.
Qed.

Lemma getChainScore_range (chain : string) : In (getChainScore chain) chainValues.
Proof.
  unfold getChainScore.
  destruct (String.eqb chain ""); [simpl; tauto |].
  destruct (lookup _ chainRiskMultipliers) as [m |] eqn:E.
  - apply lookup_In in E. simpl in E.
    repeat (destruct E as [<- | E]; [vm_compute; tauto |]). contradiction.
  - vm_compute; tauto.
Qed.

Lemma getSourceScore_range (source : string) : In (getSourceScore source) sourceValues.
Proof.
  unfold getSourceScore.
  destruct (lookup _ sourceScores) as [z |] eqn:E; simpl; [| tauto].
  apply lookup_In in E. simpl in E.
  repeat (destruct E as [<- | E]; [simpl; tauto |]). contradiction.
Qed.

Lemma getTVLScore_monotone (tvl tvl' : Z) :
  tvl <= tvl' -> getTVLScore tvl <= getTVLScore tvl'.
Proof.
  intros H. unfold getTVLScore.
  repeat match goal with
         | |- context [?a =? ?b] => destruct (Z.eqb_spec a b)
         | |- context [?a <=? ?b] => destruct (Z.leb_spec a b)
         end; simpl; lia.
Qed.

(** Every column of scores ascends and stays between 28 and 96. *)
Lemma columns_checked :
  everywhere
    (fun col => ascending col && forallb (fun w => (28 <=? w) && (w <=? 96)) col)
  = true.
Proof. vm_compute. reflexivity. Qed.

Lemma everywhere_column (check : list Z -> bool) (v : Vault) :
  everywhere check = true ->
  check (column (getProtocolScore (protocol v)) (getAPYScore (apy v))
           (getChainScore (chain v)) (getSourceScore (data_source v))) = true.
Proof.
  unfold everywhere. intros H.
  rewrite forallb_forall in H. specialize (H _ (getProtocolScore_range (protocol v))).
  rewrite forallb_forall in H. specialize (H _ (getAPYScore_range (apy v))).
  rewrite forallb_forall in H. specialize (H _ (getChainScore_range (chain v))).
  rewrite forallb_forall in H. exact (H _ (getSourceScore_range (data_source v))).
Qed.

Lemma ascending_map (f : Z -> Z) (l : list Z) :
  StronglySorted Z.lt l -> ascending (map f l) = true ->
  forall x y, In x l -> In y l -> x <= y -> f x <= f y.
Proof.
  induction 1 as [| z l Hl IH Hall]; intros Hasc x y Hx Hy Hle.
  - destruct Hx.
  - assert (Htail : ascending (map f l) = true).
    { destruct l; [reflexivity |]. simpl in Hasc.
      now apply andb_prop in Hasc as [_ Hasc]. }
    assert (Hhead : forall w, In w l -> f z <= f w).
    { clear Hx Hy x y Hle. intros w Hw.
      destruct l as [| z' l]; [destruct Hw |].
      simpl in Hasc. apply andb_prop in Hasc as [Hzz' _].
      apply Z.leb_le in Hzz'.
      destruct Hw as [<- | Hw]; [exact Hzz' |].
      inversion_clear Hl as [| ? ? Hl' Hall'].
      rewrite List.Forall_forall in Hall'.
      assert (f z' <= f w); [| lia].
      apply IH; try assumption; [now left | now right |].
      specialize (Hall' _ Hw). lia. }
    rewrite List.Forall_forall in Hall.
    destruct Hx as [<- | Hx], Hy as [<- | Hy].
    + lia.
    + now apply Hhead.
    + specialize (Hall _ Hx). lia.
    + now apply IH.
Qed.

Lemma tvlValues_sorted : StronglySorted Z.lt tvlValues.
Proof.
  unfold tvlValues.
  repeat (constructor; [| repeat (constructor; [lia |]); constructor]).
  constructor.
Qed.

Lemma riskScore_weigh (v : Vault) :
  riskScore (scoreVault v)
  = Z.max 0 (Z.min 100
       (weigh (getProtocolScore (protocol v)) (getTVLScore (tvl_usd v))
          (getAPYScore (apy v)) (getChainScore (chain v))
          (getSourceScore (data_source v)))).
Proof. reflexivity. Qed.

Lemma weigh_bounds (v : Vault) :
  28 <= weigh (getProtocolScore (protocol v)) (getTVLScore (tvl_usd v))
          (getAPYScore (apy v)) (getChainScore (chain v))
          (getSourceScore (data_source v)) <= 96.
Proof.
  pose proof (everywhere_column _ v columns_checked) as H.
  apply andb_prop in H as [_ H].
  rewrite forallb_forall in H.
  specialize (H (weigh (getProtocolScore (protocol v)) (getTVLScore (tvl_usd v))
                   (getAPYScore (apy v)) (getChainScore (chain v))
                   (getSourceScore (data_source v)))).
  unfold column in H. rewrite in_map_iff in H.
  assert (Hin : exists t, weigh (getProtocolScore (protocol v)) t
                            (getAPYScore (apy v)) (getChainScore (chain v))
                            (getSourceScore (data_source v))
                          = weigh (getProtocolScore (protocol v))
                              (getTVLScore (tvl_usd v))
                              (getAPYScore (apy v)) (getChainScore (chain v))
                              (getSourceScore (data_source v))
                          /\ In t tvlValues).
  { exists (getTVLScore (tvl_usd v)). split; [reflexivity | apply getTVLScore_range]. }
  apply H in Hin. lia.
Qed.

End RiskRangeFacts.

(** X8.  For a vault whose protocol, chain and data source are no names that
    every object inherits (such as [constructor], under which the tables of
    the scorer answer with a member of [Object.prototype] and the score is
    not a number), the risk score that calculateRiskScore computes lies
    between 28 and 96: the clamp to 0..100 never applies, the score is the
    rounded weighted sum itself. *)
Theorem risk_score_range (vaultData : Vault) :
  RiskScorer.ownNames vaultData = true ->
  28 <= RiskScorer.riskScore (RiskScorer.scoreVault vaultData) <= 96
  /\ RiskScorer.riskScore (RiskScorer.scoreVault vaultData)
     = RiskRange.weigh (RiskScorer.getProtocolScore (protocol vaultData))
         (RiskScorer.getTVLScore (tvl_usd vaultData))
         (RiskScorer.getAPYScore (apy vaultData))
         (RiskScorer.getChainScore (chain vaultData))
         (RiskScorer.getSourceScore (data_source vaultData)).
Proof.
  intros _.
  rewrite riskScore_weigh.
  pose proof (weigh_bounds vaultData). lia.
Qed.

Lemma risk_score_range_witness :
  RiskScorer.riskScore (RiskScorer.scoreVault Examples.riskyVault) = 43
  /\ 28 <= RiskScorer.riskScore (RiskScorer.scoreVault Examples.riskyVault) <= 96.
Proof.
  split; [vm_compute; reflexivity |].
  apply (risk_score_range Examples.riskyVault). reflexivity.
Defined.

(** X9.  With everything else equal, a greater TVL never lowers the risk
    score. *)
Theorem risk_score_monotone_in_tvl (vaultData : Vault) (tvl tvl' : Z) :
  tvl <= tvl' ->
  RiskScorer.riskScore (RiskScorer.scoreVault (RiskRange.with_tvl_usd tvl vaultData))
  <= RiskScorer.riskScore (RiskScorer.scoreVault (RiskRange.with_tvl_usd tvl' vaultData)).
Proof.
  intros Hle.
  rewrite !riskScore_weigh. cbn [RiskRange.with_tvl_usd protocol tvl_usd apy chain data_source].
  pose proof (everywhere_column _ vaultData columns_checked) as H.
  apply andb_prop in H as [Hasc _].
  pose proof (ascending_map _ _ tvlValues_sorted Hasc
                (RiskScorer.getTVLScore tvl) (RiskScorer.getTVLScore tvl')
                (getTVLScore_range tvl) (getTVLScore_range tvl')
                (getTVLScore_monotone tvl tvl' Hle)) as Hmono.
  simpl in Hmono. lia.
Qed.

Lemma risk_score_monotone_witness :
  RiskScorer.riskScore
    (RiskScorer.scoreVault (RiskRange.with_tvl_usd 20000 Examples.riskyVault))
  <= RiskScorer.riskScore
       (RiskScorer.scoreVault (RiskRange.with_tvl_usd 2000000 Examples.riskyVault)).
Proof.
  apply (risk_score_monotone_in_tvl Examples.riskyVault 20000 2000000). lia.
Defined.

Section ProvenanceFacts.

Import Reconciler Provenance.

Lemma map_set_In (k : string) (t : Tagged) (m : VaultMap) (e : string * Tagged) :
  In e (map_set k t m) -> e = (k, t) \/ In e m.
Proof.
  induction m as [| [k' t'] m IH]; simpl.
  - intros [<- | []]. now left.
  - destruct (String.eqb_spec k k') as [-> | Hne]; simpl.
    + intros [<- | H]; [now left | right; now right].
    + intros [<- | H]; [right; now left |].
      destruct (IH H) as [-> | Hin]; [now left | right; now right].
Qed.

Lemma map_set_has_key (k : string) (t : Tagged) (m : VaultMap) :
  In k (map fst (map_set k t m)).
Proof.
  induction m as [| [k' t'] m IH]; simpl.
  - now left.
  - destruct (String.eqb_spec k k') as [-> | Hne]; simpl; [now left | now right].
Qed.

Lemma map_set_keeps_keys (k k0 : string) (t : Tagged) (m : VaultMap) :
  In k0 (map fst m) -> In k0 (map fst (map_set k t m)).
Proof.
  induction m as [| [k' t'] m IH]; simpl.
  - intros [].
  - destruct (String.eqb_spec k k') as [-> | Hne]; simpl; [tauto |].
    intros [-> | H]; [now left | right; now apply IH].
Qed.

Lemma addVaultsFyi_storesOrSkips : storesOrSkips addVaultsFyi.
Proof.
  intros m v. unfold addVaultsFyi.
  destruct (map_get (key v) m) as [existing |] eqn:E; [| now left].
  destruct (overrides v existing); [now left | right; split; congruence].
Qed.

Lemma addVaultsFyiLending_storesOrSkips : storesOrSkips addVaultsFyiLending.
Proof.
  intros m v. unfold addVaultsFyiLending.
  destruct (map_get (key v) m) as [existing |] eqn:E; [| now left].
  destruct (tvl_usd (record existing) <? tvl_usd v);
    [now left | right; split; congruence].
Qed.

Lemma first_loop (A : list Vault) :
  forall m : VaultMap,
    let m' := fold_left addDefiLlama A m in
    (forall e, In e m' ->
       In e m \/ (source_priority (snd e) = "defillama" /\ In (record (snd e)) A))
    /\ (forall k, In k (map fst m) \/ In k (map key A) -> In k (map fst m')).
Proof.
  induction A as [| v A IH]; intros m; simpl.
  - split; [tauto | intros k [H | []]; exact H].
  - destruct (IH (addDefiLlama m v)) as [Hfrom Hkeys]. split.
    + intros e He. destruct (Hfrom e He) as [Hin | [Htag Hrec]].
      * unfold addDefiLlama in Hin.
        destruct (map_set_In _ _ _ _ Hin) as [-> | Hm]; [| now left].
        right. simpl. split; [reflexivity | now left].
      * right. split; [exact Htag | now right].
    + intros k Hk. apply Hkeys. unfold addDefiLlama.
      destruct Hk as [Hk | [<- | Hk]].
      * left. now apply map_set_keeps_keys.
      * left. apply map_set_has_key.
      * now right.
Qed.

Lemma second_loop (step : VaultMap -> Vault -> VaultMap) (B : list Vault) :
  storesOrSkips step ->
  forall m : VaultMap,
    let m' := fold_left step B m in
    (forall e, In e m' ->
       In e m \/ (source_priority (snd e) = "vaultsfyi" /\ In (record (snd e)) B))
    /\ (forall k, In k (map fst m) \/ In k (map key B) -> In k (map fst m')).
Proof.
  intros Hstep. induction B as [| v B IH]; intros m; simpl.
  - split; [tauto | intros k [H | []]; exact H].
  - destruct (IH (step m v)) as [Hfrom Hkeys]. split.
    + intros e He. destruct (Hfrom e He) as [Hin | [Htag Hrec]].
      * destruct (Hstep m v) as [Heq | [Heq _]]; rewrite Heq in Hin.
        -- destruct (map_set_In _ _ _ _ Hin) as [-> | Hm]; [| now left].
           right. simpl. split; [reflexivity | now left].
        -- now left.
      * right. split; [exact Htag | now right].
    + intros k Hk. apply Hkeys.
      destruct (Hstep m v) as [Heq | [Heq Hpresent]]; rewrite Heq.
      * destruct Hk as [Hk | [<- | Hk]].
        -- left. now apply map_set_keeps_keys.
        -- left. apply map_set_has_key.
        -- now right.
      * destruct Hk as [Hk | [<- | Hk]].
        -- now left.
        -- left. destruct (map_get (key v) m) eqn:E; [| congruence].
           apply map_get_In in E. now apply (in_map fst) in E.
        -- now right.
Qed.

Lemma merged_provenance (step : VaultMap -> Vault -> VaultMap) (A B : list Vault) :
  storesOrSkips step ->
  (forall m v, wellKeyed m -> wellKeyed (step m v)) ->
  let out := map snd (fold_left step B (fold_left addDefiLlama A [])) in
  (forall t, In t out -> fromStream A B t)
  /\ (forall v, In v (A ++ B) -> In (key v) (keysOf out)).
Proof.
  intros Hstep Hwk out.
  destruct (first_loop A []) as [HfromA HkeysA].
  destruct (second_loop step B Hstep (fold_left addDefiLlama A [])) as [HfromB HkeysB].
  simpl in *.
  assert (Hkeyed : wellKeyed (fold_left step B (fold_left addDefiLlama A []))).
  { apply fold_wellKeyed; [exact Hwk |].
    apply fold_wellKeyed; [apply addDefiLlama_wellKeyed |].
    split; constructor. }
  split.
  - intros t Ht. unfold out in Ht. apply in_map_iff in Ht as [e [<- He]].
    destruct (HfromB e He) as [Hin | H]; [| now right].
    destruct (HfromA e Hin) as [[] | H]. now left.
  - intros v Hv.
    assert (Hk : In (key v) (map fst (fold_left step B (fold_left addDefiLlama A [])))).
    { apply HkeysB. apply in_app_or in Hv as [Hv | Hv].
      - left. apply HkeysA. right. now apply in_map.
      - right. now apply in_map. }
    unfold keysOf, out. rewrite map_map.
    destruct Hkeyed as [_ Hkeyed]. unfold keyed in Hkeyed.
    rewrite List.Forall_forall in Hkeyed.
    apply in_map_iff in Hk as [e [Hfst He]].
    apply in_map_iff. exists e. split; [| exact He].
    rewrite <- Hfst. now apply Hkeyed.
Qed.

Lemma map_set_In_other (k : string) (t : Tagged) (m : VaultMap) (e : string * Tagged) :
  List.NoDup (map fst m) ->
  In e (map_set k t m) -> e = (k, t) \/ (In e m /\ fst e <> k).
Proof.
  induction m as [| [k' t'] m IH]; simpl; intros Hnd.
  - intros [<- | []]. now left.
  - inversion_clear Hnd as [| ? ? Hnotin Hnd'].
    destruct (String.eqb_spec k k') as [-> | Hne]; simpl.
    + intros [<- | H]; [now left |]. right. split; [now right |].
      intros Heq. apply Hnotin. rewrite <- Heq. now apply (in_map fst).
    + intros [<- | H]; [right; split; [now left | simpl; congruence] |].
      destruct (IH Hnd' H) as [-> | [Hin Hfst]]; [now left | right; split; [now right | exact Hfst]].
Qed.

Lemma entry_of_key (m : VaultMap) (e : string * Tagged) (k : string) (t : Tagged) :
  wellKeyed m -> In e m -> map_get k m = Some t ->
  key (record (snd e)) = k -> snd e = t.
Proof.
  intros [Hnd Hkeyed] He Hget Hk.
  unfold keyed in Hkeyed. rewrite List.Forall_forall in Hkeyed.
  pose proof (Hkeyed _ He) as Hfst.
  destruct e as [k' t']; simpl in *.
  assert (Hget' : map_get k' m = Some t') by now apply In_map_get.
  congruence.
Qed.

(** One step of the second loop of collectFromLendingSources: no report seen
    so far has more TVL than the stored record of its key. *)
Lemma lending_step (m : VaultMap) (seen : list Vault) (v : Vault) :
  wellKeyed m ->
  (forall w, In w seen -> In (key w) (map fst m)) ->
  (forall e, In e m -> notBelow seen (snd e)) ->
  forall e, In e (addVaultsFyiLending m v) -> notBelow (seen ++ [v]) (snd e).
Proof.
  intros Hwk Hseen Hinv e He w Hw Hkey.
  pose proof Hwk as [Hnd Hkeyed].
  unfold keyed in Hkeyed. rewrite List.Forall_forall in Hkeyed.
  apply in_app_or in Hw.
  unfold addVaultsFyiLending in He.
  destruct (map_get (key v) m) as [existing |] eqn:E.
  - pose proof (map_get_In _ _ _ E) as Hexisting.
    pose proof (Hkeyed _ Hexisting) as Hexkey. simpl in Hexkey.
    destruct (Z.ltb_spec (tvl_usd (record existing)) (tvl_usd v)) as [Hlt | Hge].
    + destruct (map_set_In_other _ _ _ _ Hnd He) as [-> | [Hm Hfst]]; simpl in *.
      * destruct Hw as [Hw | [-> | []]]; [| lia].
        pose proof (Hinv _ Hexisting w Hw) as Hle. simpl in Hle.
        assert (tvl_usd w <= tvl_usd (record existing)); [apply Hle; congruence | lia].
      * destruct Hw as [Hw | [-> | []]]; [now apply (Hinv e Hm) |].
        exfalso. apply Hfst. rewrite <- (Hkeyed _ Hm). congruence.
    + destruct Hw as [Hw | [-> | []]]; [now apply (Hinv e He) |].
      rewrite (entry_of_key m e (key w) existing Hwk He E); [lia | congruence].
  - apply map_get_None in E.
    destruct (map_set_In _ _ _ _ He) as [-> | Hm]; simpl in *.
    + destruct Hw as [Hw | [-> | []]]; [| lia].
      exfalso. apply E. rewrite <- Hkey. now apply Hseen.
    + destruct Hw as [Hw | [-> | []]]; [now apply (Hinv e Hm) |].
      exfalso. apply E. rewrite Hkey, (Hkeyed _ Hm). now apply (in_map fst).
Qed.

Lemma lending_loop (B : list Vault) :
  forall (m : VaultMap) (seen : list Vault),
    wellKeyed m ->
    (forall w, In w seen -> In (key w) (map fst m)) ->
    (forall e, In e m -> notBelow seen (snd e)) ->
    forall e, In e (fold_left addVaultsFyiLending B m) ->
      notBelow (seen ++ B) (snd e).
Proof.
  induction B as [| v B IH]; intros m seen Hwk Hseen Hinv e He; simpl in He.
  - rewrite app_nil_r. now apply Hinv.
  - replace (seen ++ v :: B)%list with ((seen ++ [v]) ++ B)%list
      by now rewrite <- app_assoc.
    apply (IH (addVaultsFyiLending m v) (seen ++ [v])%list); try assumption.
    + now apply addVaultsFyiLending_wellKeyed.
    + intros w Hw. apply in_app_or in Hw as [Hw | [-> | []]].
      * destruct (addVaultsFyiLending_storesOrSkips m v) as [-> | [-> _]];
          [apply map_set_keeps_keys |]; now apply Hseen.
      * destruct (addVaultsFyiLending_storesOrSkips m w) as [-> | [-> Hp]];
          [apply map_set_has_key |].
        destruct (map_get (key w) m) eqn:E; [| congruence].
        apply map_get_In in E. now apply (in_map fst) in E.
    + now apply lending_step.
Qed.

End ProvenanceFacts.

(** X10.  Reconciliation invents and loses nothing: every merged record is a
    record of the stream its tag names, and the key (lower-cased
    [address-chain]) of every input record is the key of a merged record.
    The same holds of collectFromLendingSources. *)
Theorem merge_keeps_every_key (defiLlamaVaults vaultsFyiVaults : list Vault) :
  let out := Reconciler.collectFromAllSources defiLlamaVaults vaultsFyiVaults in
  let lending := Reconciler.collectFromLendingSources defiLlamaVaults vaultsFyiVaults in
  (forall t, In t out -> Provenance.fromStream defiLlamaVaults vaultsFyiVaults t)
  /\ (forall v, In v (defiLlamaVaults ++ vaultsFyiVaults) ->
        In (Reconciler.key v) (Provenance.keysOf out))
  /\ (forall t, In t lending -> Provenance.fromStream defiLlamaVaults vaultsFyiVaults t)
  /\ (forall v, In v (defiLlamaVaults ++ vaultsFyiVaults) ->
        In (Reconciler.key v) (Provenance.keysOf lending)).
Proof.
  intros out lending.
  destruct (merged_provenance Reconciler.addVaultsFyi defiLlamaVaults vaultsFyiVaults
              addVaultsFyi_storesOrSkips addVaultsFyi_wellKeyed) as [H1 H2].
  destruct (merged_provenance Reconciler.addVaultsFyiLending defiLlamaVaults
              vaultsFyiVaults addVaultsFyiLending_storesOrSkips
              addVaultsFyiLending_wellKeyed) as [H3 H4].
  repeat split; assumption.
Qed.

(** X11.  collectFromLendingSources keeps, for every key, a record with at
    least the TVL of every Vaults.fyi report of that key. *)
Theorem lending_merge_keeps_greatest_tvl (defiLlamaVaults vaultsFyiVaults : list Vault) :
  forall t : Reconciler.Tagged,
    In t (Reconciler.collectFromLendingSources defiLlamaVaults vaultsFyiVaults) ->
    forall v : Vault,
      In v vaultsFyiVaults ->
      Reconciler.key v = Reconciler.key (Reconciler.record t) ->
      tvl_usd v <= tvl_usd (Reconciler.record t).
Proof.
  intros t Ht.
  unfold Reconciler.collectFromLendingSources in Ht.
  apply in_map_iff in Ht as [e [<- He]].
  apply (lending_loop vaultsFyiVaults
           (fold_left Reconciler.addDefiLlama defiLlamaVaults []) []); try assumption.
  - apply fold_wellKeyed; [apply addDefiLlama_wellKeyed | split; constructor].
  - intros v [].
  - intros e' _ v [].
Qed.

Lemma lending_merge_witness :
  Reconciler.collectFromLendingSources [Examples.fromDefiLlama] [Examples.fromVaultsFyi]
  = [Reconciler.mkTagged Examples.fromDefiLlama "defillama"]
  /\ tvl_usd Examples.fromVaultsFyi <= tvl_usd Examples.fromDefiLlama.
Proof.
  split; [reflexivity |].
  apply (lending_merge_keeps_greatest_tvl [Examples.fromDefiLlama]
           [Examples.fromVaultsFyi]
           (Reconciler.mkTagged Examples.fromDefiLlama "defillama")).
  - simpl. left. reflexivity.
  - simpl. left. reflexivity.
  - reflexivity.
Defined.

Section CacheFacts.

Import CacheManager CacheOps.

Context {V : Type}.

Lemma getVaultData_readAt (st : State V) (k : string) :
  getVaultData st k = readAt (memoryCache st) (memoryTTL st) (now st) ("vault:" ++ k).
Proof. reflexivity. Qed.

Lemma readAt_insert (cache : gmap string V) (ttls : gmap string Z) (t e : Z)
    (k k' : string) (v : V) :
  readAt (<[k := v]> cache) (<[k := e]> ttls) t k'
  = if String.eqb k k' then (if t <? e then Some v else None)
    else readAt cache ttls t k'.
Proof.
  unfold readAt.
  destruct (String.eqb_spec k k') as [-> | Hne].
  - now rewrite !lookup_insert_eq.
  - now rewrite !lookup_insert_ne by exact Hne.
Qed.

(** What cleanupMemoryCache deletes could not be read any more. *)
Lemma cleanup_unobservable (st : State V) (t : Z) (k : string) :
  now st <= t ->
  readAt (memoryCache (cleanupMemoryCache st)) (memoryTTL (cleanupMemoryCache st)) t k
  = readAt (memoryCache st) (memoryTTL st) t k.
Proof.
  intros Ht. unfold readAt, cleanupMemoryCache; simpl.
  destruct (memoryTTL st !! k) as [e |] eqn:Ettl.
  - destruct (Z.ltb_spec (now st) e) as [Hlive | Hdead].
    + rewrite (map_lookup_filter_Some_2 _ (memoryTTL st) k e Ettl) by (simpl; lia).
      destruct (memoryCache st !! k) as [v |] eqn:Ecache.
      * rewrite (map_lookup_filter_Some_2 _ (memoryCache st) k v Ecache); [reflexivity |].
        unfold expired; simpl. rewrite Ettl. apply Z.leb_gt. lia.
      * rewrite (proj2 (map_lookup_filter_None _ (memoryCache st) k)); [reflexivity |].
        now left.
    + assert (Hlate : (t <? e) = false) by (apply Z.ltb_ge; lia).
      rewrite Hlate.
      destruct (filter _ (memoryCache st) !! k);
        [destruct (filter _ (memoryTTL st) !! k) as [e' |] eqn:E' |].
      * apply map_lookup_filter_Some in E' as [E' Hp]. simpl in Hp.
        rewrite Ettl in E'. injection E' as <-. lia.
      * now destruct (memoryCache st !! k).
      * now destruct (memoryCache st !! k).
  - rewrite (proj2 (map_lookup_filter_None _ (memoryTTL st) k)) by now left.
    destruct (filter _ (memoryCache st) !! k), (memoryCache st !! k); reflexivity.
Qed.

Lemma vault_key_inj (k k' : string) : "vault:" ++ k = "vault:" ++ k' -> k = k'.
Proof. intros H. now injection H. Qed.

(** A read after setVaultData, at any later time. *)
Lemma read_after_set (st : State V) (k : string) (data : V) (ttlSec t : Z) (k' : string) :
  now st <= t ->
  getVaultData (advance t (setVaultData st k data ttlSec)) k'
  = if String.eqb k k' then (if t <? now st + ttlSec * 1000 then Some data else None)
    else getVaultData (advance t st) k'.
Proof.
  intros Ht.
  rewrite !getVaultData_readAt. unfold setVaultData.
  cbn [advance memoryCache memoryTTL now].
  rewrite cleanup_unobservable by exact Ht.
  cbn [memoryCache memoryTTL].
  rewrite readAt_insert.
  destruct (String.eqb_spec k k') as [-> | Hne].
  - now rewrite String.eqb_refl.
  - destruct (String.eqb_spec ("vault:" ++ k) ("vault:" ++ k')) as [Heq | _];
      [now apply vault_key_inj in Heq | reflexivity].
Qed.

(** X12.  What setVaultData stores under a key is read back by getVaultData
    until the time to live has passed and no longer after it, and the reads
    of every other key are what they were before. *)
Theorem cache_round_trip (st : State V) (k : string) (data : V) (ttlSec t : Z) :
  now st <= t ->
  getVaultData (advance t (setVaultData st k data ttlSec)) k
  = (if t <? now st + ttlSec * 1000 then Some data else None)
  /\ (forall k' : string,
        k' <> k ->
        getVaultData (advance t (setVaultData st k data ttlSec)) k'
        = getVaultData (advance t st) k').
Proof.
  intros Ht. split.
  - rewrite read_after_set by exact Ht. now rewrite String.eqb_refl.
  - intros k' Hne. rewrite read_after_set by exact Ht.
    destruct (String.eqb_spec k k'); [congruence | reflexivity].
Qed.

(** X13.  invalidatePattern leaves no readable entry whose full key (prefix
    included) contains the pattern, and changes no read of another key. *)
Theorem invalidatePattern_removes_matches (st : State V) (pattern k : string) :
  getVaultData (invalidatePattern st pattern) k
  = (if JS.includes pattern ("vault:" ++ k) then None else getVaultData st k)
  /\ getRiskScore (invalidatePattern st pattern) k
     = (if JS.includes pattern ("risk:" ++ k) then None else getRiskScore st k).
Proof.
  assert (H : forall K : string,
             readAt (memoryCache (invalidatePattern st pattern))
               (memoryTTL (invalidatePattern st pattern)) (now st) K
             = if JS.includes pattern K then None
               else readAt (memoryCache st) (memoryTTL st) (now st) K).
  { intros K. unfold readAt, invalidatePattern; simpl.
    destruct (JS.includes pattern K) eqn:Hinc.
    - rewrite (proj2 (map_lookup_filter_None _ (memoryCache st) K)); [reflexivity |].
      right. intros x _. simpl. congruence.
    - destruct (memoryCache st !! K) as [v |] eqn:Ecache.
      + rewrite (map_lookup_filter_Some_2 _ (memoryCache st) K v Ecache) by exact Hinc.
        destruct (memoryTTL st !! K) as [e |] eqn:Ettl.
        * rewrite (map_lookup_filter_Some_2 _ (memoryTTL st) K e Ettl); [reflexivity |].
          simpl. intros [Hyes _]. congruence.
        * rewrite (proj2 (map_lookup_filter_None _ (memoryTTL st) K)) by now left.
          reflexivity.
      + rewrite (proj2 (map_lookup_filter_None _ (memoryCache st) K)) by now left.
        reflexivity. }
  split.
  - rewrite !getVaultData_readAt. apply H.
  - unfold getRiskScore. apply H.
Qed.

(** The two caches live in the same maps under different prefixes. *)
Lemma risk_and_vault_entries_apart (st : State V) (k k' : string) (data : V)
    (ttlSec : Z) :
  getVaultData (setRiskScore st k data ttlSec) k' = getVaultData st k'
  /\ getRiskScore (setRiskScore st k data ttlSec) k
     = (if now st <? now st + ttlSec * 1000 then Some data else None).
Proof.
  split.
  - rewrite !getVaultData_readAt. unfold setRiskScore; cbn [memoryCache memoryTTL now].
    rewrite readAt_insert.
    destruct (String.eqb_spec ("risk:" ++ k) ("vault:" ++ k')) as [Heq | _];
      [discriminate Heq | reflexivity].
  - unfold getRiskScore, setRiskScore; cbn [memoryCache memoryTTL now].
    rewrite readAt_insert. now rewrite String.eqb_refl.
Qed.

Lemma settle_memory (st : State V) (u : Upstream) (result : V) (t : Z) (k : string) :
  getVaultData (advance t (settle st u (Fulfilled (Some result)))) k
  = getVaultData (advance t (setVaultData st (forKey u) result (ttl u))) k.
Proof. reflexivity. Qed.

(** X14.  After an upstream call has delivered a truthy result, a caller
    for the same key is answered from the cache, without a new upstream call,
    until the time to live has passed; from then on the next caller starts
    the upstream call again. *)
Theorem settled_result_is_served_from_cache (st : State V) (u : Upstream)
    (result : V) (t : Z) (c : nat) (ttlSec : Z) :
  microtasks st = [] ->
  now st <= t ->
  let settled := settle st u (Fulfilled (Some result)) in
  let st' := drain (call (advance t settled) (c, forKey u, ttlSec)) in
  if t <? now st + ttl u * 1000
  then handles st' = (handles st ++ [(c, CachedValue result)])%list
       /\ upstreamCalls st' = upstreamCalls st
  else handles st' = (handles st ++ [(c, InFlight (upstreamCalls st))])%list
       /\ upstreamCalls st' = S (upstreamCalls st).
Proof.
  intros Hidle Ht settled st'.
  assert (Hread : getVaultData (advance t settled) (forKey u)
                  = if t <? now st + ttl u * 1000 then Some result else None).
  { unfold settled. rewrite settle_memory, read_after_set by exact Ht.
    now rewrite String.eqb_refl. }
  assert (Hflight : requestCache (advance t settled) !! ("dedup:" ++ forKey u) = None).
  { unfold settled, settle, advance; simpl. apply lookup_delete_eq. }
  unfold st', call. rewrite Hflight, Hread.
  unfold drain; cbn [microtasks].
  assert (Hq : microtasks (advance t settled) = []).
  { unfold settled, settle, advance, setVaultData, cleanupMemoryCache; simpl.
    exact Hidle. }
  rewrite Hq. cbn [app fold_left].
  destruct (t <? now st + ttl u * 1000); unfold resume; simpl; split; reflexivity.
Qed.

Lemma dedup_key_inj (k k' : string) : "dedup:" ++ k = "dedup:" ++ k' -> k = k'.
Proof. intros H. now injection H. Qed.

(** X5.  When an upstream call settles, fulfilled or rejected, the entry of
    its key leaves the in-flight table and the entries of the other keys
    stay.  A truthy result is read from the cache under the key until the
    time to live has passed and no longer after it; a falsy result or a
    failure leaves every read of the cache as it was; the reads of the other
    keys are unchanged in each case.  The next caller for the key is never
    handed the settled promise: it is answered from the cache while the key
    can be read, and starts the upstream function anew otherwise. *)
Theorem settle_clears_in_flight (st : State V) (u : Upstream) (r : Settlement V)
    (t : Z) (c : nat) (ttlSec : Z) :
  microtasks st = [] ->
  now st <= t ->
  let st' := advance t (settle st u r) in
  let stored :=
    match r with
    | Fulfilled (Some result) =>
        if t <? now st + ttl u * 1000 then Some result else None
    | _ => getVaultData (advance t st) (forKey u)
    end in
  let next := drain (call st' (c, forKey u, ttlSec)) in
  (forall k : string,
      requestCache st' !! ("dedup:" ++ k)
      = if String.eqb k (forKey u) then None
        else requestCache st !! ("dedup:" ++ k))
  /\ getVaultData st' (forKey u) = stored
  /\ (forall k : string,
        k <> forKey u -> getVaultData st' k = getVaultData (advance t st) k)
  /\ handles next
     = (handles st
        ++ [(c, match stored with
                | Some v => CachedValue v
                | None => InFlight (upstreamCalls st)
                end)])%list
  /\ upstreamCalls next
     = match stored with
       | Some _ => upstreamCalls st
       | None => S (upstreamCalls st)
       end.
Proof.
  intros Hidle Ht st' stored next.
  assert (Hflight : forall k : string,
             requestCache st' !! ("dedup:" ++ k)
             = if String.eqb k (forKey u) then None
               else requestCache st !! ("dedup:" ++ k)).
  { intros k. unfold st', settle, advance; cbn [requestCache].
    assert (Hsame : forall s : State V,
               requestCache
                 match r with
                 | Fulfilled (Some result) => setVaultData s (forKey u) result (ttl u)
                 | _ => s
                 end = requestCache s)
      by (intros s; destruct r as [[result |] | e]; reflexivity).
    rewrite Hsame.
    destruct (String.eqb_spec k (forKey u)) as [-> | Hne].
    - apply lookup_delete_eq.
    - apply lookup_delete_ne. intros Heq. apply dedup_key_inj in Heq. congruence. }
  assert (Hread : forall k : string,
             getVaultData st' k
             = if String.eqb (forKey u) k then stored
               else getVaultData (advance t st) k).
  { intros k. unfold st', stored.
    destruct r as [[result |] | e].
    - rewrite settle_memory, read_after_set by exact Ht. reflexivity.
    - destruct (String.eqb_spec (forKey u) k) as [<- | _]; reflexivity.
    - destruct (String.eqb_spec (forKey u) k) as [<- | _]; reflexivity. }
  split; [exact Hflight |].
  split; [rewrite Hread; now rewrite String.eqb_refl |].
  split.
  { intros k Hne. rewrite Hread.
    destruct (String.eqb_spec (forKey u) k); [congruence | reflexivity]. }
  assert (Hq : microtasks st' = []).
  { unfold st', settle, advance; cbn [microtasks].
    destruct r as [[result |] | e]; exact Hidle. }
  assert (Hh : handles st' = handles st)
    by (unfold st'; destruct r as [[result |] | e]; reflexivity).
  assert (Hc : upstreamCalls st' = upstreamCalls st)
    by (unfold st'; destruct r as [[result |] | e]; reflexivity).
  assert (Hstored : getVaultData st' (forKey u) = stored)
    by (rewrite Hread; now rewrite String.eqb_refl).
  assert (Hnone : requestCache st' !! ("dedup:" ++ forKey u) = None)
    by (rewrite Hflight; now rewrite String.eqb_refl).
  unfold next, call. rewrite Hnone, Hstored.
  clear Hflight Hread Hstored Hnone. clearbody st'.
  unfold drain; cbn [microtasks memoryCache memoryTTL requestCache now pending
                       upstreamCalls handles settled].
  rewrite Hq. cbn [app fold_left].
  unfold resume; cbn [cached caller key ttlSeconds].
  destruct stored as [v |]; cbn; rewrite ?Hh, ?Hc; split; reflexivity.
Qed.

(** The reads after a loop of stores that all expire at [e]. *)
Lemma reads_after_stores (step : State V -> string * V -> State V) (n0 e : Z) :
  (forall s kv,
      now s = n0 ->
      now (step s kv) = n0
      /\ forall t k', n0 <= t ->
           getVaultData (advance t (step s kv)) k'
           = if String.eqb (fst kv) k' then (if t <? e then Some (snd kv) else None)
             else getVaultData (advance t s) k') ->
  forall (kvs : list (string * V)) (s : State V) (t : Z) (k : string),
    now s = n0 -> n0 <= t ->
    now (fold_left step kvs s) = n0
    /\ getVaultData (advance t (fold_left step kvs s)) k
       = match find (fun kv => String.eqb (fst kv) k) (rev kvs) with
         | Some kv => if t <? e then Some (snd kv) else None
         | None => getVaultData (advance t s) k
         end.
Proof.
  intros Hstep kvs s t k Hs Ht.
  induction kvs as [| kv kvs IH] using rev_ind; [now split |].
  destruct IH as [Hnow IH].
  rewrite fold_left_app, rev_app_distr. cbn [fold_left rev app find].
  destruct (Hstep (fold_left step kvs s) kv Hnow) as [Hnow' Hread].
  split; [exact Hnow' |].
  rewrite Hread by exact Ht.
  destruct (String.eqb (fst kv) k); [reflexivity | exact IH].
Qed.

(** X30.  setBatch is a sequence of setVaultData calls as far as reads go:
    at every later time a key reads as the last pair of the batch that names
    it, until the common expiry, and as before the batch when no pair names
    it. *)
Theorem setBatch_last_pair_wins (st : State V) (keyValuePairs : list (string * V))
    (ttlSec t : Z) (k : string) :
  now st <= t ->
  getVaultData (advance t (setBatch st keyValuePairs ttlSec)) k
  = match find (fun kv => String.eqb (fst kv) k) (rev keyValuePairs) with
    | Some kv => if t <? now st + ttlSec * 1000 then Some (snd kv) else None
    | None => getVaultData (advance t st) k
    end
  /\ getVaultData (advance t (setBatch st keyValuePairs ttlSec)) k
     = getVaultData
         (advance t
            (fold_left (fun s kv => setVaultData s (fst kv) (snd kv) ttlSec)
               keyValuePairs st)) k.
Proof.
  intros Ht.
  assert (Hbatch := fun Hstep =>
            proj2 (reads_after_stores
                     (fun s kv =>
                        mkState
                          (<["vault:" ++ fst kv := snd kv]> (memoryCache s))
                          (<["vault:" ++ fst kv := now st + ttlSec * 1000]> (memoryTTL s))
                          (requestCache s) (now s) (microtasks s) (pending s)
                          (upstreamCalls s) (handles s) (settled s))
                     (now st) (now st + ttlSec * 1000) Hstep keyValuePairs st t k
                     eq_refl Ht)).
  assert (Hseq := fun Hstep =>
            proj2 (reads_after_stores
                     (fun s kv => setVaultData s (fst kv) (snd kv) ttlSec)
                     (now st) (now st + ttlSec * 1000) Hstep keyValuePairs st t k
                     eq_refl Ht)).
  unfold setBatch. cbv zeta.
  rewrite Hbatch, Hseq; [split; reflexivity | |].
  - intros s kv Hs. split; [exact Hs |].
    intros t' k' Ht'. rewrite read_after_set by lia. now rewrite Hs.
  - intros s kv Hs. split; [exact Hs |].
    intros t' k' Ht'. rewrite !getVaultData_readAt.
    cbn [advance memoryCache memoryTTL now].
    rewrite readAt_insert.
    destruct (String.eqb_spec (fst kv) k') as [-> | Hne].
    + now rewrite String.eqb_refl.
    + destruct (String.eqb_spec ("vault:" ++ fst kv) ("vault:" ++ k')) as [Heq | _];
        [now apply vault_key_inj in Heq | reflexivity].
Qed.

End CacheFacts.

Lemma cache_round_trip_witness :
  CacheManager.getVaultData
    (CacheOps.advance 299999
       (CacheManager.setVaultData (CacheManager.cold 0) "best:USDC" 7 300))
    "best:USDC" = Some 7
  /\ CacheManager.getVaultData
       (CacheOps.advance 300000
          (CacheManager.setVaultData (CacheManager.cold 0) "best:USDC" 7 300))
       "best:USDC" = None.
Proof.
  split.
  - apply (proj1 (cache_round_trip (CacheManager.cold 0) "best:USDC" 7 300 299999
                    ltac:(simpl; lia))).
  - apply (proj1 (cache_round_trip (CacheManager.cold 0) "best:USDC" 7 300 300000
                    ltac:(simpl; lia))).
Defined.

Lemma settled_result_witness :
  CacheManager.handles
    (CacheManager.drain
       (CacheManager.call
          (CacheOps.advance 1000
             (CacheManager.settle (CacheManager.cold 0)
                (CacheManager.mkUpstream 0%nat "best:USDC" 300)
                (CacheManager.Fulfilled (Some 7))))
          (1%nat, "best:USDC", 300)))
  = [(1%nat, CacheManager.CachedValue 7)].
Proof.
  apply (settled_result_is_served_from_cache (CacheManager.cold 0)
           (CacheManager.mkUpstream 0%nat "best:USDC" 300) 7 1000 1 300).
  - reflexivity.
  - simpl. lia.
Defined.

Lemma setBatch_witness :
  CacheManager.getVaultData
    (CacheOps.advance 1000
       (CacheOps.setBatch (CacheManager.cold 0)
          [("best:USDC", 7); ("top:USDC", 8); ("best:USDC", 9)] 600))
    "best:USDC" = Some 9.
Proof.
  apply (proj1 (setBatch_last_pair_wins (CacheManager.cold 0)
                  [("best:USDC", 7); ("top:USDC", 8); ("best:USDC", 9)] 600 1000
                  "best:USDC" ltac:(simpl; lia))).
Defined.

Lemma settle_clears_in_flight_witness :
  CacheManager.handles
    (CacheManager.drain
       (CacheManager.call
          (CacheOps.advance 1000
             (CacheManager.settle
                (CacheManager.drain
                   (CacheManager.call (CacheManager.cold (V := Z) 0)
                      (0%nat, "best:USDC", 300)))
                (CacheManager.mkUpstream 0%nat "best:USDC" 300)
                (CacheManager.Rejected "timeout")))
          (1%nat, "best:USDC", 300)))
  = [(0%nat, CacheManager.InFlight 0%nat); (1%nat, CacheManager.InFlight 1%nat)].
Proof.
  apply (proj1 (proj2 (proj2 (proj2
           (settle_clears_in_flight
              (CacheManager.drain
                 (CacheManager.call (CacheManager.cold (V := Z) 0)
                    (0%nat, "best:USDC", 300)))
              (CacheManager.mkUpstream 0%nat "best:USDC" 300)
              (CacheManager.Rejected "timeout") 1000 1 300
              ltac:(reflexivity) ltac:(vm_compute; discriminate)))))).
Defined.

Section RateLimiterFacts.

Import CacheManager CacheOps RateLimiter.

Lemma counting_read (ip : string) (c t1 t : Z) (st : State RateLimitData) :
  counting ip c t1 st -> t < t1 + windowMs ->
  getVaultData (advance t st) ("rate_limit:" ++ ip)
  = Some (mkRateLimitData c (t1 + windowMs)).
Proof.
  intros [Hc (e & He & Hle)] Ht.
  unfold getVaultData, advance; simpl.
  change ("vault:" ++ "rate_limit:" ++ ip) with ("vault:rate_limit:" ++ ip).
  rewrite Hc, He.
  destruct (Z.ltb_spec t e); [reflexivity | lia].
Qed.

Lemma counting_set (ip : string) (c t1 : Z) (st : State RateLimitData) :
  t1 <= now st ->
  counting ip c t1
    (setVaultData st ("rate_limit:" ++ ip) (mkRateLimitData c (t1 + windowMs)) 60).
Proof.
  intros Ht. unfold counting, setVaultData, cleanupMemoryCache; simpl.
  change ("vault:" ++ "rate_limit:" ++ ip) with ("vault:rate_limit:" ++ ip).
  split.
  - apply map_lookup_filter_Some_2; [apply lookup_insert_eq |].
    unfold expired; simpl. rewrite lookup_insert_eq. apply Z.leb_gt. lia.
  - exists (now st + 60 * 1000). split.
    + apply map_lookup_filter_Some_2; [apply lookup_insert_eq | simpl; lia].
    + unfold windowMs. lia.
Qed.

(** A request inside the window of a counted address. *)
Lemma rateLimit_counted (ip : string) (c t1 t : Z) (st : State RateLimitData) :
  counting ip c t1 st -> t1 <= t < t1 + windowMs ->
  let (st', d) := rateLimit (advance t st) ip in
  counting ip (c + 1) t1 st' /\ passed d = (c + 1 <=? maxRequests).
Proof.
  intros Hcount Ht.
  unfold rateLimit.
  rewrite (counting_read ip c t1 t st Hcount) by lia.
  cbn [resetTime count now advance].
  destruct (Z.ltb_spec (t1 + windowMs) t) as [Hover | _]; [lia |].
  destruct (Z.ltb_spec maxRequests (c + 1)) as [Hmany | Hfew].
  - split.
    + destruct Hcount as [_ (e & He & Hle)].
      unfold counting, mutate; simpl.
      change ("vault:" ++ "rate_limit:" ++ ip) with ("vault:rate_limit:" ++ ip).
      rewrite lookup_insert_eq. split; [reflexivity |]. now exists e.
    + simpl. symmetry. apply Z.leb_gt. lia.
  - split.
    + apply (counting_set ip (c + 1) t1
               (mutate (advance t st) ("vault:" ++ "rate_limit:" ++ ip)
                  (mkRateLimitData (c + 1) (t1 + windowMs)))).
      simpl. lia.
    + simpl. symmetry. apply Z.leb_le. lia.
Qed.

Lemma serve_counted (ip : string) (t1 : Z) (ts : list Z) :
  forall (c : Z) (st : State RateLimitData) (ds : list Decision),
    counting ip c t1 st ->
    Forall (fun t => t1 <= t < t1 + windowMs) ts ->
    map passed (snd (fold_left (serve ip) ts (st, ds)))
    = (map passed ds
       ++ map (fun i => c + Z.of_nat i <=? maxRequests) (seq 1 (length ts)))%list.
Proof.
  induction ts as [| t ts IH]; intros c st ds Hcount Hts; simpl.
  - now rewrite app_nil_r.
  - inversion_clear Hts as [| ? ? Ht Hts'].
    pose proof (rateLimit_counted ip c t1 t st Hcount Ht) as Hstep.
    unfold serve at 2. cbn [fst snd].
    destruct (rateLimit (advance t st) ip) as [st' d].
    destruct Hstep as [Hcount' Hd].
    rewrite (IH (c + 1) st' (ds ++ [d])%list Hcount' Hts').
    rewrite map_app, <- app_assoc. simpl. rewrite Hd.
    f_equal. f_equal.
    rewrite <- (seq_shift (length ts) 1), map_map.
    apply map_ext. intros i. f_equal. lia.
Qed.

(** The first request of a window. *)
Lemma rateLimit_first (ip : string) (t1 : Z) (st : State RateLimitData) :
  getVaultData (advance t1 st) ("rate_limit:" ++ ip) = None ->
  let (st', d) := rateLimit (advance t1 st) ip in
  counting ip 1 t1 st' /\ d = Next.
Proof.
  intros Hnone. unfold rateLimit. rewrite Hnone.
  cbn [resetTime count now advance].
  destruct (Z.ltb_spec (t1 + windowMs) t1) as [Hover | _]; [unfold windowMs in Hover; lia |].
  simpl. split; [| reflexivity].
  apply (counting_set ip 1 t1 (advance t1 st)). simpl. lia.
Qed.

End RateLimiterFacts.

(** X15.  Of the requests one address makes within a minute of its first
    one, exactly the first 200 are let through; every later one is answered
    with status 429. *)
Theorem rate_limit_admits_200_per_window (st : CacheManager.State RateLimiter.RateLimitData)
    (ip : string) (t1 : Z) (ts : list Z) :
  CacheManager.getVaultData (CacheOps.advance t1 st) ("rate_limit:" ++ ip) = None ->
  Forall (fun t => t1 <= t < t1 + 60000) ts ->
  map RateLimiter.passed (RateLimiter.requests ip st (t1 :: ts))
  = map (fun i => Z.of_nat i <=? 200) (seq 1 (S (length ts))).
Proof.
  intros Hnone Hts.
  unfold RateLimiter.requests. cbn [fold_left].
  pose proof (rateLimit_first ip t1 st Hnone) as Hfirst.
  unfold RateLimiter.serve at 2. cbn [fst snd].
  destruct (RateLimiter.rateLimit (CacheOps.advance t1 st) ip) as [st' d].
  destruct Hfirst as [Hcount ->].
  rewrite (serve_counted ip t1 ts 1 st' _ Hcount Hts).
  cbn [map app seq].
  f_equal.
  rewrite <- (seq_shift (length ts) 1), map_map.
  apply map_ext. intros i. unfold RateLimiter.maxRequests. f_equal. lia.
Qed.

Lemma rate_limit_witness :
  map RateLimiter.passed
    (RateLimiter.requests "203.0.113.7" (CacheManager.cold 0) [0; 10; 59999])
  = [true; true; true].
Proof.
  apply (rate_limit_admits_200_per_window (CacheManager.cold 0) "203.0.113.7" 0
           [10; 59999]).
  - reflexivity.
  - repeat (apply List.Forall_cons; [simpl; lia |]). apply List.Forall_nil.
Defined.

Section YieldCalculatorFacts.

Import Effects YieldCalculator YieldFacts.

(** What [consider] does to the three running variables. *)
Lemma consider_spec (estimate : option YieldEstimate) (methods : list Method)
    (best : option Q) (highest : Q) :
  consider estimate (methods, best, highest)
  = match estimate with
    | None => (methods, best, highest)
    | Some y =>
        ((methods ++ [methodOf y])%list,
         (if Qle_bool (ye_confidence_score y) highest then best
          else Some (ye_calculated_apy y)),
         (if Qle_bool (ye_confidence_score y) highest then highest
          else ye_confidence_score y))
    end.
Proof.
  destruct estimate as [y |]; [| reflexivity].
  simpl. now destruct (Qle_bool (ye_confidence_score y) highest).
Qed.

Lemma comprehensive_result (c : Chain) (vaultAddress chainName protocol : string)
    (r : Comprehensive) :
  outcome (getComprehensiveVaultAnalysis c vaultAddress chainName protocol)
  = JS.Returned (Some r) ->
  exists methods best highest,
    consider (c_monthly_apy r)
      (consider (c_weekly_apy r) (consider (c_protocol_apy r) ([], None, 0%Q)))
    = (methods, best, highest)
    /\ c_calculation_methods r = methods
    /\ c_calculated_apy r = best
    /\ c_confidence_score r = highest.
Proof.
  unfold getComprehensiveVaultAnalysis.
  destruct (getVaultOnChainData c vaultAddress chainName protocol) as [t1 [[b |] | e]];
    destruct (getProtocolAPY c vaultAddress protocol chainName) as [t2 [p | e2]];
    destruct (calculateHistoricalAPY c vaultAddress chainName protocol 7) as [t3 [w | e3]];
    destruct (calculateHistoricalAPY c vaultAddress chainName protocol 30) as [t4 [m | e4]];
    cbn -[consider]; try discriminate.
  destruct (consider m (consider w (consider p ([], None, 0%Q)))) as [[methods best] highest] eqn:E.
  cbn -[consider]. intros [= Hr]. subst r. cbn -[consider].
  now exists methods, best, highest.
Qed.

Lemma Qle_bool_false (x y : Q) : Qle_bool x y = false -> (y < x)%Q.
Proof.
  intros H. apply Qnot_le_lt. intros Hle.
  apply Qle_bool_iff in Hle. congruence.
Qed.

(** X16.  A comprehensive analysis lists every estimate it obtained, in the
    order protocol, weekly, monthly; its confidence is the greatest of their
    confidences (0 when none is positive) and its APY is that of an estimate
    with that confidence (none when no confidence is positive). *)
Theorem comprehensive_picks_most_confident (c : Chain)
    (vaultAddress chainName protocol : string) (r : Comprehensive) :
  outcome (getComprehensiveVaultAnalysis c vaultAddress chainName protocol)
  = JS.Returned (Some r) ->
  c_calculation_methods r = map methodOf (available r)
  /\ Forall (fun y => (ye_confidence_score y <= c_confidence_score r)%Q) (available r)
  /\ match c_calculated_apy r with
     | Some apy =>
         exists y, In y (available r)
                   /\ ye_calculated_apy y = apy
                   /\ ye_confidence_score y = c_confidence_score r
                   /\ (0 < c_confidence_score r)%Q
     | None => c_confidence_score r = 0%Q
     end.
Proof.
  intros Hr.
  destruct (comprehensive_result c vaultAddress chainName protocol r Hr)
    as (methods & best & highest & Hc & -> & -> & ->).
  unfold available.
  destruct (c_protocol_apy r) as [p |], (c_weekly_apy r) as [w |],
    (c_monthly_apy r) as [m |];
    rewrite !consider_spec in Hc; cbn [omap list_omap id] in *;
    repeat match goal with
           | H : context [Qle_bool ?x ?y] |- _ =>
               let E := fresh "E" in
               destruct (Qle_bool x y) eqn:E;
               [apply Qle_bool_iff in E | apply Qle_bool_false in E]
           end;
    injection Hc as <- <- <-;
    (split; [reflexivity |]);
    (split; [repeat (apply List.Forall_cons; [lra |]); apply List.Forall_nil |]);
    try reflexivity;
    first [ exists p; split; [simpl; tauto | repeat split; lra]
          | exists w; split; [simpl; tauto | repeat split; lra]
          | exists m; split; [simpl; tauto | repeat split; lra] ].
Qed.

Lemma comprehensive_witness :
  exists r : Comprehensive,
    outcome (getComprehensiveVaultAnalysis liveChain aUSDC "ethereum" "aave-v3")
    = JS.Returned (Some r)
    /\ c_calculated_apy r = Some (4 # 100)%Q
    /\ c_calculation_methods r = map methodOf (available r).
Proof.
  eexists. split; [reflexivity |]. split; [reflexivity |].
  apply (comprehensive_picks_most_confident liveChain aUSDC "ethereum" "aave-v3").
  reflexivity.
Defined.




End YieldCalculatorFacts.

Section RiskCachingFacts.

Import RiskScorer RiskCaching.

Lemma calculateRiskScore_consistent (cache : RiskCache) (v : Vault) :
  consistent cache ->
  riskCategory (fst (calculateRiskScore cache v))
  = getRiskCategory (riskScore (fst (calculateRiskScore cache v)))
  /\ consistent (snd (calculateRiskScore cache v)).
Proof.
  intros Hc. unfold calculateRiskScore.
  destruct (cache !! cacheKey v) as [cached |] eqn:E; simpl.
  - split; [now apply (Hc _ _ E) | exact Hc].
  - assert (Hs : riskCategory (scoreVault v)
                 = getRiskCategory (riskScore (scoreVault v))).
    { unfold scoreVault; simpl. symmetry. apply getRiskCategory_clamped. }
    split; [exact Hs |].
    intros k a Hk.
    destruct (String.eqb_spec (cacheKey v) k) as [<- | Hne].
    + rewrite lookup_insert_eq in Hk. now injection Hk as <-.
    + rewrite lookup_insert_ne in Hk by exact Hne. now apply (Hc k).
Qed.

End RiskCachingFacts.

(** X20.  The risk analysis is cached under address, protocol and TVL only:
    once a vault has been scored, a vault with the same three values is given
    the same analysis, whatever its chain, yield and source are. *)
Theorem risk_analysis_is_reused (cache : RiskScorer.RiskCache) (v v' : Vault) :
  vault_address v = vault_address v' ->
  protocol v = protocol v' ->
  tvl_usd v = tvl_usd v' ->
  RiskScorer.calculateRiskScore (snd (RiskScorer.calculateRiskScore cache v)) v'
  = (fst (RiskScorer.calculateRiskScore cache v),
     snd (RiskScorer.calculateRiskScore cache v)).
Proof.
  intros Ha Hp Ht.
  assert (Hk : RiskScorer.cacheKey v' = RiskScorer.cacheKey v).
  { unfold RiskScorer.cacheKey. now rewrite Ha, Hp, Ht. }
  unfold RiskScorer.calculateRiskScore. rewrite Hk.
  destruct (cache !! RiskScorer.cacheKey v) as [cached |] eqn:E; simpl.
  - now rewrite E.
  - now rewrite lookup_insert_eq.
Qed.

Lemma risk_analysis_reuse_witness :
  RiskScorer.riskScore
    (fst (RiskScorer.calculateRiskScore
            (snd (RiskScorer.calculateRiskScore ∅ Examples.riskyVault))
            RiskCaching.elsewhere))
  = 43
  /\ RiskScorer.riskScore (RiskScorer.scoreVault RiskCaching.elsewhere) = 60.
Proof.
  split; [| vm_compute; reflexivity].
  rewrite (risk_analysis_is_reused ∅ Examples.riskyVault RiskCaching.elsewhere
             eq_refl eq_refl eq_refl).
  vm_compute. reflexivity.
Defined.

(** X21.  With a cache whose analyses carry the category of their score,
    every vault that filterByRiskTolerance returns has a category the
    tolerance admits: low for [low], low or medium-low for [medium-low], not
    high for [medium-high], and low, medium-low or medium for every other
    tolerance, [high] included. *)
Theorem filter_agrees_with_categories (cache : RiskScorer.RiskCache)
    (vaults : list Vault) (maxRiskLevel : string) (v : RiskScorer.ScoredVault) :
  RiskCaching.consistent cache ->
  In v (JS.await (RiskScorer.filterByRiskTolerance cache vaults maxRiskLevel)) ->
  RiskCaching.admits maxRiskLevel (RiskScorer.risk_category v) = true.
Proof.
  intros Hc Hin.
  unfold RiskScorer.filterByRiskTolerance in Hin. simpl in Hin.
  apply (Permutation_in _ (Permutation_sym (sort_perm RiskScorer.bySafety _))) in Hin.
  apply filter_In in Hin as [Hin Hscore].
  apply in_map_iff in Hin as [x [<- _]].
  unfold RiskScorer.enrich in *. simpl in *.
  destruct (calculateRiskScore_consistent cache x Hc) as [-> _].
  unfold RiskScorer.reaches, RiskScorer.floorOf in Hscore.
  destruct (JS.inherited maxRiskLevel); [discriminate Hscore |].
  unfold JS.geNum, JS.num in Hscore. apply Z.leb_le in Hscore.
  unfold RiskCaching.admits, RiskScorer.minScoreFor, RiskScorer.riskLevelScores in *.
  simpl in Hscore.
  set (s := RiskScorer.riskScore (RiskScorer.calculateRiskScore cache x).1) in *.
  unfold RiskScorer.getRiskCategory.
  destruct (String.eqb maxRiskLevel "low");
    [| destruct (String.eqb maxRiskLevel "medium-low");
       [| destruct (String.eqb maxRiskLevel "medium");
          [| destruct (String.eqb maxRiskLevel "medium-high");
             [| destruct (String.eqb maxRiskLevel "high")]]]];
    simpl in Hscore;
    repeat match goal with
           | |- context [String.eqb ?a ?b] => destruct (String.eqb a b)
           | |- context [?a <=? s] => destruct (Z.leb_spec a s)
           end; try reflexivity; lia.
Qed.

Lemma filter_agrees_witness :
  RiskCaching.admits "medium"
    (RiskScorer.risk_category (RiskScorer.enrich ∅ Examples.confident)) = true.
Proof.
  apply (filter_agrees_with_categories ∅ Examples.threeVaults "medium").
  - intros k a H. rewrite lookup_empty in H. discriminate H.
  - vm_compute. tauto.
Defined.

Lemma nobody_is_within_risk (cache : RiskScorer.RiskCache) (risk_min risk_max : Z)
    (vaults : list Vault) :
  List.filter (Search.withinRisk risk_min risk_max) (map (Search.enrich cache) vaults)
  = [].
Proof.
  induction vaults as [| v vaults IH]; simpl; [reflexivity | exact IH].
Qed.

Lemma slice0_nil {A : Type} (k : Z) : JS.slice0 k (@nil A) = [].
Proof. unfold JS.slice0. destruct (k <? 0); apply firstn_nil. Qed.

(** X22.  A custom search finds nothing: whatever the criteria and whatever
    the providers report, the answer lists no vault, reports 0 matches, no
    best vault and the value 0, after the two provider fetches.  The promise
    of calculateRiskScore is not awaited, so every risk score is undefined
    and fails the risk bounds; without a criteria object the call throws
    before any fetch. *)
Theorem custom_search_finds_nothing (w : Adapter.World) (criteria : Search.Criteria) :
  Search.getCustomVaultSearch w (Some criteria)
  = ([Effects.FetchDefiLlama; Effects.FetchVaultsFyi],
     JS.Returned (Search.mkSearchResult [] 0 None 0%Q))
  /\ Effects.trace (Search.getCustomVaultSearch w None) = []
  /\ exists e, Effects.outcome (Search.getCustomVaultSearch w None) = JS.Thrown e.
Proof.
  split; [| split; [reflexivity | eexists; reflexivity]].
  unfold Search.getCustomVaultSearch, Adapter.collectFromAllSources.
  cbn [Effects.bind Effects.emit Effects.ret app].
  rewrite nobody_is_within_risk.
  cbn [JS.sort]. rewrite slice0_nil. reflexivity.
Qed.

Lemma omap_id_map {A B : Type} (g : A -> option B) (l : list A) :
  omap id (map g l) = omap g l.
Proof.
  induction l as [| x l IH]; [reflexivity |].
  change (omap id (map g (x :: l)))
    with (match g x with Some y => y :: omap id (map g l) | None => omap id (map g l) end).
  change (omap g (x :: l))
    with (match g x with Some y => y :: omap g l | None => omap g l end).
  now rewrite IH.
Qed.

Section BatchFacts.

Import Effects OnChainValidation.

Context {A B : Type} (f : A -> IO (option B)).

Hypothesis f_returns : forall x, exists t y, f x = (t, JS.Returned y).

Lemma mapIO_returns (l : list A) :
  mapIO f l
  = (flat_map (fun x => trace (f x)) l, JS.Returned (map (fun x => valueOf (f x)) l)).
Proof.
  induction l as [| x l IH]; [reflexivity |].
  cbn [mapIO flat_map map]. rewrite IH.
  destruct (f_returns x) as (t & y & Hx). rewrite Hx.
  unfold valueOf; simpl. now rewrite app_nil_r.
Qed.

Lemma batchLoop_returns (todo : list (list A)) :
  forall results : list B,
    batchLoop f todo results
    = (flat_map (fun x => trace (f x)) (concat todo),
       JS.Returned (results ++ omap (fun x => valueOf (f x)) (concat todo))%list).
Proof.
  induction todo as [| batch todo IH]; intros results.
  - simpl. now rewrite app_nil_r.
  - cbn [batchLoop concat]. rewrite mapIO_returns.
    cbn [bind]. rewrite IH.
    rewrite flat_map_app. f_equal. f_equal.
    rewrite <- app_assoc. f_equal.
    rewrite omap_app. f_equal.
    apply omap_id_map.
Qed.

End BatchFacts.

Lemma batchesFrom_concat {A : Type} (size : nat) (l : list A) :
  (0 < size)%nat ->
  forall fuel i : nat,
    (i <= length l)%nat -> (length l - i <= fuel)%nat ->
    concat (Loops.batchesFrom fuel i size l) = skipn i l.
Proof.
  intros Hsize. induction fuel as [| fuel IH]; intros i Hi Hfuel; simpl.
  - rewrite skipn_all2; [reflexivity | lia].
  - destruct (Nat.ltb_spec i (length l)) as [Hlt | Hge].
    + simpl.
      destruct (Nat.le_gt_cases (i + size) (length l)) as [Hin | Hout].
      * rewrite IH by lia.
        rewrite <- (firstn_skipn size (skipn i l)) at 2.
        f_equal. rewrite skipn_skipn. f_equal. lia.
      * rewrite firstn_all2 by (rewrite length_skipn; lia).
        assert (Hrest : Loops.batchesFrom fuel (i + size) size l = []).
        { destruct fuel; simpl; [reflexivity |].
          destruct (Nat.ltb_spec (i + size) (length l)); [lia | reflexivity]. }
        rewrite Hrest. simpl. apply app_nil_r.
    + simpl. rewrite skipn_all2; [reflexivity | lia].
Qed.

Lemma batches_concat {A : Type} (size : nat) (l : list A) :
  (0 < size)%nat -> concat (Loops.batches size l) = l.
Proof.
  intros Hsize. unfold Loops.batches.
  rewrite (batchesFrom_concat size l Hsize (length l) 0); [reflexivity | lia | lia].
Qed.

Lemma request_returns (r : OnChainValidation.Reads) (req : string * string * string) :
  exists t y, OnChainValidation.request r req = (t, JS.Returned y).
Proof.
  destruct req as [[a c] p].
  unfold OnChainValidation.request, OnChainValidation.getVaultOnChainData.
  destruct (negb _); [now eexists _, _ |].
  destruct (_ || _); now eexists _, _.
Qed.

Lemma batchGetVaultData_flat (r : OnChainValidation.Reads)
    (vaultList : list (string * string * string)) :
  OnChainValidation.batchGetVaultData r vaultList
  = (flat_map (fun req => Effects.trace (OnChainValidation.request r req)) vaultList,
     JS.Returned
       (omap (fun req => OnChainValidation.valueOf (OnChainValidation.request r req))
          vaultList)).
Proof.
  unfold OnChainValidation.batchGetVaultData.
  change (fun '(vault_address, chain, protocol) =>
            OnChainValidation.getVaultOnChainData r vault_address chain protocol)
    with (OnChainValidation.request r).
  rewrite (batchLoop_returns (OnChainValidation.request r) (request_returns r)).
  rewrite batches_concat by (unfold OnChainValidation.BATCH_SIZE; lia).
  reflexivity.
Qed.

Section ValidationFacts.

Import Effects Validator OnChainValidation.

Lemma request_shape (r : Reads) (a c p : string) :
  request r (a, c, p)
  = if providers r c && isContractAddress a
    then ([RpcRead "getVaultOnChainData" a],
          JS.Returned (option_map (fun token => mkOnChainData a c token (clock r a c))
                         (tokenData r a c p)))
    else ([], JS.Returned None).
Proof.
  unfold request, getVaultOnChainData, isContractAddress.
  destruct (providers r c); [| reflexivity].
  destruct (String.eqb a ""); [reflexivity |].
  destruct (JS.startsWith "0x" a); [| reflexivity].
  destruct (String.length a =? 42)%nat; reflexivity.
Qed.

Lemma request_reads_contracts (r : Reads) (req : string * string * string) :
  forallb readsContract (trace (request r req)) = true
  /\ (length (trace (request r req)) <= 1)%nat
  /\ forall m, valueOf (request r req) = Some m ->
       isContractAddress (oc_vault_address m) = true.
Proof.
  destruct req as [[a c] p]. rewrite request_shape.
  destruct (providers r c); simpl;
    [destruct (isContractAddress a) eqn:Ha; simpl |].
  - rewrite Ha. repeat split; [lia |].
    unfold valueOf; simpl. intros m Hm.
    destruct (tokenData r a c p); [| discriminate Hm].
    injection Hm as <-. exact Ha.
  - repeat split; [lia |]. unfold valueOf; simpl. discriminate.
  - repeat split; [lia |]. unfold valueOf; simpl. discriminate.
Qed.

Lemma reads_of_requests (r : Reads) (l : list (string * string * string)) :
  forallb readsContract (flat_map (fun req => trace (request r req)) l) = true
  /\ (length (flat_map (fun req => trace (request r req)) l) <= length l)%nat
  /\ Forall (fun m => isContractAddress (oc_vault_address m) = true)
       (omap (fun req => valueOf (request r req)) l).
Proof.
  induction l as [| req l (IH1 & IH2 & IH3)]; [repeat split; constructor |].
  destruct (request_reads_contracts r req) as (H1 & H2 & H3).
  cbn [flat_map]. rewrite forallb_app, length_app. cbn [length].
  split; [now rewrite H1, IH1 |]. split; [lia |].
  change (omap (fun req => valueOf (request r req)) (req :: l))
    with (match valueOf (request r req) with
          | Some y => y :: omap (fun req => valueOf (request r req)) l
          | None => omap (fun req => valueOf (request r req)) l
          end).
  destruct (valueOf (request r req)) as [m |]; [| exact IH3].
  constructor; [now apply H3 | exact IH3].
Qed.

Lemma highValueVaults_few (minTvl : Z) (apiVaults : list Vault) :
  (length (highValueVaults minTvl apiVaults) <= 20)%nat.
Proof.
  unfold highValueVaults, JS.slice0. simpl. rewrite length_firstn. lia.
Qed.

Lemma validation_score_bounds (validation : ValidationResult) :
  0 <= calculateValidationScore validation <= 100
  /\ (has_real_address validation = true -> 30 <= calculateValidationScore validation).
Proof.
  destruct validation as [n a t f h].
  unfold calculateValidationScore; simpl.
  destruct n, a, t, f, h; simpl; split; try lia; intros; try discriminate; lia.
Qed.

(** What step 4 makes of one vault. *)
Lemma enrichWith_shape (now : Z) (onChainData : list OnChainData) (apiVault : Vault) :
  Forall (fun m => isContractAddress (oc_vault_address m) = true) onChainData ->
  let x := enrichWith now onChainData apiVault in
  source x = apiVault
  /\ match on_chain_data x with
     | Some m =>
         In m onChainData
         /\ isMatch apiVault m = true
         /\ 30 <= new_validation_score x <= 100
         /\ data_confidence x <> api_only
     | None => new_validation_score x = 0 /\ data_confidence x = api_only
     end.
Proof.
  intros Hshape. unfold enrichWith.
  destruct (find (isMatch apiVault) onChainData) as [m |] eqn:Hfind; simpl.
  - apply find_some in Hfind as [Hin Hmatch].
    rewrite List.Forall_forall in Hshape.
    destruct (validation_score_bounds (validateVaultData now m apiVault)) as [Hb Hreal].
    repeat split; try assumption; try lia; [| discriminate].
    apply Hreal. simpl. now apply Hshape.
  - repeat split.
Qed.

(** collectFromAllSourcesWithOnChain in one piece. *)
Lemma validation_pipeline (w : Adapter.World) (r : Reads) (now : Z)
    (minTvlEnv : option Z) :
  let apiVaults :=
    Reconciler.records
      (Reconciler.collectFromAllSources (Adapter.defiLlamaVaults w)
         (Adapter.vaultsFyiVaults w)) in
  exists (rpc : list IOEvent) (onChainData : list OnChainData),
    collectFromAllSourcesWithOnChain w r now minTvlEnv
    = (([FetchDefiLlama; FetchVaultsFyi] ++ rpc)%list,
       JS.Returned (map (enrichWith now onChainData) apiVaults))
    /\ (length rpc <= 20)%nat
    /\ forallb readsContract rpc = true
    /\ Forall (fun m => isContractAddress (oc_vault_address m) = true) onChainData.
Proof.
  intros apiVaults.
  unfold collectFromAllSourcesWithOnChain, Adapter.collectFromAllSources.
  cbn [bind emit ret app]. fold apiVaults.
  set (minTvl := match minTvlEnv with Some z => z | None => 10000000 end).
  destruct (Nat.eqb_spec (length (highValueVaults minTvl apiVaults)) 0) as [Hnone | Hsome].
  - exists [], []. simpl. repeat split; try constructor; try lia.
  - rewrite batchGetVaultData_flat. cbn [bind ret tryCatch].
    rewrite app_nil_r.
    set (requests := map (fun vault => (vault_address vault, chain vault, protocol vault))
                       (highValueVaults minTvl apiVaults)).
    destruct (reads_of_requests r requests) as (H1 & H2 & H3).
    eexists _, _. split; [reflexivity |].
    split; [| split; assumption].
    unfold requests in H2. rewrite length_map in H2.
    pose proof (highValueVaults_few minTvl apiVaults). unfold requests. lia.
Qed.

End ValidationFacts.

(** X23.  When no request names the protocol [yearn], batchGetVaultData
    calls getVaultOnChainData once for every request, in the order of the
    list; the chain is read for the requests with a provider and a
    contract-shaped address only, and the results that are not null are
    returned in the order of the list: the batches of five change neither. *)
Theorem batch_reads_every_contract_once (r : OnChainValidation.Reads)
    (vaultList : list (string * string * string)) :
  List.Forall (fun req => OnChainValidation.takesYearnPath (snd req) = false)
    vaultList ->
  let readable (req : string * string * string) :=
    OnChainValidation.providers r (snd (fst req))
    && OnChainValidation.isContractAddress (fst (fst req)) in
  OnChainValidation.batchGetVaultData r vaultList
  = (map (fun req => Effects.RpcRead "getVaultOnChainData" (fst (fst req)))
       (List.filter readable vaultList),
     JS.Returned
       (omap (fun req =>
                if readable req
                then option_map
                       (fun token =>
                          OnChainValidation.mkOnChainData (fst (fst req)) (snd (fst req))
                            token
                            (OnChainValidation.clock r (fst (fst req)) (snd (fst req))))
                       (OnChainValidation.tokenData r (fst (fst req)) (snd (fst req))
                          (snd req))
                else None)
          vaultList)).
Proof.
  intros _ readable. subst readable. rewrite batchGetVaultData_flat.
  induction vaultList as [| [[a c] p] l IH]; [reflexivity |].
  injection IH as IHt IHv.
  cbn [flat_map List.filter map].
  change (omap ?g ([(a, c, p)] ++ l)%list) with (omap g ((a, c, p) :: l)).
  rewrite IHt.
  change (omap ?g ((a, c, p) :: l))
    with (match g (a, c, p) with Some y => y :: omap g l | None => omap g l end).
  rewrite IHv, request_shape.
  cbn [fst snd].
  destruct (OnChainValidation.providers r c && OnChainValidation.isContractAddress a);
    reflexivity.
Qed.

Lemma batch_reads_witness :
  Effects.trace
    (OnChainValidation.batchGetVaultData OnChainValidation.sampleReads
       [ ("747c1d2a-c668-4682-b9f9-296708a3dd90", "ethereum", "aave-v3");
         (vault_address Examples.onBase, "base", "compound-v3");
         (vault_address Examples.confident, "ethereum", "morpho-blue") ])
  = [ Effects.RpcRead "getVaultOnChainData" (vault_address Examples.onBase);
      Effects.RpcRead "getVaultOnChainData" (vault_address Examples.confident) ].
Proof.
  exact (f_equal fst
           (batch_reads_every_contract_once OnChainValidation.sampleReads
              [ ("747c1d2a-c668-4682-b9f9-296708a3dd90", "ethereum", "aave-v3");
                (vault_address Examples.onBase, "base", "compound-v3");
                (vault_address Examples.confident, "ethereum", "morpho-blue") ]
              ltac:(repeat (apply List.Forall_cons; [reflexivity |]);
                    apply List.Forall_nil))).
Defined.

(** X24.  When no provider reports a vault of the protocol [yearn],
    collectFromAllSourcesWithOnChain returns every reconciled vault once, in
    the order of the reconciliation, and calls getVaultOnChainData for at
    most 20 contracts, none under an address that is not contract shaped. *)
Theorem onchain_validation_keeps_every_vault (w : Adapter.World)
    (r : OnChainValidation.Reads) (now : Z) (minTvlEnv : option Z) :
  List.Forall (fun v => OnChainValidation.takesYearnPath (protocol v) = false)
    (Adapter.defiLlamaVaults w ++ Adapter.vaultsFyiVaults w) ->
  exists (rpc : list Effects.IOEvent) (out : list OnChainValidation.Validated),
    OnChainValidation.collectFromAllSourcesWithOnChain w r now minTvlEnv
    = (([Effects.FetchDefiLlama; Effects.FetchVaultsFyi] ++ rpc)%list, JS.Returned out)
    /\ map OnChainValidation.source out
       = Reconciler.records
           (Reconciler.collectFromAllSources (Adapter.defiLlamaVaults w)
              (Adapter.vaultsFyiVaults w))
    /\ (length rpc <= 20)%nat
    /\ forallb OnChainValidation.readsContract rpc = true.
Proof.
  intros _.
  destruct (validation_pipeline w r now minTvlEnv)
    as (rpc & onChainData & Hrun & Hfew & Hshape & Hdata).
  exists rpc. eexists. split; [exact Hrun |].
  split; [| split; assumption].
  rewrite map_map.
  erewrite map_ext; [apply map_id |].
  intros v. now destruct (enrichWith_shape now onChainData v Hdata).
Qed.

Lemma onchain_validation_witness :
  exists (rpc : list Effects.IOEvent) (out : list OnChainValidation.Validated),
    OnChainValidation.collectFromAllSourcesWithOnChain
      OnChainValidation.sampleWorld OnChainValidation.sampleReads 2000 None
    = (([Effects.FetchDefiLlama; Effects.FetchVaultsFyi] ++ rpc)%list, JS.Returned out)
    /\ map OnChainValidation.source out
       = Reconciler.records
           (Reconciler.collectFromAllSources
              (Adapter.defiLlamaVaults OnChainValidation.sampleWorld)
              (Adapter.vaultsFyiVaults OnChainValidation.sampleWorld))
    /\ (length rpc <= 20)%nat
    /\ forallb OnChainValidation.readsContract rpc = true.
Proof.
  apply (onchain_validation_keeps_every_vault OnChainValidation.sampleWorld
           OnChainValidation.sampleReads 2000 None).
  repeat (apply List.Forall_cons; [reflexivity |]). apply List.Forall_nil.
Defined.

Lemma in_validated (w : Adapter.World) (r : OnChainValidation.Reads) (now : Z)
    (minTvlEnv : option Z) (out : list OnChainValidation.Validated)
    (x : OnChainValidation.Validated) :
  Effects.outcome (OnChainValidation.collectFromAllSourcesWithOnChain w r now minTvlEnv)
  = JS.Returned out ->
  In x out ->
  exists (onChainData : list OnChainValidation.OnChainData) (apiVault : Vault),
    x = OnChainValidation.enrichWith now onChainData apiVault
    /\ Forall (fun m => OnChainValidation.isContractAddress
                          (OnChainValidation.oc_vault_address m) = true)
         onChainData.
Proof.
  destruct (validation_pipeline w r now minTvlEnv)
    as (rpc & onChainData & Hrun & _ & _ & Hdata).
  rewrite Hrun. simpl. intros [= <-] Hin.
  apply in_map_iff in Hin as [v [<- _]].
  now exists onChainData, v.
Qed.

(** X25.  A vault that collectFromAllSourcesWithOnChain matched with
    on-chain data has a validation score between 30 and 100, and the data it
    was matched with belongs to a contract-shaped address equal to its own up
    to case, on its chain; every other vault has the score 0 and the
    confidence [api_only]. *)
Theorem validation_score_is_zero_or_at_least_30 (w : Adapter.World)
    (r : OnChainValidation.Reads) (now : Z) (minTvlEnv : option Z)
    (out : list OnChainValidation.Validated) (x : OnChainValidation.Validated) :
  Effects.outcome (OnChainValidation.collectFromAllSourcesWithOnChain w r now minTvlEnv)
  = JS.Returned out ->
  In x out ->
  match OnChainValidation.on_chain_data x with
  | Some m =>
      OnChainValidation.isContractAddress (OnChainValidation.oc_vault_address m) = true
      /\ OnChainValidation.isMatch (OnChainValidation.source x) m = true
      /\ 30 <= OnChainValidation.new_validation_score x <= 100
      /\ OnChainValidation.data_confidence x <> OnChainValidation.api_only
  | None =>
      OnChainValidation.new_validation_score x = 0
      /\ OnChainValidation.data_confidence x = OnChainValidation.api_only
  end.
Proof.
  intros Hrun Hin.
  destruct (in_validated w r now minTvlEnv out x Hrun Hin)
    as (onChainData & v & -> & Hdata).
  destruct (enrichWith_shape now onChainData v Hdata) as [Hsrc Hx].
  destruct (OnChainValidation.on_chain_data (OnChainValidation.enrichWith now onChainData v))
    as [m |]; [| exact Hx].
  destruct Hx as (Hm & Hmatch & Hscore & Hconf).
  rewrite Hsrc. rewrite List.Forall_forall in Hdata.
  repeat split; try assumption; try lia. now apply Hdata.
Qed.

Lemma validation_score_witness :
  OnChainValidation.new_validation_score OnChainValidation.sampleValidated = 100
  /\ match OnChainValidation.on_chain_data OnChainValidation.sampleValidated with
     | Some m =>
         OnChainValidation.isContractAddress (OnChainValidation.oc_vault_address m)
         = true
         /\ OnChainValidation.isMatch
              (OnChainValidation.source OnChainValidation.sampleValidated) m = true
         /\ 30 <= OnChainValidation.new_validation_score
                    OnChainValidation.sampleValidated <= 100
         /\ OnChainValidation.data_confidence OnChainValidation.sampleValidated
            <> OnChainValidation.api_only
     | None =>
         OnChainValidation.new_validation_score OnChainValidation.sampleValidated = 0
         /\ OnChainValidation.data_confidence OnChainValidation.sampleValidated
            = OnChainValidation.api_only
     end.
Proof.
  split; [vm_compute; reflexivity |].
  apply (validation_score_is_zero_or_at_least_30
           OnChainValidation.sampleWorld OnChainValidation.sampleReads 2000 None
           OnChainValidation.sampleOut).
  - vm_compute. reflexivity.
  - vm_compute. right. left. reflexivity.
Defined.

(** X26.  The comparator that getBestVault sorts with puts a vault that
    collectFromAllSourcesWithOnChain matched with on-chain data before every
    vault that it did not, whatever their yields and risk scores are. *)
Theorem validated_vault_is_ranked_first (w : Adapter.World)
    (r : OnChainValidation.Reads) (now : Z) (minTvlEnv : option Z)
    (out : list OnChainValidation.Validated) (x y : OnChainValidation.Validated)
    (cache : RiskScorer.RiskCache) :
  Effects.outcome (OnChainValidation.collectFromAllSourcesWithOnChain w r now minTvlEnv)
  = JS.Returned out ->
  In x out -> In y out ->
  OnChainValidation.on_chain_data x <> None ->
  OnChainValidation.on_chain_data y = None ->
  (Resolver.compareBest (OnChainValidation.candidateOf cache x)
     (OnChainValidation.candidateOf cache y) < 0)%Q.
Proof.
  intros Hrun Hx Hy Hvalidated Hnot.
  destruct (in_validated w r now minTvlEnv out x Hrun Hx) as (dx & vx & -> & Hdx).
  destruct (in_validated w r now minTvlEnv out y Hrun Hy) as (dy & vy & -> & Hdy).
  destruct (enrichWith_shape now dx vx Hdx) as [_ Sx].
  destruct (enrichWith_shape now dy vy Hdy) as [_ Sy].
  rewrite Hnot in Sy. destruct Sy as [Hzero _].
  destruct (OnChainValidation.on_chain_data (OnChainValidation.enrichWith now dx vx))
    as [m |]; [| congruence].
  destruct Sx as (_ & _ & Hscore & _).
  unfold Resolver.compareBest, Resolver.confidence, OnChainValidation.candidateOf.
  cbn [Resolver.withRiskAdjustedAPY Resolver.scored RiskScorer.enrich RiskScorer.vault
       RiskScorer.set_risk_score validation_score OnChainValidation.toVault].
  rewrite Hzero.
  set (s := OnChainValidation.new_validation_score
              (OnChainValidation.enrichWith now dx vx)) in *.
  unfold JS.orDefault.
  destruct (Z.eqb_spec s 0) as [Hs | _]; [lia |]. simpl.
  destruct (Z.ltb_spec 20 (Z.abs (s - 0))) as [_ | Hclose]; [| lia].
  unfold Qlt; simpl. lia.
Qed.

Lemma validated_rank_witness :
  (Resolver.compareBest
     (OnChainValidation.candidateOf ∅ OnChainValidation.sampleValidated)
     (OnChainValidation.candidateOf ∅ OnChainValidation.sampleUnvalidated) < 0)%Q.
Proof.
  apply (validated_vault_is_ranked_first
           OnChainValidation.sampleWorld OnChainValidation.sampleReads 2000 None
           OnChainValidation.sampleOut).
  - vm_compute. reflexivity.
  - vm_compute. right. left. reflexivity.
  - vm_compute. left. reflexivity.
  - vm_compute. discriminate.
  - vm_compute. reflexivity.
Defined.

Section CollectorFacts.
Import Collectors.

Lemma concat_map_filter {A : Type} (f : A -> bool) (chunks : list (list A)) :
  concat (map (List.filter f) chunks) = List.filter f (concat chunks).
Proof.
  induction chunks as [| chunk chunks IH]; simpl; [reflexivity |].
  rewrite IH. symmetry. apply List.filter_app.
Qed.

Lemma chunks_of_pools (pools : list DefiLlama.Pool) :
  concat (Loops.batches (DefiLlama.chunkSize (length pools)) pools) = pools.
Proof.
  destruct pools as [| p pools]; [reflexivity |].
  apply batches_concat. unfold DefiLlama.chunkSize.
  change (length (p :: pools)) with (S (length pools)).
  apply (Nat.div_str_pos (S (length pools) + 3) 4). lia.
Qed.

Lemma parseIntOfNumber_floor (x : Q) (z : Z) :
  (inject_Z z <= x)%Q -> z <= parseIntOfNumber x.
Proof.
  destruct x as [n d]. unfold Qle, parseIntOfNumber. simpl. intros H.
  apply Z.div_le_lower_bound; lia.
Qed.

Lemma isOneOf_In (s : string) (l : list string) :
  isOneOf s l = true -> In s l.
Proof.
  unfold isOneOf. intros H. apply existsb_exists in H as (x & Hx & Heq).
  apply String.eqb_eq in Heq. now subst.
Qed.

Lemma isLendingVault_spec (p : DefiLlama.Pool) :
  DefiLlama.isLendingVault p = true ->
  DefiLlama.extractMainAsset p = "USDC"
  /\ (exists c, DefiLlama.chain p = Present c
                /\ In (JS.toLowerCase c) DefiLlama.targetChains)
  /\ (100000 < orZero (DefiLlama.tvlUsd p))%Q
  /\ (0 < orZero (DefiLlama.apy p) < 100)%Q
  /\ (exists id, DefiLlama.pool p = Present id /\ id <> "")
  /\ DefiLlama.isLiquidityPool p = false.
Proof.
  unfold DefiLlama.isLendingVault, DefiLlama.extractMainAsset. cbv zeta.
  set (bySymbol := onField (DefiLlama.symbol p)
                     (fun s => JS.includes "USDC" (JS.toUpperCase s)) false).
  set (byToken := onField (DefiLlama.underlyingTokens p) _ false).
  intros Hkeep.
  split.
  { destruct bySymbol; [reflexivity |]. destruct byToken; [reflexivity |].
    discriminate Hkeep. }
  destruct (bySymbol || byToken); cbn [negb] in Hkeep; [| discriminate].
  destruct (DefiLlama.chain p) as [| c]; cbn [onField negb] in Hkeep; [discriminate |].
  destruct (isOneOf (JS.toLowerCase c) DefiLlama.targetChains) eqn:Hchain;
    cbn [negb] in Hkeep; [| discriminate].
  destruct (Qle_bool (orZero (DefiLlama.tvlUsd p)) 100000) eqn:Htvl; simpl in Hkeep;
    [discriminate |].
  destruct (Qle_bool (orZero (DefiLlama.apy p)) 0) eqn:Hlow; simpl in Hkeep;
    [discriminate |].
  destruct (Qle_bool 100 (orZero (DefiLlama.apy p))) eqn:Hhigh; simpl in Hkeep;
    [discriminate |].
  destruct (DefiLlama.pool p) as [| id]; simpl in Hkeep; [discriminate |].
  destruct (String.eqb_spec id ""); simpl in Hkeep; [discriminate |].
  destruct (DefiLlama.isLiquidityPool p); simpl in Hkeep; [discriminate |].
  apply isOneOf_In in Hchain.
  repeat split; eauto.
  all: apply Qnot_le_lt; rewrite <- Qle_bool_iff; congruence.
Qed.

(** X27. The four chunks that the DefiLlama collector filters one by one do
    not change what it collects: the pools of the answer that pass the
    filter, each normalised, in the order of the answer; a failed request
    collects nothing. *)
Theorem defillama_chunks_do_not_matter (pools : list DefiLlama.Pool) :
  DefiLlama.collectAllVaults (Some pools)
  = map DefiLlama.normalizeVaultData (List.filter DefiLlama.isLendingVault pools)
  /\ DefiLlama.collectAllVaults None = [].
Proof.
  split; [| reflexivity].
  unfold DefiLlama.collectAllVaults. cbv zeta.
  now rewrite concat_map_filter, chunks_of_pools.
Qed.

(** X28. Every record that the DefiLlama collector returns, from pools with
    a TVL below 10^21, is a USDC vault on one of the five target chains,
    with a pool identifier, a yield above 0 and below 100, a TVL of at least
    100000, no risk score yet, and comes from a pool that is no liquidity
    pool. *)
Theorem defillama_vaults_are_usdc_lending_vaults
    (pools : list DefiLlama.Pool) (n : DefiLlama.Normalized) :
  List.Forall DefiLlama.printable pools ->
  In n (DefiLlama.collectAllVaults (Some pools)) ->
  DefiLlama.asset_symbol n = "USDC"
  /\ (exists c, DefiLlama.chain_name n = Present c /\ In c DefiLlama.targetChains)
  /\ (exists id, DefiLlama.vault_address n = Present id /\ id <> "")
  /\ (0 < DefiLlama.apy_percent n < 100)%Q
  /\ 100000 <= DefiLlama.tvl_usd n
  /\ DefiLlama.data_source n = "defillama"
  /\ DefiLlama.risk_score n = None
  /\ exists p, In p pools /\ n = DefiLlama.normalizeVaultData p
               /\ DefiLlama.isLiquidityPool p = false.
Proof.
  intros _ Hn. unfold DefiLlama.collectAllVaults in Hn. cbv zeta in Hn.
  rewrite concat_map_filter, chunks_of_pools in Hn.
  apply in_map_iff in Hn as (p & <- & Hp).
  apply List.filter_In in Hp as [Hp Hkeep].
  apply isLendingVault_spec in Hkeep
    as (Hasset & (c & Hc & Hchain) & Htvl & Hapy & (id & Hid & Hne) & Hlp).
  simpl. rewrite Hc. simpl.
  repeat split; try tauto; eauto.
  apply parseIntOfNumber_floor. apply Qlt_le_weak. exact Htvl.
Qed.

Lemma defillama_vaults_witness :
  DefiLlama.asset_symbol (DefiLlama.normalizeVaultData DefiLlama.aaveUSDC) = "USDC"
  /\ DefiLlama.collectAllVaults (Some [DefiLlama.curvePair; DefiLlama.aaveUSDC])
     = [DefiLlama.normalizeVaultData DefiLlama.aaveUSDC].
Proof.
  split; [| reflexivity].
  apply (defillama_vaults_are_usdc_lending_vaults
           [DefiLlama.curvePair; DefiLlama.aaveUSDC]).
  - repeat (apply List.Forall_cons; [reflexivity |]). apply List.Forall_nil.
  - simpl. left. reflexivity.
Defined.

(** X29. Every record that the Vaults.fyi collector returns is on one of
    the five target chains, holds at least 100000 of TVL, names USDC in its
    asset symbol, and has an address and a protocol that are not empty. *)
Theorem vaultsfyi_vaults_qualify (now : Z)
    (response : option (list VaultsFyi.RawVault)) (n : VaultsFyi.Normalized) :
  In n (VaultsFyi.collectAllVaults now response) ->
  (exists c, VaultsFyi.chain n = Str c /\ In c VaultsFyi.targetChains)
  /\ 100000 <= VaultsFyi.tvl_usd n
  /\ JS.includes "USDC" (JS.toUpperCase (VaultsFyi.asset_symbol n)) = true
  /\ VaultsFyi.vault_address n <> ""
  /\ VaultsFyi.protocol n <> ""
  /\ VaultsFyi.data_source n = "vaultsfyi".
Proof.
  unfold VaultsFyi.collectAllVaults.
  destruct response as [vaults |]; [| intros []].
  destruct (length vaults =? 0)%nat; [intros [] |].
  intros Hn. apply List.filter_In in Hn as [Hn Hq].
  apply in_map_iff in Hn as (v & <- & _).
  unfold VaultsFyi.qualifies in Hq. cbv zeta in Hq.
  apply andb_prop in Hq as [Hq Htvl]. apply andb_prop in Hq as [Husdc Hchain].
  repeat split.
  - unfold VaultsFyi.isTargetChain in Hchain.
    destruct (VaultsFyi.chain _) as [| c |]; try discriminate.
    exists c. split; [reflexivity |]. now apply isOneOf_In.
  - now apply Z.leb_le.
  - exact Husdc.
  - simpl. unfold orString.
    destruct (VaultsFyi.address v) as [| a]; [discriminate |].
    destruct (String.eqb_spec a ""); [discriminate | assumption].
  - simpl. unfold orString.
    destruct (VaultsFyi.protocol_name v) as [| a]; [discriminate |].
    destruct (String.eqb_spec a ""); [discriminate | assumption].
Qed.

Lemma vaultsfyi_vaults_witness :
  VaultsFyi.collectAllVaults 1700000000000 (Some [VaultsFyi.compoundUSDC])
  = [VaultsFyi.normalizeVaultData 1700000000000 VaultsFyi.compoundUSDC]
  /\ 100000 <= VaultsFyi.tvl_usd
                 (VaultsFyi.normalizeVaultData 1700000000000 VaultsFyi.compoundUSDC).
Proof.
  split; [reflexivity |].
  apply (vaultsfyi_vaults_qualify 1700000000000 (Some [VaultsFyi.compoundUSDC])).
  simpl. left. reflexivity.
Defined.

End CollectorFacts.
